(** * CV / portfolio toolchain: localizer, renderer, site builder, exporter, editor

    A shallow embedding of the data-shaping code of the repository
    (generate_cv.js, generate_cv_lib, generate_portfolio.js, server.js) and
    the properties its specification states about it; then the functions
    around that code (the rest of the editor service, the command line, the
    editor in the browser, the theme of the pages) and properties of
    theirs. *)

From Stdlib Require Import ZArith NArith Ascii String List Permutation Sorted Lia Bool.
From stdpp Require Import base option list strings sorting gmap.

Local Open Scope string_scope.
Local Open Scope Z_scope.
Local Open Scope list_scope.

(** * Part I: the programs *)

(** ** JavaScript values and objects *)

Module JS.

(** The values a parsed JSON document is made of, plus [undefined], which a
    property read yields for an absent member. Numbers are the integers that
    a double holds exactly (the numerals of the CV data are years and
    counts); strings are sequences of 8-bit characters. An object is the
    list of its own members in the order [Object.entries] enumerates them;
    objects have the default prototype. *)
#[local] Unset Elimination Schemes.
Inductive value : Type :=
| VUndefined
| VNull
| VBool (b : bool)
| VNum (n : Z)
| VStr (s : string)
| VArr (items : list value)
| VObj (props : list (string * value)).
#[local] Set Elimination Schemes.

(** [o[key]] on the own members of an object. The member type [A] is
    [value] for documents, and a reference for objects held in a store. *)
Fixpoint get {A} (props : list (string * A)) (key : string) : option A :=
  match props with
  | [] => None
  | (k, v) :: rest => if String.eqb k key then Some v else get rest key
  end.

Fixpoint replace_prop {A} (props : list (string * A)) (key : string) (v : A)
  : list (string * A) :=
  match props with
  | [] => []
  | (k, x) :: rest =>
      if String.eqb k key then (k, v) :: rest else (k, x) :: replace_prop rest key v
  end.

(** [o[key] = v]: an existing member keeps its place, a new one is added
    last. The name [__proto__] is the prototype accessor of every object: an
    assignment to it creates no own member. *)
Definition set_prop {A} (props : list (string * A)) (key : string) (v : A)
  : list (string * A) :=
  if String.eqb key "__proto__" then props
  else match get props key with
       | Some _ => replace_prop props key v
       | None => props ++ [(key, v)]
       end.

Definition keys {A} (props : list (string * A)) : list string := map fst props.

(** ToBoolean. *)
Definition truthy (v : value) : bool :=
  match v with
  | VUndefined | VNull => false
  | VBool b => b
  | VNum n => negb (n =? 0)
  | VStr s => negb (String.eqb s "")
  | VArr _ | VObj _ => true
  end.

(** What an object built by the engine satisfies: the member names of every
    object are distinct, and none is the accessor name [__proto__]. *)
Fixpoint distinct (names : list string) : bool :=
  match names with
  | [] => true
  | k :: rest => negb (existsb (String.eqb k) rest) && distinct rest
  end.

Fixpoint well_formed (v : value) : bool :=
  match v with
  | VArr items => forallb well_formed items
  | VObj props =>
      distinct (keys props)
      && negb (existsb (String.eqb "__proto__") (keys props))
      && forallb (fun '(_, x) => well_formed x) props
  | _ => true
  end.

(** *** Completions

    A statement completes normally with a value, or throws. *)
Inductive error : Type :=
| TypeError
| Error (message : string).

Inductive completion (A : Type) : Type :=
| Normal (a : A)
| Throw (e : error).
Arguments Normal {A} a.
Arguments Throw {A} e.

#[export] Instance completion_ret : MRet completion := fun A a => Normal a.
#[export] Instance completion_bind : MBind completion :=
  fun A B k c => match c with Normal a => k a | Throw e => Throw e end.

(** [v.key] for the member names the code reads ([visible], [date], [year],
    [publications], ...): reading a member of [null] or [undefined] throws;
    a string, number, boolean or array has no member of these names. *)
Definition get_prop (v : value) (key : string) : completion value :=
  match v with
  | VUndefined | VNull => Throw TypeError
  | VObj props => Normal (default VUndefined (get props key))
  | _ => Normal VUndefined
  end.

(** [o.key = x], where [o] was read as an object. *)
Definition set_member (o : value) (key : string) (x : value) : value :=
  match o with
  | VObj props => VObj (set_prop props key x)
  | _ => o
  end.

(** [for (const x of v)] and [[...v]]: the elements of an array, the
    characters of a string; nothing else in a document can be iterated. *)
Definition iterate (v : value) : completion (list value) :=
  match v with
  | VArr items => Normal items
  | VStr s => Normal (map (fun c => VStr (String c "")) (list_ascii_of_string s))
  | _ => Throw TypeError
  end.

(** *** Numbers and numerals *)

Inductive number : Type :=
| NaN
| Num (z : Z).

(** [x - y] *)
Definition sub (x y : number) : number :=
  match x, y with
  | Num a, Num b => Num (a - b)
  | _, _ => NaN
  end.

Definition code (c : ascii) : N := N_of_ascii c.

Definition is_digit (c : ascii) : bool := (48 <=? code c)%N && (code c <=? 57)%N.

Fixpoint all_digits (s : string) : bool :=
  match s with
  | EmptyString => true
  | String c rest => is_digit c && all_digits rest
  end.

(** The number a run of decimal digits denotes. *)
Fixpoint read_digits (acc : N) (s : string) : N :=
  match s with
  | EmptyString => acc
  | String c rest => read_digits (10 * acc + (code c - 48)) rest
  end.

Definition decimal_value (s : string) : N := read_digits 0 s.

(** The decimal numeral of a non-negative integer, as [ToString] and
    template literals print it. *)
Fixpoint decimal_from (fuel : nat) (n : N) (acc : string) : string :=
  let acc' := String (ascii_of_N (48 + n mod 10)) acc in
  match fuel with
  | O => acc'
  | S fuel' => if (n <? 10)%N then acc' else decimal_from fuel' (n / 10) acc'
  end.

Definition decimal (n : N) : string := decimal_from (N.to_nat (N.size n)) n "".

Definition decimal_Z (n : Z) : string :=
  if n <? 0 then String "-" (decimal (Z.abs_N n)) else decimal (Z.to_N n).

(** ToString *)
Fixpoint ToString (v : value) : string :=
  match v with
  | VUndefined => "undefined"
  | VNull => "null"
  | VBool true => "true"
  | VBool false => "false"
  | VNum n => decimal_Z n
  | VStr s => s
  | VArr items =>
      String.concat ","
        (map (fun x => match x with
                       | VUndefined | VNull => ""
                       | _ => ToString x
                       end) items)
  | VObj _ => "[object Object]"
  end.

(** [parseInt(v)]: leading white space is skipped, then a sign, then [0x]
    for radix 16; the longest run of digits of the radix gives the number. *)
Definition is_white_space (c : ascii) : bool :=
  existsb (N.eqb (code c)) [9; 10; 11; 12; 13; 32; 160]%N.

Fixpoint trim_start (s : string) : string :=
  match s with
  | EmptyString => EmptyString
  | String c rest => if is_white_space c then trim_start rest else s
  end.

Definition radix_digit (radix : N) (c : ascii) : option N :=
  let n := code c in
  let d := if (48 <=? n)%N && (n <=? 57)%N then Some (n - 48)%N
           else if (97 <=? n)%N && (n <=? 122)%N then Some (n - 87)%N
           else if (65 <=? n)%N && (n <=? 90)%N then Some (n - 55)%N
           else None in
  match d with
  | Some d => if (d <? radix)%N then Some d else None
  | None => None
  end.

Fixpoint parse_digits (radix : N) (acc : option N) (s : string) : option N :=
  match s with
  | EmptyString => acc
  | String c rest =>
      match radix_digit radix c with
      | Some d => parse_digits radix (Some (radix * default 0%N acc + d)%N) rest
      | None => acc
      end
  end.

Definition parseInt_string (s : string) : number :=
  let s := trim_start s in
  let '(sign, s) := match s with
                    | String "-" rest => (-1, rest)
                    | String "+" rest => (1, rest)
                    | _ => (1, s)
                    end in
  let '(radix, s) := match s with
                     | String "0" (String "x" rest) => (16%N, rest)
                     | String "0" (String "X" rest) => (16%N, rest)
                     | _ => (10%N, s)
                     end in
  match parse_digits radix None s with
  | Some n => Num (sign * Z.of_N n)
  | None => NaN
  end.

Definition parseInt (v : value) : number := parseInt_string (ToString v).

(** ToNumber on the two kinds of string the year grouping produces: a run
    of decimal digits is its number; a word such as [Other], which no
    numeric literal matches, is [NaN]. *)
Definition ToNumber (s : string) : number :=
  if all_digits s && negb (String.eqb s "") then Num (Z.of_N (decimal_value s)) else NaN.

(** *** Enumeration order of member names

    [Object.keys] lists the names that are array indices first, in
    ascending numeric order, then the other names in the order they were
    created. *)
Definition is_array_index (s : string) : bool :=
  all_digits s && negb (String.eqb s "")
  && (String.eqb s "0" || negb (String.prefix "0" s))
  && (decimal_value s <? 2 ^ 32 - 1)%N.

Fixpoint insert_index (k : string) (sorted : list string) : list string :=
  match sorted with
  | [] => [k]
  | y :: rest =>
      if (decimal_value k <=? decimal_value y)%N then k :: y :: rest
      else y :: insert_index k rest
  end.

Definition Object_keys {A} (created : list (string * A)) : list string :=
  let names := keys created in
  fold_right insert_index [] (List.filter is_array_index names)
  ++ List.filter (fun k => negb (is_array_index k)) names.

(** *** [Array.prototype.sort]

    A stable sort. The result of [comparefn] orders two elements by its
    sign, [NaN] counting as [+0]. When [comparefn] is a consistent ordering
    every stable sort gives this result; otherwise the language leaves the
    order to the engine, and what is modelled is insertion from the right. *)
Definition order_of (v : number) : comparison :=
  match v with
  | NaN => Eq
  | Num z => z ?= 0
  end.

Section Sort.
Context {A : Type}.
Variable comparefn : A -> A -> completion number.

Definition not_after (x y : A) : completion bool :=
  v ← comparefn x y;
  mret (match order_of v with
        | Gt => false
        | _ => true
        end).

Fixpoint insert_sorted (x : A) (sorted : list A) : completion (list A) :=
  match sorted with
  | [] => mret [x]
  | y :: rest =>
      b ← not_after x y;
      if b : bool then mret (x :: y :: rest)
      else rest' ← insert_sorted x rest; mret (y :: rest')
  end.

Fixpoint Array_sort (items : list A) : completion (list A) :=
  match items with
  | [] => mret []
  | x :: rest => sorted ← Array_sort rest; insert_sorted x sorted
  end.
End Sort.

End JS.

(** ** The localizer: [localizeData] of generate_cv.js and generate_cv_lib *)

Module Localizer.
Import JS.

(** "has lang key with string/array value" *)
Definition resolves (props : list (string * value)) (lang : string) : option value :=
  match get props lang with
  | Some (VStr s) => Some (VStr s)
  | Some (VArr a) => Some (VArr a)
  | _ => None
  end.

(** [for (const [key, value] of Object.entries(data)) result[key] = f(value)] *)
Definition rebuild (f : value -> value)
  : list (string * value) -> list (string * value) -> list (string * value) :=
  fix loop entries result :=
    match entries with
    | [] => result
    | (key, v) :: rest => loop rest (set_prop result key (f v))
    end.

Fixpoint localizeData (data : value) (lang : string) : value :=
  match data with
  | VArr items => VArr (map (fun item => localizeData item lang) items)
  | VObj props =>
      match resolves props lang with
      | Some v => v
      | None => VObj (rebuild (fun v => localizeData v lang) props [])
      end
  | _ => data
  end.

(** A document already localized for [lang]: no object in it has a member
    [lang] holding a string or an array. *)
Fixpoint localized_for (lang : string) (data : value) : bool :=
  match data with
  | VArr items => forallb (localized_for lang) items
  | VObj props =>
      match resolves props lang with
      | Some _ => false
      | None => forallb (fun '(_, x) => localized_for lang x) props
      end
  | _ => true
  end.

(** *** Terms of the properties, and sample data *)

(** A small CV fragment, used to run the localizer. *)
Definition sample_cv : value :=
  VObj [("personal", VObj [("name", VStr "Ada"); ("title", VObj [("en", VStr "Engineer"); ("nl", VStr "Ingenieur")])]);
        ("hobbies", VObj [("en", VArr [VStr "chess"; VStr "rowing"]); ("nl", VArr [VStr "schaken"; VStr "roeien"])]);
        ("experience", VArr [VObj [("visible", VBool true); ("years", VNum 3);
                                   ("role", VObj [("en", VStr "Lead"); ("nl", VStr "Leider")])]])].

End Localizer.


(** ** The localizer over a store

    [localizeData] builds new arrays and objects and hands back, for a
    language object, the very array held under the language key. Whether
    the caller's document is touched is a question about shared objects, so
    the same function is also given over a store of arrays and objects that
    are reached by reference. *)

Module Store.
Import JS.

Abbreviation loc := nat.

(** What a variable or a member holds: a primitive, or a reference. *)
Inductive ref : Type :=
| RUndefined
| RNull
| RBool (b : bool)
| RNum (n : Z)
| RStr (s : string)
| RRef (l : loc).

Inductive cell : Type :=
| CArr (items : list ref)
| CObj (props : list (string * ref)).

Abbreviation store := (list cell).

(** A new array or object takes the next free location. *)
Definition alloc (c : cell) (st : store) : loc * store := (length st, st ++ [c]).

(** Writing the next element of the array at [l], and [o[key] = r] on the
    object at [l]. *)
Definition push (l : loc) (r : ref) (st : store) : store :=
  match st !! l with
  | Some (CArr items) => <[l := CArr (items ++ [r])]> st
  | _ => st
  end.

Definition assign (l : loc) (key : string) (r : ref) (st : store) : store :=
  match st !! l with
  | Some (CObj props) => <[l := CObj (set_prop props key r)]> st
  | _ => st
  end.

(** [data[lang] !== undefined && (typeof data[lang] === 'string' || Array.isArray(data[lang]))] *)
Definition resolves (st : store) (props : list (string * ref)) (lang : string) : option ref :=
  match get props lang with
  | Some (RStr s) => Some (RStr s)
  | Some (RRef a) =>
      match st !! a with
      | Some (CArr _) => Some (RRef a)
      | _ => None
      end
  | _ => None
  end.

Section Loops.
(** The recursive call, as the loops see it. *)
Variable rec : ref -> store -> option (ref * store).

(** [data.map(item => localizeData(item, lang))], filling the array at [a] *)
Fixpoint map_into (a : loc) (items : list ref) (st : store) : option (ref * store) :=
  match items with
  | [] => Some (RRef a, st)
  | item :: rest =>
      match rec item st with
      | Some (r, st') => map_into a rest (push a r st')
      | None => None
      end
  end.

(** [for (const [key, value] of Object.entries(data)) result[key] = localizeData(value, lang)] *)
Fixpoint rebuild_into (o : loc) (entries : list (string * ref)) (st : store)
  : option (ref * store) :=
  match entries with
  | [] => Some (RRef o, st)
  | (key, v) :: rest =>
      match rec v st with
      | Some (r, st') => rebuild_into o rest (assign o key r st')
      | None => None
      end
  end.
End Loops.

(** [None] stands for a call that does not return: a reference to nothing,
    or nesting deeper than [fuel] (a cyclic structure exhausts any fuel, as
    it exhausts the call stack). *)
Fixpoint localizeData (fuel : nat) (data : ref) (lang : string) (st : store)
  : option (ref * store) :=
  match fuel with
  | O => None
  | S fuel =>
      match data with
      | RRef l =>
          match st !! l with
          | Some (CArr items) =>
              let '(a, st1) := alloc (CArr []) st in
              map_into (fun item => localizeData fuel item lang) a items st1
          | Some (CObj props) =>
              match resolves st props lang with
              | Some v => Some (v, st)
              | None =>
                  let '(o, st1) := alloc (CObj []) st in
                  rebuild_into (fun v => localizeData fuel v lang) o props st1
              end
          | None => None
          end
      | _ => Some (data, st)
      end
  end.

(** A string, or an array of strings: what a language key holds. *)
Definition is_text (st : store) (r : ref) : Prop :=
  (exists s, r = RStr s)
  \/ (exists a items, r = RRef a /\ st !! a = Some (CArr items)
                     /\ Forall (fun x => exists s, x = RStr s) items).

(** [represents st r d]: in the store [st], what [r] holds reads as the
    document [d]. *)
#[local] Unset Elimination Schemes.
Inductive represents (st : store) : ref -> value -> Prop :=
| rep_undefined : represents st RUndefined VUndefined
| rep_null : represents st RNull VNull
| rep_bool b : represents st (RBool b) (VBool b)
| rep_num n : represents st (RNum n) (VNum n)
| rep_str s : represents st (RStr s) (VStr s)
| rep_arr l items ds :
    st !! l = Some (CArr items) ->
    Forall2 (represents st) items ds ->
    represents st (RRef l) (VArr ds)
| rep_obj l props dprops :
    st !! l = Some (CObj props) ->
    Forall2 (fun p q => p.1 = q.1 /\ represents st p.2 q.2) props dprops ->
    represents st (RRef l) (VObj dprops).
#[local] Set Elimination Schemes.

(** [grows st st']: every array and object of [st] is in [st'], as it was. *)
Definition grows (st st' : store) : Prop :=
  (length st <= length st')%nat /\ forall l, (l < length st)%nat -> st' !! l = st !! l.

(** The same, the cell at [a] left aside. *)
Definition grows_but (a : loc) (st st' : store) : Prop :=
  (length st <= length st')%nat
  /\ forall l, (l < length st)%nat -> l <> a -> st' !! l = st !! l.

(** *** Terms of the properties, and sample data *)

(** A language object held in the store, and the array under its [en] key. *)
Definition sample_store : store :=
  [CArr [RStr "chess"; RStr "rowing"];
   CObj [("en", RRef 0%nat); ("nl", RStr "schaken en roeien")]].

Definition same_members (st : store) (p : string * ref) (q : string * value) : Prop :=
  p.1 = q.1 /\ represents st p.2 q.2.

(** What the induction over a document [d] carries: on any store that
    grew from one where [r] reads as [d], the call returns with enough
    fuel, and its result reads as the localized [d] in every store that
    agrees with the final one on the cells of the input and on the cells
    made by the call. *)
Definition refines_at (lang : string) (d : value) : Prop :=
  forall st0 r, represents st0 r d ->
  exists fuel, forall fuel', (fuel <= fuel')%nat ->
  forall st, grows st0 st ->
  exists r' st',
    localizeData fuel' r lang st = Some (r', st')
    /\ forall st'',
         (forall l, (l < length st0 \/ length st <= l < length st')%nat -> st'' !! l = st' !! l) ->
         represents st'' r' (Localizer.localizeData d lang).

End Store.

(** ** The renderer: the data shaping of [renderTemplate] (generate_portfolio.js)

    [renderTemplate] localizes the document, adds the translation table and
    the link settings, then shapes two lists before it hands the result to
    the template engine. The two shaping steps are given here as functions
    of [localized]; each returns [localized] as the step leaves it. *)

Module Renderer.
Import JS.

(** [s.match(/\d{4}/)]: the first run of four decimal digits. *)
Definition four_digits (s : string) : bool :=
  match s with
  | String a (String b (String c (String d _))) =>
      is_digit a && is_digit b && is_digit c && is_digit d
  | _ => false
  end.

Fixpoint match_year (s : string) : option string :=
  match s with
  | EmptyString => None
  | String _ rest => if four_digits s then Some (substring 0 4 s) else match_year rest
  end.

(** [pres.date ? pres.date.match(/\d{4}/) : null]; of the values that count
    as true only a string has a [match] method. *)
Definition yearMatch (date : value) : completion (option string) :=
  if truthy date then
    match date with
    | VStr s => mret (match_year s)
    | _ => Throw TypeError
    end
  else mret None.

(** [v === false] *)
Definition is_false (v : value) : bool :=
  match v with
  | VBool false => true
  | _ => false
  end.

(** [if (!grouped[year]) grouped[year] = []; grouped[year].push(pres)];
    [grouped] lists its members in the order they were created. *)
Definition add_to_group (grouped : list (string * list value)) (year : string) (pres : value)
  : list (string * list value) :=
  let grouped := match get grouped year with
                 | Some _ => grouped
                 | None => set_prop grouped year []
                 end in
  set_prop grouped year (default [] (get grouped year) ++ [pres]).

(** The loop over the presentations. *)
Fixpoint group_loop (presentations : list value) (grouped : list (string * list value))
  : completion (list (string * list value)) :=
  match presentations with
  | [] => mret grouped
  | pres :: rest =>
      visible ← get_prop pres "visible";
      if is_false visible then group_loop rest grouped
      else
        date ← get_prop pres "date";
        found ← yearMatch date;
        let year := default "Other" found in
        group_loop rest (add_to_group grouped year pres)
  end.

(** [(a, b) => b - a] on member names *)
Definition by_year_desc (a b : string) : completion number :=
  mret (sub (ToNumber b) (ToNumber a)).

(** A member name made of four digits, as [match] returns it. *)
Definition is_year_key (s : string) : bool :=
  (String.length s =? 4)%nat && all_digits s.

(** The comparator the specification describes for the same sort:
    descending order of the names as strings. *)
Definition lexicographic_desc (a b : string) : completion number :=
  mret (match String.compare b a with
        | Lt => Num (-1)
        | Eq => Num 0
        | Gt => Num 1
        end).

Definition year_group (grouped : list (string * list value)) (year : string) : value :=
  VObj [("year", VStr year); ("items", VArr (default [] (get grouped year)))].

(** "Group presentations by year" *)
Definition groupPresentations (localized : value) : completion value :=
  presentations ← get_prop localized "presentations";
  if truthy presentations then
    items ← iterate presentations;
    grouped ← group_loop items [];
    years ← Array_sort by_year_desc (Object_keys grouped);
    mret (set_member localized "presentationsByYear" (VArr (map (year_group grouped) years)))
  else mret localized.

(** [parseInt(x.year || 0)] *)
Definition year_number (x : value) : completion number :=
  year ← get_prop x "year";
  mret (parseInt (if truthy year then year else VNum 0)).

(** [sortByYear = (a, b) => parseInt(b.year || 0) - parseInt(a.year || 0)] *)
Definition sortByYear (a b : value) : completion number :=
  yb ← year_number b;
  ya ← year_number a;
  mret (sub yb ya).

Definition is_undefined (v : value) : bool :=
  match v with
  | VUndefined => true
  | _ => false
  end.

(** [items.sort(comparefn)] on values: [undefined] elements go last and are
    not compared. *)
Definition sort_values (comparefn : value -> value -> completion number) (items : list value)
  : completion (list value) :=
  sorted ← Array_sort comparefn (List.filter (fun v => negb (is_undefined v)) items);
  mret (sorted ++ List.filter is_undefined items).

(** [if (publications.c) publications.c = [...publications.c].sort(sortByYear)] *)
Definition sort_category (category : string) (publications : value) : completion value :=
  entries ← get_prop publications category;
  if truthy entries then
    copy ← iterate entries;
    sorted ← sort_values sortByYear copy;
    mret (set_member publications category (VArr sorted))
  else mret publications.

(** "Sort publications by year (descending) within each category". The
    three assignments change the object that [localized.publications] is;
    here that object is put back under its name once they are done. *)
Definition sortPublications (localized : value) : completion value :=
  publications ← get_prop localized "publications";
  if truthy publications then
    publications ← sort_category "books" publications;
    publications ← sort_category "book_chapters" publications;
    publications ← sort_category "articles" publications;
    mret (set_member localized "publications" publications)
  else mret localized.

(** The two steps in the order of [renderTemplate]. *)
Definition shape (localized : value) : completion value :=
  localized ← groupPresentations localized;
  sortPublications localized.

(** *** Terms of the properties, and sample data *)

(** A presentation entry with a title and a date. *)
Definition talk (title date : string) : value :=
  VObj [("title", VStr title); ("date", VStr date)].

(** The year an entry sorts by: [parseInt(x.year || 0)], when that is a
    number, and one that a double holds exactly. *)
Definition has_year (x : value) (n : Z) : Prop :=
  year_number x = Normal (Num n) /\ Z.abs n <= 9007199254740991.

Definition year_of (x : value) : Z :=
  match year_number x with
  | Normal (Num n) => n
  | _ => 0
  end.

Definition by_year_descending (a b : value) : Prop := year_of b <= year_of a.

Definition sorted_copy (items sorted : list value) : Prop :=
  sorted ≡ₚ items /\ StronglySorted by_year_descending sorted.

Definition categories : list string := ["books"; "book_chapters"; "articles"].

Definition sortable (pubs : list (string * value)) (category : string) : Prop :=
  get pubs category = None
  \/ exists items, get pubs category = Some (VArr items)
                   /\ Forall (fun x => exists n, has_year x n) items.

(** Three entries: of 2020, of 2023, and one without a year. *)
Definition book_2020 : value := VObj [("title", VStr "Grammar"); ("year", VNum 2020)].

Definition book_2023 : value := VObj [("title", VStr "Syntax"); ("year", VStr "2023")].

Definition book_undated : value := VObj [("title", VStr "Notes")].

Definition sample_publications : list (string * value) :=
  [("books", VArr [book_2020; book_2023; book_undated]); ("articles", VArr [])].

(** [pres.visible === false] *)
Definition hidden (p : value) : Prop := get_prop p "visible" = Normal (VBool false).



(** A hidden talk between two shown ones. *)
Definition sample_talks : value :=
  VArr [talk "Keynote" "September 2025";
        VObj [("title", VStr "Dry run"); ("date", VStr "June 2025"); ("visible", VBool false)];
        talk "Seminar" "2024"].

(** Three entries of which the one in the middle has a year that is no
    number. *)
Definition book_in_press : value := VObj [("title", VStr "Drafts"); ("year", VStr "in press")].
Definition unread_years : value :=
  VObj [("publications", VObj [("books", VArr [book_2020; book_in_press; book_2023])])].


End Renderer.

(** ** The site builder: [generatePortfolio] (generate_portfolio.js)

    The file system is a tree of directories and files, a path the list of
    its components from the root; paths are those of POSIX. [JSON.parse]
    and [renderTemplate], which reads the templates through the template
    engine, are given to the builder. The lines written to the console are
    left out. *)

Module SiteBuilder.
Import JS.

Definition LANGUAGES : list string := ["en"; "nl"].

Abbreviation path := (list string).

(** What the file system holds at a path. *)
Inductive entry : Type :=
| Folder
| Document (text : string).

#[export] Instance entry_eq_dec : EqDecision entry.
Proof. solve_decision. Defined.

Abbreviation tree := (gmap path entry).

(** How the builder ends: it returns, it throws, or it ends the process. *)
Inductive ending (A : Type) : Type :=
| Finished (a : A)
| Raised (e : error)
| Stopped (status : Z).
Arguments Finished {A} a.
Arguments Raised {A} e.
Arguments Stopped {A} status.

Definition build (A : Type) : Type := tree -> ending A * tree.

#[export] Instance build_ret : MRet build := fun A a t => (Finished a, t).
#[export] Instance build_bind : MBind build :=
  fun A B k m t =>
    match m t with
    | (Finished a, t') => k a t'
    | (Raised e, t') => (Raised e, t')
    | (Stopped status, t') => (Stopped status, t')
    end.

(** A step that reads or computes and leaves the tree alone: it returns or
    throws as the computation does. *)
Definition lift {A} (c : completion A) : build A :=
  fun t => (match c with Normal a => Finished a | Throw e => Raised e end, t).

(** [process.exit(status)] *)
Definition process_exit {A} (status : Z) : build A := fun t => (Stopped status, t).

(** The directory itself and the directories above it, from the root. *)
Definition prefixes (p : path) : list path := map (fun n => take n p) (seq 0 (S (length p))).

(** [path.dirname(p)] *)
Definition dirname (p : path) : path := removelast p.

(** *** [path.join(dir, s)]

    The components of [s] are added to the directory one by one: an empty
    component and [.] add nothing, [..] goes one directory up and stays at
    the root. A text that ends in a slash gives a path that ends in a slash,
    which names a directory only: the flag tells so. *)
Fixpoint split_slash (s : string) : string * list string :=
  match s with
  | EmptyString => (EmptyString, [])
  | String c rest =>
      let '(first, others) := split_slash rest in
      if Ascii.eqb c "/" then (EmptyString, first :: others) else (String c first, others)
  end.

Definition segments (s : string) : list string :=
  let '(first, others) := split_slash s in first :: others.

Definition step (dir : path) (segment : string) : path :=
  if String.eqb segment "" || String.eqb segment "." then dir
  else if String.eqb segment ".." then removelast dir
  else dir ++ [segment].

Definition ends_in_slash (s : string) : bool :=
  match last (segments s) with
  | Some "" => negb (String.eqb s "")
  | _ => false
  end.

Definition join (dir : path) (s : string) : path * bool :=
  (fold_left step (segments s) dir, ends_in_slash s).

(** [path.join(dir, v)] throws a [TypeError] for an argument that is not a
    string. *)
Definition path_join (dir : path) (v : value) : completion (path * bool) :=
  match v with
  | VStr s => Normal (join dir s)
  | _ => Throw TypeError
  end.

(** *** The file system *)

(** [fs.existsSync(p)]; [slash] tells that the path ends in a slash. *)
Definition existsSync (p : path) (slash : bool) : build bool :=
  fun t => (Finished match t !! p with
                     | Some Folder => true
                     | Some (Document _) => negb slash
                     | None => false
                     end, t).

(** [fs.readFileSync(p, 'utf-8')] *)
Definition readFileSync (p : path) : build string :=
  fun t =>
    match t !! p with
    | Some (Document text) => (Finished text, t)
    | Some Folder => (Raised (Error "EISDIR"), t)
    | None => (Raised (Error "ENOENT"), t)
    end.

(** [fs.rmSync(p, { recursive: true })]: what is at [p] and all below it. *)
Definition below (p q : path) : bool := bool_decide (p `prefix_of` q).

Definition rmSync (p : path) : build unit :=
  fun t =>
    match t !! p with
    | Some _ => (Finished tt, filter (fun kv => below p kv.1 = false) t)
    | None => (Raised (Error "ENOENT"), t)
    end.

(** [fs.mkdirSync(dir, { recursive: true })] makes the directory and those
    above it that are not there; a file in the way makes it throw. *)
Definition is_document (x : option entry) : bool :=
  match x with
  | Some (Document _) => true
  | _ => false
  end.

Definition mkdirSync (dir : path) : build unit :=
  fun t =>
    if existsb (fun p => is_document (t !! p)) (prefixes dir)
    then (Raised (Error (if is_document (t !! dir) then "EEXIST" else "ENOTDIR")), t)
    else (Finished tt, foldr (fun p t => <[p := Folder]> t) t (prefixes dir)).

(** Writing the file [file] needs its directory, and no directory in its
    place. *)
Definition put (file : path) (text : string) : build unit :=
  fun t =>
    match t !! dirname file with
    | Some Folder =>
        match t !! file with
        | Some Folder => (Raised (Error "EISDIR"), t)
        | _ => (Finished tt, <[file := Document text]> t)
        end
    | Some (Document _) => (Raised (Error "ENOTDIR"), t)
    | None => (Raised (Error "ENOENT"), t)
    end.

(** [fs.writeFileSync(file, html)] *)
Definition writeFileSync (file : path) (html : string) : build unit := put file html.

(** [fs.copyFileSync(src, dest)] *)
Definition copyFileSync (src dest : path) : build unit :=
  text ← readFileSync src;
  put dest text.

(** [ensureDir(dir)] *)
Definition ensureDir (dir : path) : build unit :=
  found ← existsSync dir false;
  if found : bool then mret tt else mkdirSync dir.

(** [copyFile(src, dest)] *)
Definition copyFile (src dest : path) : build unit :=
  _ ← ensureDir (dirname dest);
  copyFileSync src dest.

(** [data.personal.photo] *)
Definition photo_of (data : value) : completion value :=
  personal ← get_prop data "personal";
  get_prop personal "photo".

Section Builder.
(** [BASE_DIR = __dirname], the directory of the script. *)
Variable BASE_DIR : path.
(** [JSON.parse] *)
Variable JSON_parse : string -> completion value.
(** [renderTemplate(env, templateName, data, lang)], for the template
    environment of the run. *)
Variable renderTemplate : string -> value -> string -> completion string.

Definition DATA_FILE : path := BASE_DIR ++ ["cv_data.json"].
Definition TEMPLATES_DIR : path := BASE_DIR ++ ["templates"].
Definition OUTPUT_DIR : path := BASE_DIR ++ ["docs"].

(** [lang === 'en' ? path.join(OUTPUT_DIR, 'index.html') : path.join(OUTPUT_DIR, lang, 'index.html')] *)
Definition homePath (lang : string) : path :=
  if String.eqb lang "en" then OUTPUT_DIR ++ ["index.html"]
  else OUTPUT_DIR ++ [lang; "index.html"].

(** [lang === 'en' ? path.join(OUTPUT_DIR, dir, 'index.html') : path.join(OUTPUT_DIR, dir, `${lang}.html`)] *)
Definition sectionPath (dir lang : string) : path :=
  if String.eqb lang "en" then OUTPUT_DIR ++ [dir; "index.html"]
  else OUTPUT_DIR ++ [dir; (lang ++ ".html")%string].

Definition cvPagePath : string -> path := sectionPath "cv".
Definition pubsPath : string -> path := sectionPath "publications".
Definition presPath : string -> path := sectionPath "presentations".

(** The four pages: template and path. *)
Definition pages : list (string * (string -> path)) :=
  [("portfolio_home.html", homePath);
   ("portfolio_cv.html", cvPagePath);
   ("portfolio_publications.html", pubsPath);
   ("portfolio_presentations.html", presPath)].

(** The body of [for (const lang of LANGUAGES)] *)
Definition generate_language (data : value) (lang : string) : build unit :=
  homeHtml ← lift (renderTemplate "portfolio_home.html" data lang);
  _ ← writeFileSync (homePath lang) homeHtml;
  cvHtml ← lift (renderTemplate "portfolio_cv.html" data lang);
  _ ← writeFileSync (cvPagePath lang) cvHtml;
  pubsHtml ← lift (renderTemplate "portfolio_publications.html" data lang);
  _ ← writeFileSync (pubsPath lang) pubsHtml;
  presHtml ← lift (renderTemplate "portfolio_presentations.html" data lang);
  writeFileSync (presPath lang) presHtml.

Fixpoint generate_languages (data : value) (langs : list string) : build unit :=
  match langs with
  | [] => mret tt
  | lang :: rest => _ ← generate_language data lang; generate_languages data rest
  end.

(** "Clean and create output directory" *)
Definition prepare : build unit :=
  _ ← (found ← existsSync OUTPUT_DIR false;
       if found : bool then rmSync OUTPUT_DIR else mret tt);
  _ ← ensureDir OUTPUT_DIR;
  _ ← ensureDir (OUTPUT_DIR ++ ["nl"]);
  _ ← ensureDir (OUTPUT_DIR ++ ["cv"]);
  _ ← ensureDir (OUTPUT_DIR ++ ["publications"]);
  _ ← ensureDir (OUTPUT_DIR ++ ["presentations"]);
  _ ← ensureDir (OUTPUT_DIR ++ ["assets"; "css"]);
  _ ← ensureDir (OUTPUT_DIR ++ ["assets"; "js"]);
  ensureDir (OUTPUT_DIR ++ ["assets"; "images"]).

(** [if (fs.existsSync(src)) copyFile(src, dest)] *)
Definition copy_if_there (src : path * bool) (dest : path) : build unit :=
  found ← existsSync src.1 src.2;
  if found : bool then copyFile src.1 dest else mret tt.

Definition portrait : path := OUTPUT_DIR ++ ["assets"; "images"; "portrait.jpeg"].
Definition cssSource : path := TEMPLATES_DIR ++ ["portfolio.css"].
Definition jsSource : path := TEMPLATES_DIR ++ ["portfolio.js"].

(** "Copy assets" *)
Definition copy_assets (data : value) : build unit :=
  photo ← lift (photo_of data);
  photoPath ← lift (path_join BASE_DIR photo);
  _ ← copy_if_there photoPath portrait;
  _ ← copy_if_there (cssSource, false) (OUTPUT_DIR ++ ["assets"; "css"; "portfolio.css"]);
  copy_if_there (jsSource, false) (OUTPUT_DIR ++ ["assets"; "js"; "portfolio.js"]).

Definition generatePortfolio : build unit :=
  found ← existsSync DATA_FILE false;
  _ ← (if found : bool then mret tt else process_exit 1);
  text ← readFileSync DATA_FILE;
  data ← lift (JSON_parse text);
  _ ← prepare;
  _ ← copy_assets data;
  generate_languages data LANGUAGES.

(** [generatePortfolio().catch(err => { ...; process.exit(1); })] *)
Definition main : build unit :=
  fun t =>
    match generatePortfolio t with
    | (Raised _, t') => (Stopped 1, t')
    | other => other
    end.


End Builder.

(** *** Terms of the properties, and sample data *)

(** The directory of the script is a directory, as are those above it. *)
Definition script_directory (BASE_DIR : path) (t : tree) : Prop :=
  Forall (fun p => t !! p = Some Folder) (prefixes BASE_DIR).

(** A tree in which all that is there lies in a directory that is there. *)
Definition sound_tree (t : tree) : Prop :=
  map_Forall (fun p _ => Forall (fun q => q = p \/ t !! q = Some Folder) (prefixes p)) t.

(** The output directory by the paths below it: the directories made in it
    and the files written to it, the last one first. *)
Fixpoint document_at (docs : list (path * string)) (l : path) : option string :=
  match docs with
  | [] => None
  | (k, text) :: rest => if decide (k = l) then Some text else document_at rest l
  end.

Definition held (made : list path) (docs : list (path * string)) (l : path) : option entry :=
  match document_at docs l with
  | Some text => Some (Document text)
  | None => if existsb (fun m => bool_decide (l `prefix_of` m)) made then Some Folder else None
  end.

(** The eight directories of the "Clean and create" step, the last one
    first, and the assets, below the output directory. *)
Definition made_directories : list path :=
  [["assets"; "images"]; ["assets"; "js"]; ["assets"; "css"]; ["presentations"];
   ["publications"]; ["cv"]; ["nl"]; []].

(** The sources of the assets can be copied: none of them is a directory,
    and the photo does not lie in the output directory. *)
Definition copyable (BASE_DIR : path) (t : tree) (photo : string) : Prop :=
  below (OUTPUT_DIR BASE_DIR) (join BASE_DIR photo).1 = false
  /\ t !! (join BASE_DIR photo).1 <> Some Folder
  /\ t !! cssSource BASE_DIR <> Some Folder
  /\ t !! jsSource BASE_DIR <> Some Folder.

(** What a tree of the run holds, for the tree [t] the run began with:
    below the output directory the directories made and the files written,
    elsewhere what [t] holds. *)
Definition run_tree (BASE_DIR : path) (t : tree) (made : list path)
    (docs : list (path * string)) (t1 : tree) : Prop :=
  (forall l, t1 !! (OUTPUT_DIR BASE_DIR ++ l) = held made docs l)
  /\ (forall q, below (OUTPUT_DIR BASE_DIR) q = false -> t1 !! q = t !! q).

Definition copied (source : option entry) (slash : bool) (dest : path)
  : list (path * string) :=
  match source with
  | Some (Document text) => if slash then [] else [(dest, text)]
  | _ => []
  end.

(** The assets a run copies from the tree [t], the photo from [photoPath]. *)
Definition copied_assets (BASE_DIR : path) (t : tree) (photoPath : path * bool)
  : list (path * string) :=
  copied (t !! jsSource BASE_DIR) false ["assets"; "js"; "portfolio.js"]
  ++ copied (t !! cssSource BASE_DIR) false ["assets"; "css"; "portfolio.css"]
  ++ copied (t !! photoPath.1) photoPath.2 ["assets"; "images"; "portrait.jpeg"].

(** Where a run writes below the output directory: the paths of the pages
    and the directories they are in. *)
Definition page_places : list path :=
  [["index.html"]; ["cv"; "index.html"]; ["publications"; "index.html"];
   ["presentations"; "index.html"]; ["nl"; "index.html"]; ["cv"; "nl.html"];
   ["publications"; "nl.html"]; ["presentations"; "nl.html"];
   []; ["cv"]; ["publications"]; ["presentations"]; ["nl"]].

(** All that a run leaves below the output directory: the directories it
    makes, the pages and the assets. *)
Definition output_places : list path :=
  [[]; ["nl"]; ["cv"]; ["publications"]; ["presentations"]; ["assets"]; ["assets"; "css"];
   ["assets"; "js"]; ["assets"; "images"];
   ["index.html"]; ["cv"; "index.html"]; ["publications"; "index.html"];
   ["presentations"; "index.html"]; ["nl"; "index.html"]; ["cv"; "nl.html"];
   ["publications"; "nl.html"]; ["presentations"; "nl.html"];
   ["assets"; "images"; "portrait.jpeg"]; ["assets"; "css"; "portfolio.css"];
   ["assets"; "js"; "portfolio.js"]].

(** A document without a photo. *)
Definition no_photo (data : value) : Prop := forall photo, photo_of data <> Normal (VStr photo).

(** The pages a run writes, the last one first, when [html] is what the
    templates render to. *)
Definition written_pages (html : string -> string -> string) : list (path * string) :=
  [(["presentations"; "nl.html"], html "portfolio_presentations.html" "nl");
   (["publications"; "nl.html"], html "portfolio_publications.html" "nl");
   (["cv"; "nl.html"], html "portfolio_cv.html" "nl");
   (["nl"; "index.html"], html "portfolio_home.html" "nl");
   (["presentations"; "index.html"], html "portfolio_presentations.html" "en");
   (["publications"; "index.html"], html "portfolio_publications.html" "en");
   (["cv"; "index.html"], html "portfolio_cv.html" "en");
   (["index.html"], html "portfolio_home.html" "en")].

(** A renderer that always returns, to run the builder with. *)
Definition page_mark (template : string) (data : value) (lang : string) : string :=
  (template ++ " " ++ lang)%string.

Definition sample_renderer (template : string) (data : value) (lang : string)
  : completion string :=
  Normal (page_mark template data lang).

(** A site: the script's directory with the data file, the style sheet, a
    photo, and an output directory of an earlier build. *)
Definition site : path := ["home"; "site"].

Definition sample_tree : tree :=
  list_to_map
    [([], Folder); (["home"], Folder); (site, Folder);
     (site ++ ["cv_data.json"], Document "ADA");
     (site ++ ["templates"], Folder);
     (site ++ ["templates"; "portfolio.css"], Document "body {}");
     (site ++ ["fotos"], Folder);
     (site ++ ["fotos"; "ada.jpeg"], Document "JPEG");
     (site ++ ["docs"], Folder);
     (site ++ ["docs"; "old.html"], Document "old")].

(** A document with a photo, and a reader of the data file that knows one
    text, which stands for the text of that document. *)
Definition sample_document : value :=
  VObj [("personal", VObj [("name", VStr "Ada"); ("photo", VStr "fotos/ada.jpeg")])].

Definition sample_parse (text : string) : completion value :=
  if String.eqb text "ADA" then Normal sample_document else Throw (Error "SyntaxError").

(** A reader that finds a document without a photo. *)
Definition nameless_parse (text : string) : completion value :=
  Normal (VObj [("personal", VObj [("name", VStr "Ada")])]).

End SiteBuilder.

(** ** The exporter: [generatePDF] and [generatePDFBuffer] of generate_cv_lib, [generatePDF] of generate_cv.js *)

Module Exporter.

(** What an export asks of the rendering engine, in the order of the code. *)
Inductive operation : Type :=
| Require        (* require('puppeteer') *)
| Launch         (* puppeteer.launch *)
| NewPage        (* browser.newPage *)
| SetViewport    (* page.setViewport *)
| SetContent     (* page.setContent *)
| FontsReady     (* page.evaluateHandle('document.fonts.ready') *)
| Settle         (* the 500 ms delay *)
| Pdf            (* page.pdf *)
| Close.         (* browser.close *)

#[export] Instance operation_eq_dec : EqDecision operation.
Proof. solve_decision. Defined.

(** The engine as the export meets it: whether an operation, asked for the
    n-th time, fails, and with which message. *)
Definition engine := operation -> nat -> option string.

(** How an export ends: it returns, it throws (the promise rejects), or it
    ends the process. *)
Inductive outcome (A : Type) : Type :=
| Returned (a : A)
| Thrown (message : string)
| Exited (status : Z).
Arguments Returned {A} a.
Arguments Thrown {A} message.
Arguments Exited {A} status.

(** What an export leaves behind: the operations it asked for, and the lines
    it printed. *)
Record effects : Type := { asked : list operation; printed : list string }.

Definition run (A : Type) : Type := effects -> outcome A * effects.

#[export] Instance run_ret : MRet run := fun A a fx => (Returned a, fx).
#[export] Instance run_bind : MBind run :=
  fun A B k m fx =>
    match m fx with
    | (Returned a, fx') => k a fx'
    | (Thrown message, fx') => (Thrown message, fx')
    | (Exited status, fx') => (Exited status, fx')
    end.

Definition throw {A} (message : string) : run A := fun fx => (Thrown message, fx).
Definition exit {A} (status : Z) : run A := fun fx => (Exited status, fx).

(** [try { m } catch (e) { handler(e.message) }] *)
Definition try_catch {A} (m : run A) (handler : string -> run A) : run A :=
  fun fx =>
    match m fx with
    | (Thrown message, fx') => handler message fx'
    | other => other
    end.

Definition print (line : string) : run unit :=
  fun fx => (Returned tt, {| asked := asked fx; printed := printed fx ++ [line] |}).

Definition ask (world : engine) (o : operation) : run unit :=
  fun fx =>
    let fx' := {| asked := asked fx ++ [o]; printed := printed fx |} in
    match world o (length (List.filter (fun o' => bool_decide (o' = o)) (asked fx))) with
    | Some message => (Thrown message, fx')
    | None => (Returned tt, fx')
    end.

(** From [puppeteer.launch] to [browser.close]: the same in the three
    functions. [pdf_of] is the document [page.pdf] makes of a markup. *)
Definition print_page (world : engine) (pdf_of : string -> string) (htmlContent : string)
  : run string :=
  _ ← ask world Launch;
  _ ← ask world NewPage;
  _ ← ask world SetViewport;
  _ ← ask world SetContent;
  _ ← ask world FontsReady;
  _ ← ask world Settle;
  _ ← ask world Pdf;
  _ ← ask world Close;
  mret (pdf_of htmlContent).

Definition not_installed : string := "puppeteer not installed. Run: npm install puppeteer".

(** generate_cv_lib *)
Module Lib.
Definition generatePDF (world : engine) (pdf_of : string -> string)
    (htmlContent outputPath baseDir : string) : run string :=
  _ ← try_catch (ask world Require) (fun _ => throw not_installed);
  print_page world pdf_of htmlContent.

Definition generatePDFBuffer (world : engine) (pdf_of : string -> string)
    (htmlContent baseDir : string) : run string :=
  _ ← try_catch (ask world Require) (fun _ => throw not_installed);
  print_page world pdf_of htmlContent.
End Lib.

(** generate_cv.js *)
Module Cli.
Definition generatePDF (world : engine) (pdf_of : string -> string)
    (htmlContent outputPath baseDir : string) : run unit :=
  _ ← try_catch (ask world Require)
        (fun _ => _ ← print ("Error: " ++ not_installed)%string; exit 1);
  _ ← print_page world pdf_of htmlContent;
  print ("  PDF generated: " ++ outputPath)%string.
End Cli.

(** An export that starts with nothing asked and nothing printed. *)
Definition start : effects := {| asked := []; printed := [] |}.

(** An engine that is not there: [require] fails. *)
Definition unavailable (world : engine) : Prop := exists e, world Require 0%nat = Some e.

(** An export that ended without a second attempt: nothing was asked of the
    engine twice; if it returned, all it asked for succeeded; if it threw,
    the message is that of the missing engine or of the operation asked
    last, which failed; if it ended the process, the status is 1. *)
Definition direct {A} (world : engine) (result : outcome A * effects) : Prop :=
  NoDup (asked result.2)
  /\ match result.1 with
     | Returned _ => Forall (fun o => world o 0%nat = None) (asked result.2)
     | Thrown message =>
         (message = not_installed /\ asked result.2 = [Require])
         \/ exists o, last (asked result.2) = Some o /\ world o 0%nat = Some message
     | Exited status => status = 1 /\ asked result.2 = [Require]
     end.

(** *** Terms of the properties, and sample data *)

(** An engine whose module cannot be loaded, and one where all goes well. *)
Definition missing_engine : engine :=
  fun o _ => match o with
             | Require => Some "Cannot find module 'puppeteer'"
             | _ => None
             end.

Definition working_engine : engine := fun _ _ => None.

End Exporter.

(** ** The editor service: saving the document ([POST /api/data] of server.js) *)

Module Editor.
Import JS.

(** What [BASE_DIR] holds under a name: a file with its text, or a
    directory (such as [fotos], where uploaded photos go). *)
Inductive node : Type :=
| File (text : string)
| Directory.

Abbreviation directory := (gmap string node).

(** File operations change the directory and may throw; what was done
    before a throw stays done. *)
Definition io (A : Type) : Type := directory -> completion A * directory.

#[export] Instance io_ret : MRet io := fun A a dir => (Normal a, dir).
#[export] Instance io_bind : MBind io :=
  fun A B k m dir =>
    match m dir with
    | (Normal a, dir') => k a dir'
    | (Throw e, dir') => (Throw e, dir')
    end.

Definition try_catch {A} (m : io A) (handler : error -> io A) : io A :=
  fun dir =>
    match m dir with
    | (Throw e, dir') => handler e dir'
    | done => done
    end.

Definition existsSync (name : string) : io bool :=
  fun dir => (Normal (bool_decide (is_Some (dir !! name))), dir).

Definition copyFileSync (src dest : string) : io unit :=
  fun dir =>
    match dir !! src, dir !! dest with
    | Some (File text), Some Directory => (Throw (Error "EISDIR"), dir)
    | Some (File text), _ => (Normal tt, <[dest := File text]> dir)
    | Some Directory, _ => (Throw (Error "EISDIR"), dir)
    | None, _ => (Throw (Error "ENOENT"), dir)
    end.

(** The names in [BASE_DIR], in the order the system lists them. *)
Definition readdirSync : io (list string) :=
  fun dir => (Normal (map_to_list dir).*1, dir).

Definition unlinkSync (name : string) : io unit :=
  fun dir =>
    match dir !! name with
    | Some (File _) => (Normal tt, delete name dir)
    | Some Directory => (Throw (Error "EISDIR"), dir)
    | None => (Throw (Error "ENOENT"), dir)
    end.

Definition writeFileSync (name text : string) : io unit :=
  fun dir =>
    match dir !! name with
    | Some Directory => (Throw (Error "EISDIR"), dir)
    | _ => (Normal tt, <[name := File text]> dir)
    end.

(** [names.forEach(name => f(name))] *)
Fixpoint forEach (f : string -> io unit) (names : list string) : io unit :=
  match names with
  | [] => mret tt
  | name :: rest => _ ← f name; forEach f rest
  end.

(** [DATA_FILE], as a name in [BASE_DIR]. *)
Definition DATA_FILE : string := "cv_data.json".

(** [s.replace(pattern, replacement)] with a string pattern: the first
    occurrence is replaced. *)
Fixpoint replace (pattern replacement s : string) : string :=
  if String.prefix pattern s
  then (replacement ++ substring (String.length pattern) (String.length s) s)%string
  else match s with
       | EmptyString => EmptyString
       | String c rest => String c (replace pattern replacement rest)
       end.

(** [DATA_FILE.replace('.json', `_backup_${Date.now()}.json`)]; the path
    of [BASE_DIR] is taken not to contain [.json]. *)
Definition backupPath (now : N) : string :=
  replace ".json" ("_backup_" ++ decimal now ++ ".json") DATA_FILE.

(** [/cv_data_backup_\d+\.json$/.test(f)] *)
Fixpoint skip_digits (s : string) : string :=
  match s with
  | EmptyString => EmptyString
  | String c rest => if is_digit c then skip_digits rest else s
  end.

Definition matches_here (s : string) : bool :=
  String.prefix "cv_data_backup_" s
  && (let rest := substring 15 (String.length s) s in
      match rest with
      | EmptyString => false
      | String c _ => is_digit c && String.eqb (skip_digits rest) ".json"
      end).

Fixpoint backupPattern_test (f : string) : bool :=
  matches_here f
  || match f with
     | EmptyString => false
     | String _ rest => backupPattern_test rest
     end.

(** The comparison [sort()] makes without a comparator: of strings, by
    their characters. *)
Definition default_compare (x y : string) : completion number :=
  mret (match String.compare x y with
        | Lt => Num (-1)
        | Eq => Num 0
        | Gt => Num 1
        end).

(** Running a computation that does not touch the directory. *)
Definition pure {A} (c : completion A) : io A := fun dir => (c, dir).

(** "Keep only last 5 backups" *)
Definition prune : io unit :=
  names ← readdirSync;
  sorted ← pure (Array_sort default_compare (List.filter backupPattern_test names));
  let backups := rev sorted in
  forEach unlinkSync (drop 5 backups).

Inductive response : Type :=
| Saved           (* { success: true, message: 'Data saved successfully' } *)
| Failed.         (* status 500, { error: 'Failed to save data' } *)

(** The handler; [now] is [Date.now()], [text] is
    [JSON.stringify(data, null, 2)]. *)
Definition save (now : N) (text : string) : io response :=
  try_catch
    (present ← existsSync DATA_FILE;
     _ ← (if present : bool
          then _ ← copyFileSync DATA_FILE (backupPath now); prune
          else mret tt);
     _ ← writeFileSync DATA_FILE text;
     mret Saved)
    (fun _ => mret Failed).

(** Saves one after the other. *)
Fixpoint save_all (saves : list (N * string)) (dir : directory) : list response * directory :=
  match saves with
  | [] => ([], dir)
  | (now, text) :: rest =>
      let '(r, dir') := save now text dir in
      let '(rs, dir'') := save_all rest dir' in
      (match r with Normal r => r | Throw _ => Failed end :: rs, dir'')
  end.

(** The backups in a directory, newest name first, as the handler lists
    them. *)
Definition backups (dir : directory) : list string :=
  match Array_sort default_compare (List.filter backupPattern_test (map_to_list dir).*1) with
  | Normal sorted => rev sorted
  | Throw _ => []
  end.

(** *** Terms of the properties, and sample data *)

(** A directory with the document, the photos, five backups and two files
    with names of their own. *)
Definition sample_directory : directory :=
  list_to_map
    [("cv_data.json", File "{}"); ("fotos", Directory); ("cv_data_backup.json", File "mine");
     ("notes_backup_7.json", File "notes");
     ("cv_data_backup_1730000000001.json", File "1"); ("cv_data_backup_1730000000002.json", File "2");
     ("cv_data_backup_1730000000003.json", File "3"); ("cv_data_backup_1730000000004.json", File "4");
     ("cv_data_backup_1730000000005.json", File "5"); ("cv_data_backup_1730000000006.json", File "6")].

(** The backups a directory is expected to hold, newest first: the time of
    each and the text it saved. *)
Definition stamp_names (kept : list (N * string)) : list string :=
  map (fun p => backupPath p.1) kept.

Fixpoint find_backup (kept : list (N * string)) (name : string) : option node :=
  match kept with
  | [] => None
  | (t, text) :: rest =>
      if String.eqb (backupPath t) name then Some (File text) else find_backup rest name
  end.

Definition holds_backups (dir : directory) (kept : list (N * string)) : Prop :=
  forall name, backupPattern_test name = true -> dir !! name = find_backup kept name.

Definition descending (kept : list (N * string)) : Prop :=
  StronglySorted (fun a b => (b.1 < a.1)%N) kept.

Definition of_width (w : nat) (kept : list (N * string)) : Prop :=
  Forall (fun p => String.length (decimal p.1) = w) kept.

(** The backups kept and the text of the document after a run of saves. *)
Fixpoint history (current : string) (saves kept : list (N * string))
  : list (N * string) * string :=
  match saves with
  | [] => (kept, current)
  | (now, text) :: rest => history text rest (take 5 ((now, current) :: kept))
  end.

(** A directory with the document and the photo directory, and nine saves a
    second apart. *)
Definition fresh_directory : directory :=
  <[DATA_FILE := File "v0"]> (<["fotos" := Directory]> ∅).

Definition nine_saves : list (N * string) :=
  [(1730000001000, "v1"); (1730000002000, "v2"); (1730000003000, "v3");
   (1730000004000, "v4"); (1730000005000, "v5"); (1730000006000, "v6");
   (1730000007000, "v7"); (1730000008000, "v8"); (1730000009000, "v9")]%N.

End Editor.

(** ** The editor service: reading the document ([GET /api/data] of server.js) *)

Module Service.
Import JS.
Import Editor.

Definition readFileSync (name : string) : io string :=
  fun dir =>
    match dir !! name with
    | Some (File text) => (Normal text, dir)
    | Some Directory => (Throw (Error "EISDIR"), dir)
    | None => (Throw (Error "ENOENT"), dir)
    end.

Inductive answer (A : Type) : Type :=
| Json (data : A)   (* res.json(data) *)
| NotFound          (* status 404, { error: 'Data file not found' } *)
| ReadFailed.       (* status 500, { error: 'Failed to read data file' } *)
Arguments Json {A} data.
Arguments NotFound {A}.
Arguments ReadFailed {A}.

(** The handler; [JSON_parse] is [JSON.parse]. *)
Definition load {A} (JSON_parse : string -> completion A) : io (answer A) :=
  try_catch
    (present ← existsSync DATA_FILE;
     if present : bool
     then text ← readFileSync DATA_FILE;
          data ← pure (JSON_parse text);
          mret (Json data)
     else mret NotFound)
    (fun _ => mret ReadFailed).

(** *** Terms of the properties, and sample data *)

(** A reader of documents that are a single number. *)
Definition parse_number (text : string) : completion N :=
  if all_digits text && negb (String.eqb text "") then Normal (decimal_value text)
  else Throw (Error "SyntaxError").

End Service.

(** ** Names of the PDF files (server.js, generate_cv.js, editor/app.js)

    A string is the sequence of its code units; the characters are those
    below 256 (Latin-1). *)

Module Names.
Import JS.

Fixpoint map_chars (f : ascii -> ascii) (s : string) : string :=
  match s with
  | EmptyString => EmptyString
  | String c rest => String (f c) (map_chars f rest)
  end.

(** [A]-[Z] and the capital letters of Latin-1 ([U+00C0]-[U+00DE] but the
    multiplication sign) have their small letter 32 places on. *)
Definition is_upper (c : ascii) : bool :=
  let n := code c in
  ((65 <=? n)%N && (n <=? 90)%N)
  || ((192 <=? n)%N && (n <=? 222)%N && negb (n =? 215)%N).

Definition lower_char (c : ascii) : ascii :=
  if is_upper c then ascii_of_N (code c + 32) else c.

(** [s.toLowerCase()] *)
Definition toLowerCase : string -> string := map_chars lower_char.

(** [s.replace(/\s+/g, '_')]: every maximal run of white space becomes one
    underscore. [in_run] tells that the character before was white space. *)
Fixpoint replace_runs (in_run : bool) (s : string) : string :=
  match s with
  | EmptyString => EmptyString
  | String c rest =>
      if is_white_space c
      then (if in_run then replace_runs true rest else String "_" (replace_runs true rest))
      else String c (replace_runs false rest)
  end.

(** [s.toLowerCase().replace(/\s+/g, '_')] *)
Definition slug (s : string) : string := replace_runs false (toLowerCase s).

(** [(v || 'cv').toLowerCase().replace(/\s+/g, '_')]: of the values that
    count as true only a string has a [toLowerCase] method. *)
Definition name_or_cv (v : value) : completion string :=
  if truthy v then
    match v with
    | VStr s => mret (slug s)
    | _ => Throw TypeError
    end
  else mret (slug "cv").

(** [data.personal?.name] *)
Definition personal_name (data : value) : completion value :=
  personal ← get_prop data "personal";
  match personal with
  | VUndefined | VNull => mret VUndefined
  | _ => get_prop personal "name"
  end.

(** server.js, [POST /api/generate-pdf]:
    [name = (data.personal?.name || 'cv').toLowerCase().replace(/\s+/g, '_')],
    [filename = `cv_${name}_${lang}.pdf`]; generate_cv.js,
    [generateForLanguage], gives the same name to [path.join]. *)
Definition filename (data lang : value) : completion string :=
  v ← personal_name data;
  name ← name_or_cv v;
  mret ("cv_" ++ name ++ "_" ++ ToString lang ++ ".pdf")%string.

(** editor/app.js, [generatePDF]:
    [a.download = `cv_${data.personal.name.toLowerCase().replace(/\s+/g, '_')}_${lang}.pdf`] *)
Definition download (data lang : value) : completion string :=
  personal ← get_prop data "personal";
  v ← get_prop personal "name";
  match v with
  | VStr s => mret ("cv_" ++ slug s ++ "_" ++ ToString lang ++ ".pdf")%string
  | _ => Throw TypeError
  end.

(** *** Terms of the properties, and sample data *)

Fixpoint all_chars (P : ascii -> bool) (s : string) : bool :=
  match s with
  | EmptyString => true
  | String c rest => P c && all_chars P rest
  end.

(** No white space and no capital letter. *)
Definition plain_char (c : ascii) : bool := negb (is_white_space c) && negb (is_upper c).

Definition no_white_space (c : ascii) : bool := negb (is_white_space c).

Definition ada : value := VObj [("personal", VObj [("name", VStr "Ada  Lovelace")])].

End Names.

(** ** The renderer: what [renderTemplate] hands to the template engine
    (generate_portfolio.js)

    [renderTemplate] is called for the languages of [LANGUAGES]. The
    members it adds to the localized document are given in the order of the
    code; the result is the argument of [env.render]. A document that
    holds a string or an array under the language code is localized to that
    string or array: the assignments are lost on a string, and an array
    takes them as named members, which a value here does not hold; the
    properties are stated for the other documents. *)

Module Context.
Import JS.
Import Localizer.
Import Renderer.

(** [data.translations[lang] || data.translations.en] *)
Definition translations_for (data : value) (lang : string) : completion value :=
  translations ← get_prop data "translations";
  t ← get_prop translations lang;
  if truthy t then mret t else get_prop translations "en".

(** [data.sectionVisibility || {}] *)
Definition visibility_of (data : value) : completion value :=
  visibility ← get_prop data "sectionVisibility";
  mret (if truthy visibility then visibility else VObj []).

Definition basePath (lang : string) : string := if String.eqb lang "en" then "" else "..".
Definition altLang (lang : string) : string := if String.eqb lang "en" then "nl" else "en".
Definition altLangLabel (lang : string) : string :=
  if String.eqb lang "en" then "Nederlands" else "English".

Definition renderContext (data : value) (lang : string) : completion value :=
  let localized := localizeData data lang in
  t ← translations_for data lang;
  let localized := set_member localized "t" t in
  let localized := set_member localized "lang" (VStr lang) in
  visibility ← visibility_of data;
  let localized := set_member localized "visibility" visibility in
  let localized := set_member localized "basePath" (VStr (basePath lang)) in
  let localized := set_member localized "altLang" (VStr (altLang lang)) in
  let localized := set_member localized "altLangLabel" (VStr (altLangLabel lang)) in
  shape localized.

(** *** Terms of the properties, and sample data *)

(** The names [renderTemplate] writes. *)
Definition written : list string :=
  ["t"; "lang"; "visibility"; "basePath"; "altLang"; "altLangLabel";
   "presentationsByYear"; "publications"].

(** The key under which the grouping loop files an entry: its year or
    [Other]; none for an entry that is hidden, and none where the loop
    throws. *)
Definition group_of (pres : value) : option string :=
  match get_prop pres "visible" with
  | Normal visible =>
      if is_false visible then None
      else match get_prop pres "date" with
           | Normal date =>
               match yearMatch date with
               | Normal found => Some (default "Other" found)
               | Throw _ => None
               end
           | Throw _ => None
           end
  | Throw _ => None
  end.

Definition filed_under (year : string) (pres : value) : bool :=
  match group_of pres with
  | Some y => String.eqb y year
  | None => false
  end.

(** An entry the loop files under a year. *)
Definition dated (pres : value) : Prop :=
  exists year, group_of pres = Some year /\ is_year_key year = true.

Definition year_is (n : Z) (x : value) : bool := year_of x =? n.

(** A document with a translation table, a member named [lang] of its own
    and two talks. *)
Definition sample_site : value :=
  VObj [("lang", VStr "fr");
        ("title", VObj [("en", VStr "Engineer"); ("nl", VStr "Ingenieur")]);
        ("translations", VObj [("en", VObj [("cv", VStr "Resume")])]);
        ("presentations", VArr [talk "Seminar" "2024"; talk "Keynote" "September 2025"])].

(** The documents [renderTemplate] cannot read a translation table from:
    every value that is not an object, and an object whose [translations]
    is missing or [null]. *)
Definition no_translations (data : value) : Prop :=
  forall props, data = VObj props ->
    get props "translations" = None
    \/ get props "translations" = Some VNull
    \/ get props "translations" = Some VUndefined.

(** What [renderTemplate] hands to the template of the Dutch pages. *)
Definition sample_context : value :=
  Eval vm_compute in
    match renderContext sample_site "nl" with
    | Normal ctx => ctx
    | Throw _ => VUndefined
    end.

End Context.

(** ** The command line: [parseArgs] of generate_cv.js *)

Module CommandLine.
Import JS.
Import Exporter.

(** An option is [null] until a flag sets it; [args[++i]] past the end of
    the arguments is [undefined]. Both count as false where the options are
    read, and both are [None] here. *)
Record options : Type := {
  data : option string;
  template : option string;
  output : option string;
  html : bool;
  langs : list (option string)
}.

Definition initial : options :=
  {| data := None; template := None; output := None; html := false; langs := [] |}.

Definition newline : string := String (ascii_of_N 10) "".

Definition help : string :=
  String.concat newline
    [""; "CV Generator - Converts JSON data + HTML template to PDF";
     "Supports bilingual output (English/Dutch)";
     "";
     "Usage:";
     "  node generate_cv.js [options]";
     "";
     "Options:";
     "  --data, -d <file>      Path to JSON data file (default: cv_data.json)";
     "  --template, -t <file>  Path to HTML template (default: templates/cv_template.html)";
     "  --output, -o <file>    Output PDF filename (default: cv_<name>_<lang>.pdf)";
     "  --lang, -l <code>      Language code: 'en' or 'nl' (can be used multiple times)";
     "  --html                 Also output the rendered HTML file";
     "  --help, -h             Show this help message";
     "";
     "Examples:";
     "  node generate_cv.js                    # Generate English PDF";
     "  node generate_cv.js --lang nl          # Generate Dutch PDF";
     "  node generate_cv.js -l en -l nl        # Generate both languages";
     "  node generate_cv.js --html --lang nl   # Dutch PDF + HTML preview";
     ""].

Definition is_flag (names : list string) (arg : string) : bool := existsb (String.eqb arg) names.

(** The cases of the [switch] that read [args[++i]], and what each sets. *)
Definition takes_value (arg : string) : bool :=
  is_flag ["--data"; "-d"; "--template"; "-t"; "--output"; "-o"; "--lang"; "-l"] arg.

Definition set_option (arg : string) (value : option string) (o : options) : options :=
  if is_flag ["--data"; "-d"] arg then
    {| data := value; template := template o; output := output o; html := html o; langs := langs o |}
  else if is_flag ["--template"; "-t"] arg then
    {| data := data o; template := value; output := output o; html := html o; langs := langs o |}
  else if is_flag ["--output"; "-o"] arg then
    {| data := data o; template := template o; output := value; html := html o; langs := langs o |}
  else
    {| data := data o; template := template o; output := output o; html := html o;
       langs := langs o ++ [value] |}.

(** The loop over the arguments. A flag that takes a value takes the next
    argument, whatever it is; past the last argument it takes [undefined]. *)
Fixpoint parse (args : list string) (o : options) : run options :=
  match args with
  | [] => mret o
  | arg :: rest =>
      if takes_value arg then
        match rest with
        | [] => mret (set_option arg None o)
        | value :: after => parse after (set_option arg (Some value) o)
        end
      else if is_flag ["--html"] arg then
        parse rest {| data := data o; template := template o; output := output o;
                      html := true; langs := langs o |}
      else if is_flag ["--help"; "-h"] arg then
        _ ← print help; exit 0
      else parse rest o
  end.

(** "Default to English if no language specified" *)
Definition parseArgs (args : list string) : run options :=
  o ← parse args initial;
  mret (match langs o with
        | [] => {| data := data o; template := template o; output := output o;
                   html := html o; langs := [Some "en"] |}
        | _ => o
        end).

(** *** Terms of the properties, and sample data *)

(** [-l a -l b ...] *)
Definition lang_flags (codes : list string) : list string :=
  flat_map (fun code => ["-l"; code]) codes.

End CommandLine.

(** ** The editor in the browser (editor/app.js)

    The functions of the editor that shape the document: the lists of
    authors, the helper strings of the publications, the bilingual fields,
    the order of the entries. The document is changed in place; a function
    is given by the value it leaves. *)

Module Client.
Import JS.
Import Names.

(** [str.split(',')] *)
Fixpoint split_comma (s : string) : string * list string :=
  match s with
  | EmptyString => (EmptyString, [])
  | String c rest =>
      let '(first, others) := split_comma rest in
      if Ascii.eqb c "," then (EmptyString, first :: others) else (String c first, others)
  end.

Definition split (s : string) : list string :=
  let '(first, others) := split_comma s in first :: others.

(** [s.trim()] *)
Fixpoint trim_end (s : string) : string :=
  match s with
  | EmptyString => EmptyString
  | String c rest =>
      match trim_end rest with
      | EmptyString => if is_white_space c then EmptyString else String c EmptyString
      | rest' => String c rest'
      end
  end.

Definition trim (s : string) : string := trim_end (trim_start s).

(** [str.split(',').map(s => s.trim()).filter(s => s)] *)
Definition names_of (str : string) : list string :=
  List.filter (fun s => negb (String.eqb s "")) (map trim (split str)).

(** [items.join(sep)] *)
Definition join (sep : string) (items : list value) : string :=
  String.concat sep
    (map (fun x => match x with
                   | VUndefined | VNull => ""
                   | _ => ToString x
                   end) items).

(** [parseAuthors(item, event)] and [parseEditors(item, event)], with
    [str = event.target.value] *)
Definition parseAuthors (item : value) (str : string) : value :=
  set_member (set_member item "authors" (VArr (map VStr (names_of str)))) "authorsStr" (VStr str).

Definition parseEditors (item : value) (str : string) : value :=
  set_member (set_member item "editors" (VArr (map VStr (names_of str)))) "editorsStr" (VStr str).

(** The body of the inner [forEach] of [prepareAuthorsStrings] *)
Definition prepare_pub (pub : value) : completion value :=
  authors ← get_prop pub "authors";
  let pub := match authors with
             | VArr items => set_member pub "authorsStr" (VStr (join ", " items))
             | _ => pub
             end in
  editors ← get_prop pub "editors";
  mret (match editors with
        | VArr items => set_member pub "editorsStr" (VStr (join ", " items))
        | _ => pub
        end).

(** [delete o.key] *)
Definition delete_prop (o : value) (key : string) : completion value :=
  match o with
  | VUndefined | VNull => Throw TypeError
  | VObj props => Normal (VObj (List.filter (fun kv => negb (String.eqb kv.1 key)) props))
  | _ => Normal o
  end.

(** [delete pub.authorsStr; delete pub.editorsStr] *)
Definition clean_pub (pub : value) : completion value :=
  pub ← delete_prop pub "authorsStr";
  delete_prop pub "editorsStr".

(** [list.forEach(pub => ...)], the callback changing [pub] in place: only
    an array has the method. *)
Fixpoint each (f : value -> completion value) (items : list value) : completion (list value) :=
  match items with
  | [] => mret []
  | x :: rest => x' ← f x; rest' ← each f rest; mret (x' :: rest')
  end.

Definition forEach (f : value -> completion value) (list : value) : completion value :=
  match list with
  | VArr items => items' ← each f items; mret (VArr items')
  | _ => Throw TypeError
  end.

Definition publication_types : list string := ["books"; "book_chapters"; "articles"; "reports"].

(** [if (data.publications[type]) data.publications[type].forEach(f)] *)
Definition on_type (f : value -> completion value) (data : value) (type : string)
  : completion value :=
  publications ← get_prop data "publications";
  list ← get_prop publications type;
  if truthy list then
    list' ← forEach f list;
    mret (set_member data "publications" (set_member publications type list'))
  else mret data.

Fixpoint on_types (f : value -> completion value) (types : list string) (data : value)
  : completion value :=
  match types with
  | [] => mret data
  | type :: rest => data ← on_type f data type; on_types f rest data
  end.

Definition prepareAuthorsStrings (data : value) : completion value :=
  on_types prepare_pub publication_types data.

(** [JSON.parse(JSON.stringify(v))]: members that are [undefined] are left
    out, elements that are [undefined] become [null]; of [undefined] itself
    there is no text to parse, and [JSON.parse] throws a [SyntaxError],
    given here as an error of that name. *)
Fixpoint plain (v : value) : value :=
  match v with
  | VArr items =>
      VArr (map (fun x => match x with
                          | VUndefined => VNull
                          | _ => plain x
                          end) items)
  | VObj props =>
      VObj ((fix members (ps : list (string * value)) : list (string * value) :=
               match ps with
               | [] => []
               | (k, x) :: rest =>
                   match x with
                   | VUndefined => members rest
                   | _ => (k, plain x) :: members rest
                   end
               end) props)
  | _ => v
  end.

Definition JSON_clone (v : value) : completion value :=
  match v with
  | VUndefined => Throw (Error "SyntaxError")
  | _ => Normal (plain v)
  end.

(** "Clean up authors strings before saving": what [saveData],
    [refreshPreview] and [generatePDF] send to the server. *)
Definition cleanData (data : value) : completion value :=
  cleanData ← JSON_clone data;
  on_types clean_pub publication_types cleanData.

(** [ensureBilingual(obj, isArray)]. An array counts as an object and gets
    members [en] and [nl] of its own; these are no part of its elements, nor
    of what [JSON.stringify] writes, and are left out here. *)
Definition empty_text (isArray : bool) : value := if isArray then VArr [] else VStr "".

Definition ensure_member (obj : list (string * value)) (key : string) (isArray : bool)
  : list (string * value) :=
  match get obj key with
  | None | Some VUndefined => set_prop obj key (empty_text isArray)
  | Some _ => obj
  end.

Definition ensureBilingual (obj : value) (isArray : bool) : value :=
  match obj with
  | VObj props => VObj (ensure_member (ensure_member props "en" isArray) "nl" isArray)
  | VArr items => VArr items
  | _ => VObj [("en", empty_text isArray); ("nl", empty_text isArray)]
  end.

(** The [onEnd] handler of the sortable lists:
    [item = list.splice(evt.oldIndex, 1)[0]; list.splice(evt.newIndex, 0, item)] *)
Definition move (oldIndex newIndex : nat) (items : list value) : list value :=
  let item := default VUndefined (items !! oldIndex) in
  let items := delete oldIndex items in
  take newIndex items ++ item :: drop newIndex items.

(** [duplicateItem(array, index)], on the list [data[array]] *)
Definition duplicateItem (items : list value) (index : nat) : completion (list value) :=
  copy ← JSON_clone (default VUndefined (items !! index));
  mret (take (S index) items ++ copy :: drop (S index) items).

(** [removeItem(array, index)], [removePublication(type, index)] and
    [removePresentation(index)]; [confirmed] is the answer to [confirm]. *)
Definition removeItem (confirmed : bool) (items : list value) (index : nat) : list value :=
  if confirmed then delete index items else items.

(** [name.replace(/_/g, ' ').replace(/\b\w/g, c => c.toUpperCase())] *)
Definition is_word (c : ascii) : bool :=
  let n := code c in
  ((48 <=? n)%N && (n <=? 57)%N) || ((65 <=? n)%N && (n <=? 90)%N)
  || ((97 <=? n)%N && (n <=? 122)%N) || (n =? 95)%N.

Definition upper_char (c : ascii) : ascii :=
  let n := code c in
  if (97 <=? n)%N && (n <=? 122)%N then ascii_of_N (n - 32) else c.

Definition space_for_underscore (c : ascii) : ascii := if Ascii.eqb c "_" then " "%char else c.

(** [after_word] tells that the character before is a word character: a
    word character with none before it starts a word. *)
Fixpoint capitalize (after_word : bool) (s : string) : string :=
  match s with
  | EmptyString => EmptyString
  | String c rest =>
      String (if is_word c && negb after_word then upper_char c else c) (capitalize (is_word c) rest)
  end.

Definition formatSectionName (name : string) : string :=
  capitalize false (map_chars space_for_underscore name).

(** *** Terms of the properties, and sample data *)

Definition no_comma (c : ascii) : bool := negb (Ascii.eqb c ",").

(** A name as the list of authors holds it: not empty, without a comma,
    without white space at either end. *)
Definition clean_name (s : string) : Prop :=
  s <> ""%string /\ all_chars no_comma s = true /\ trim s = s.

(** A publication as a parsed document has it: an object with distinct
    member names, the two helper strings not among them, and lists of clean
    names under [authors] and [editors] where it has these. *)
Definition names_under (props : list (string * value)) (key : string) : Prop :=
  forall v, get props key = Some v ->
    (exists names, v = VArr (map VStr names) /\ Forall clean_name names)
    \/ (forall items, v <> VArr items).

Definition stored_pub (props : list (string * value)) : Prop :=
  distinct (keys props) = true
  /\ get props "authorsStr" = None /\ get props "editorsStr" = None.

Definition no_helper_strings (pub : value) : Prop :=
  forall props, pub = VObj props ->
    get props "authorsStr" = None /\ get props "editorsStr" = None.

(** A value as [JSON.parse] gives it: no [undefined] in it. *)
Fixpoint json_value (v : value) : bool :=
  match v with
  | VUndefined => false
  | VArr items => forallb json_value items
  | VObj props => forallb (fun kv => json_value kv.2) props
  | _ => true
  end.

Definition not_underscore (c : ascii) : bool := negb (Ascii.eqb c "_").

Definition sample_pub : list (string * value) :=
  [("title", VStr "Grammar"); ("authors", VArr [VStr "A. Lovelace"; VStr "C. Babbage"]);
   ("year", VNum 2020)].

(** A document with three lists of publications, as the server gives it,
    and as the editor holds it after [prepareAuthorsStrings]. *)
Definition sample_lists : list (string * value) :=
  [("books", VArr [VObj [("title", VStr "Grammar"); ("authors", VArr [VStr "A. Lovelace"])]]);
   ("articles", VArr [VObj [("title", VStr "Notes"); ("editors", VArr [])]]);
   ("reports", VArr [])].

Definition sample_loaded : list (string * value) := [("publications", VObj sample_lists)].

Definition sample_edited : value :=
  Eval vm_compute in
    match prepareAuthorsStrings (VObj sample_loaded) with
    | Normal edited => edited
    | Throw _ => VUndefined
    end.

End Client.

(** ** The theme of the pages ([ThemeManager] of docs/assets/js/portfolio.js) *)

Module Theme.

(** What the theme code reads and writes: the [data-theme] attribute of the
    document element, and the item [portfolio-theme] of the local storage.
    Both are absent ([null]) or a string. *)
Record page : Type := { attribute : option string; stored : option string }.

(** [value || fallback], for what [getAttribute] and [getItem] return *)
Definition present (item : option string) : bool :=
  match item with
  | Some s => negb (String.eqb s "")
  | None => false
  end.

Definition setTheme (theme : string) (p : page) : page :=
  {| attribute := Some theme; stored := Some theme |}.

Definition toggleTheme (p : page) : page :=
  let current := if present (attribute p) then default "" (attribute p) else "light" in
  setTheme (if String.eqb current "light" then "dark" else "light") p.

(** [init], on a page that has the toggle button; [prefers_dark] is what
    [matchMedia('(prefers-color-scheme: dark)').matches] gives. Without the
    button [init] returns at once and listens to nothing. *)
Definition init (prefers_dark : bool) (p : page) : page :=
  if present (stored p) then setTheme (default "" (stored p)) p
  else if prefers_dark then setTheme "dark" p
  else p.

(** What [init] listens to: a click on the button, and a change of the
    preference of the system. *)
Inductive event : Type :=
| Click
| Change (matches : bool).

Definition handle (p : page) (e : event) : page :=
  match e with
  | Click => toggleTheme p
  | Change matches =>
      if present (stored p) then p else setTheme (if matches then "dark" else "light") p
  end.

Definition session (prefers_dark : bool) (events : list event) (p : page) : page :=
  fold_left handle events (init prefers_dark p).

(** *** Terms of the properties, and sample data *)

Definition is_click (e : event) : bool :=
  match e with
  | Click => true
  | Change _ => false
  end.

Definition first_visit : page := {| attribute := None; stored := None |}.

End Theme.

(** * Part II: the properties *)

Import JS.

#[local] Arguments String.eqb : simpl never.

(** ** Objects *)

Lemma value_ind (P : value -> Prop) :
  P VUndefined -> P VNull -> (forall b, P (VBool b)) -> (forall n, P (VNum n)) ->
  (forall s, P (VStr s)) ->
  (forall items, Forall P items -> P (VArr items)) ->
  (forall props, Forall (fun kv => P kv.2) props -> P (VObj props)) ->
  forall v, P v.
Proof.
  intros Hu Hn Hb Hz Hs Ha Ho.
  fix IH 1. intros [ | | b | n | s | items | props ].
  - exact Hu.
  - exact Hn.
  - apply Hb.
  - apply Hz.
  - apply Hs.
  - apply Ha. induction items as [ | x xs IHxs ]; constructor; [ apply IH | exact IHxs ].
  - apply Ho. induction props as [ | [k x] xs IHxs ]; constructor; [ apply IH | exact IHxs ].
Qed.

Lemma get_app {A} (p q : list (string * A)) key :
  get (p ++ q) key = match get p key with Some v => Some v | None => get q key end.
Proof.
  induction p as [ | [k v] p IH ]; simpl; [ reflexivity | ].
  destruct (String.eqb k key); [ reflexivity | exact IH ].
Qed.

Lemma get_None_keys {A} (p : list (string * A)) key :
  get p key = None <-> existsb (String.eqb key) (keys p) = false.
Proof.
  induction p as [ | [k v] p IH ]; simpl; [ tauto | ].
  rewrite (String.eqb_sym key k).
  destruct (String.eqb k key); simpl; [ split; discriminate | exact IH ].
Qed.

Lemma get_set_prop_eq {A} (p : list (string * A)) key v :
  key <> "__proto__" -> get (set_prop p key v) key = Some v.
Proof.
  intros Hk. unfold set_prop. apply String.eqb_neq in Hk. rewrite Hk.
  destruct (get p key) as [x | ] eqn:Hg.
  - induction p as [ | [k y] p IH ]; simpl in *; [ discriminate | ].
    destruct (String.eqb k key) eqn:E; simpl; rewrite E; [ reflexivity | exact (IH Hg) ].
  - rewrite get_app, Hg. simpl. rewrite String.eqb_refl. reflexivity.
Qed.

Lemma get_set_prop_ne {A} (p : list (string * A)) key v key' :
  key <> key' -> get (set_prop p key v) key' = get p key'.
Proof.
  intros Hk. unfold set_prop. destruct (String.eqb key "__proto__"); [ reflexivity | ].
  apply String.eqb_neq in Hk.
  destruct (get p key) as [x | ] eqn:Hg.
  - clear Hg. induction p as [ | [k y] p IH ]; simpl in *; [ reflexivity | ].
    destruct (String.eqb k key) eqn:E; simpl.
    + apply String.eqb_eq in E. subst k. rewrite Hk. reflexivity.
    + destruct (String.eqb k key'); [ reflexivity | exact IH ].
  - rewrite get_app. destruct (get p key'); [ reflexivity | ]. simpl. rewrite Hk. reflexivity.
Qed.


Lemma keys_replace_prop {A} (p : list (string * A)) key v :
  keys (replace_prop p key v) = keys p.
Proof.
  induction p as [ | [k y] p IH ]; simpl; [ reflexivity | ].
  destruct (String.eqb k key); simpl; [ reflexivity | ]. f_equal. exact IH.
Qed.

(** ** Strings *)

Lemma append_cons c (s t : string) : (String c s ++ t)%string = String c (s ++ t).
Proof. reflexivity. Qed.

Lemma append_assoc (s t u : string) : ((s ++ t) ++ u = s ++ (t ++ u))%string.
Proof.
  induction s as [ | c s IH ]; [ reflexivity | ].
  rewrite !append_cons, IH. reflexivity.
Qed.

Lemma append_nil_r (s : string) : (s ++ "")%string = s.
Proof.
  induction s as [ | c s IH ]; [ reflexivity | ].
  rewrite append_cons, IH. reflexivity.
Qed.

Lemma length_append (s t : string) :
  String.length (s ++ t) = (String.length s + String.length t)%nat.
Proof.
  induction s as [ | c s IH ]; [ reflexivity | ].
  rewrite append_cons. simpl. rewrite IH. reflexivity.
Qed.

(** ** Numerals *)

Lemma read_digits_app a s t : read_digits a (s ++ t)%string = read_digits (read_digits a s) t.
Proof.
  revert a. induction s as [ | c s IH ]; intros a; [ reflexivity | ].
  rewrite append_cons. simpl. apply IH.
Qed.

Lemma all_digits_app s t : all_digits (s ++ t)%string = all_digits s && all_digits t.
Proof.
  induction s as [ | c s IH ]; [ reflexivity | ].
  rewrite append_cons. simpl. rewrite IH. apply andb_assoc.
Qed.

Lemma code_digit d : (d < 10)%N -> code (ascii_of_N (48 + d)) = (48 + d)%N.
Proof. intros Hd. unfold code. apply N_ascii_embedding. lia. Qed.

Lemma decimal_from_app fuel n acc :
  decimal_from fuel n acc = (decimal_from fuel n "" ++ acc)%string.
Proof.
  revert n acc. induction fuel as [ | fuel IH ]; intros n acc; simpl; [ reflexivity | ].
  destruct (n <? 10)%N; [ reflexivity | ].
  rewrite IH. rewrite (IH _ (String _ "")). rewrite append_assoc. reflexivity.
Qed.

Lemma decimal_from_spec fuel n :
  (n < 2 ^ N.of_nat fuel)%N ->
  let s := decimal_from fuel n "" in
  all_digits s = true /\ read_digits 0 s = n /\ s <> ""%string.
Proof.
  revert n. induction fuel as [ | fuel IH ]; intros n Hn; cbn zeta.
  - simpl in Hn. assert (n = 0%N) by lia. subst n. repeat split; discriminate.
  - simpl decimal_from.
    assert (Hmod : (n mod 10 < 10)%N) by (apply N.mod_lt; lia).
    assert (Hd : is_digit (ascii_of_N (48 + n mod 10)) = true).
    { unfold is_digit. rewrite code_digit by exact Hmod.
      generalize dependent (n mod 10)%N. intros d Hd.
      apply andb_true_intro. split; apply N.leb_le; lia. }
    destruct (n <? 10)%N eqn:Hlt.
    + apply N.ltb_lt in Hlt. rewrite N.mod_small by exact Hlt. rewrite N.mod_small in Hd by exact Hlt.
      simpl. rewrite Hd, code_digit by exact Hlt. repeat split; [ lia | discriminate ].
    + apply N.ltb_ge in Hlt. rewrite decimal_from_app.
      assert (Hq : (n / 10 < 2 ^ N.of_nat fuel)%N).
      { rewrite Nat2N.inj_succ, N.pow_succ_r' in Hn.
        pose proof (N.Div0.mul_div_le n 10). lia. }
      destruct (IH _ Hq) as (H1 & H2 & H3).
      rewrite all_digits_app, read_digits_app, H1, H2. simpl. rewrite Hd, code_digit by exact Hmod.
      repeat split.
      * pose proof (N.div_mod n 10 ltac:(lia)) as Hdm.
        generalize dependent (n mod 10)%N. generalize dependent (n / 10)%N. intros; lia.
      * destruct (decimal_from fuel (n / 10) ""); [ congruence | discriminate ].
Qed.

Lemma decimal_spec n :
  all_digits (decimal n) = true /\ decimal_value (decimal n) = n /\ decimal n <> ""%string.
Proof.
  apply decimal_from_spec. rewrite N2Nat.id. apply N.size_gt.
Qed.

Lemma decimal_inj n m : decimal n = decimal m -> n = m.
Proof.
  intros H. destruct (decimal_spec n) as (_ & Hn & _), (decimal_spec m) as (_ & Hm & _).
  rewrite <- Hn, <- Hm, H. reflexivity.
Qed.

(** Two runs of digits of one length compare as strings the way the numbers
    they denote compare. *)
Lemma read_digits_compare s1 : forall s2 a1 a2,
  all_digits s1 = true -> all_digits s2 = true ->
  String.length s1 = String.length s2 ->
  (read_digits a1 s1 ?= read_digits a2 s2)%N
  = match (a1 ?= a2)%N with
    | Eq => String.compare s1 s2
    | c => c
    end.
Proof.
  induction s1 as [ | c1 r1 IH ]; intros [ | c2 r2 ] a1 a2 H1 H2 Hlen; try discriminate.
  - simpl. destruct (a1 ?= a2)%N; reflexivity.
  - simpl in H1, H2. apply andb_prop in H1 as [Hc1 H1]. apply andb_prop in H2 as [Hc2 H2].
    simpl. rewrite (IH r2) by (assumption || (simpl in Hlen; lia)).
    unfold is_digit in Hc1, Hc2.
    apply andb_prop in Hc1 as [L1 U1]. apply andb_prop in Hc2 as [L2 U2].
    apply N.leb_le in L1, U1, L2, U2.
    unfold Ascii.compare. fold (code c1) (code c2).
    destruct (N.compare_spec a1 a2) as [E | E | E],
             (N.compare_spec (code c1) (code c2)) as [F | F | F];
      destruct (N.compare_spec (10 * a1 + (code c1 - 48)) (10 * a2 + (code c2 - 48)));
      try reflexivity; lia.
Qed.

Lemma digits_compare s1 s2 :
  all_digits s1 = true -> all_digits s2 = true ->
  String.length s1 = String.length s2 ->
  String.compare s1 s2 = (decimal_value s1 ?= decimal_value s2)%N.
Proof.
  intros H1 H2 Hlen. unfold decimal_value.
  rewrite (read_digits_compare s1 s2 0 0 H1 H2 Hlen). reflexivity.
Qed.

(** ** Localizer *)

Import Localizer.

Lemma rebuild_fresh f entries result :
  (forall k v, In (k, v) entries -> f v = v) ->
  distinct (keys result ++ keys entries) = true ->
  existsb (String.eqb "__proto__") (keys entries) = false ->
  rebuild f entries result = result ++ entries.
Proof.
  revert result.
  induction entries as [ | [k v] rest IH ]; intros result Hf Hd Hp; simpl.
  - symmetry. apply app_nil_r.
  - simpl in Hp. apply orb_false_elim in Hp as [Hk Hp].
    rewrite (Hf k v (or_introl eq_refl)).
    assert (Hfresh : get result k = None).
    { apply get_None_keys. clear -Hd. induction (keys result) as [ | x xs IHx ]; [ reflexivity | ].
      simpl in *. apply andb_prop in Hd as [Hx Hd]. rewrite (IHx Hd), orb_false_r.
      rewrite existsb_app in Hx. simpl in Hx. rewrite String.eqb_sym.
      destruct (String.eqb x k); [ | reflexivity ].
      rewrite orb_true_r in Hx. discriminate. }
    unfold set_prop. rewrite String.eqb_sym, Hk, Hfresh.
    rewrite IH.
    + rewrite <- app_assoc. reflexivity.
    + intros k' v' Hin. apply (Hf k' v'). right. exact Hin.
    + unfold keys in *. rewrite map_app. simpl. rewrite <- app_assoc. exact Hd.
    + exact Hp.
Qed.

Lemma localizeData_obj props lang :
  resolves props lang = None ->
  localizeData (VObj props) lang = VObj (rebuild (fun v => localizeData v lang) props []).
Proof. intros H. simpl. rewrite H. reflexivity. Qed.

Example localize_sample_nl :
  localizeData sample_cv "nl" =
  VObj [("personal", VObj [("name", VStr "Ada"); ("title", VStr "Ingenieur")]);
        ("hobbies", VArr [VStr "schaken"; VStr "roeien"]);
        ("experience", VArr [VObj [("visible", VBool true); ("years", VNum 3); ("role", VStr "Leider")]])].
Proof. reflexivity. Qed.

(** A language object resolves to what it holds under the language key. *)
Lemma localizeData_language_object props lang v :
  get props lang = Some v ->
  (exists s, v = VStr s) \/ (exists items, v = VArr items) ->
  localizeData (VObj props) lang = v.
Proof.
  intros Hget Htext. simpl. unfold resolves. rewrite Hget.
  destruct Htext as [ [s ->] | [items ->] ]; reflexivity.
Qed.

(** C2 (the part that holds). A document that is already localized for
    [lang], that is, in which no object has a member [lang] holding a string
    or an array, is returned member for member: localizing it changes
    nothing. *)
Theorem localizeData_localized_noop (d : value) (lang : string) :
  well_formed d = true -> localized_for lang d = true -> localizeData d lang = d.
Proof.
  induction d as [ | | b | n | s | items IH | props IH ] using value_ind;
    intros Hwf Hloc; try reflexivity.
  - simpl. f_equal. simpl in Hwf, Hloc.
    induction IH as [ | x xs Hx _ IHxs ]; [ reflexivity | ].
    simpl in Hwf, Hloc. apply andb_prop in Hwf as [Hw1 Hw2]. apply andb_prop in Hloc as [Hl1 Hl2].
    simpl. rewrite (Hx Hw1 Hl1), (IHxs Hw2 Hl2). reflexivity.
  - simpl in Hwf, Hloc.
    destruct (resolves props lang) eqn:Hres; [ discriminate | ].
    rewrite (localizeData_obj _ _ Hres). f_equal.
    apply andb_prop in Hwf as [Hwf Hvals]. apply andb_prop in Hwf as [Hdist Hproto].
    apply negb_true_iff in Hproto.
    change props with ([] ++ props) at 2.
    apply rebuild_fresh; [ | exact Hdist | exact Hproto ].
    clear Hres Hdist Hproto.
    induction IH as [ | [k x] xs Hx _ IHxs ]; intros k' v' Hin; [ destruct Hin | ].
    simpl in Hvals, Hloc. apply andb_prop in Hvals as [Hw1 Hw2]. apply andb_prop in Hloc as [Hl1 Hl2].
    destruct Hin as [Heq | Hin].
    + inversion Heq; subst. exact (Hx Hw1 Hl1).
    + exact (IHxs Hw2 Hl2 k' v' Hin).
Qed.

Lemma localizeData_localized_noop_witness :
  localizeData (localizeData sample_cv "nl") "nl" = localizeData sample_cv "nl".
Proof.
  apply (localizeData_localized_noop (localizeData sample_cv "nl") "nl"); reflexivity.
Defined.

(** C2 (the part that fails). Localizing is not idempotent on every
    document: an object whose [en] member is itself an object with an [en]
    string loses one level at each call. *)
Lemma localizeData_twice_differs :
  localizeData (VObj [("en", VObj [("en", VStr "hello")])]) "en" = VObj [("en", VStr "hello")]
  /\ localizeData (localizeData (VObj [("en", VObj [("en", VStr "hello")])]) "en") "en" = VStr "hello"
  /\ localizeData (localizeData (VObj [("en", VObj [("en", VStr "hello")])]) "en") "en"
     <> localizeData (VObj [("en", VObj [("en", VStr "hello")])]) "en".
Proof. split; [ reflexivity | split; [ reflexivity | discriminate ] ]. Qed.

(** ** Localizer over a store: what a call leaves untouched *)

Import Store.

Lemma grows_refl st : grows st st.
Proof. split; [ lia | reflexivity ]. Qed.

Lemma grows_trans st1 st2 st3 : grows st1 st2 -> grows st2 st3 -> grows st1 st3.
Proof.
  intros [H1 H1'] [H2 H2']. split; [ lia | ].
  intros l Hl. rewrite H2' by lia. apply H1'. exact Hl.
Qed.

Lemma grows_grows_but a st st' : grows st st' -> grows_but a st st'.
Proof. intros [H1 H2]. split; [ exact H1 | intros l Hl _; apply H2; exact Hl ]. Qed.

Lemma grows_but_trans a st1 st2 st3 :
  grows_but a st1 st2 -> grows_but a st2 st3 -> grows_but a st1 st3.
Proof.
  intros [H1 H1'] [H2 H2']. split; [ lia | ].
  intros l Hl Hne. rewrite H2' by (lia || exact Hne). apply H1'; assumption.
Qed.

Lemma grows_alloc c st : grows st (alloc c st).2.
Proof.
  split; simpl.
  - rewrite length_app. simpl. lia.
  - intros l Hl. apply lookup_app_l. exact Hl.
Qed.

Lemma push_grows_but a r st : grows_but a st (push a r st).
Proof.
  unfold push, grows_but. destruct (st !! a) as [ [items | props] | ] eqn:Ha; cbn beta iota;
    try (split; [ lia | reflexivity ]).
  split; [ rewrite length_insert; lia | ].
  intros l _ Hne. apply list_lookup_insert_ne. congruence.
Qed.

Lemma assign_grows_but o key r st : grows_but o st (assign o key r st).
Proof.
  unfold assign, grows_but. destruct (st !! o) as [ [items | props] | ] eqn:Ho; cbn beta iota;
    try (split; [ lia | reflexivity ]).
  split; [ rewrite length_insert; lia | ].
  intros l _ Hne. apply list_lookup_insert_ne. congruence.
Qed.

Section LoopsGrow.
Variable rec : ref -> store -> option (ref * store).
Hypothesis rec_grows : forall x st r st', rec x st = Some (r, st') -> grows st st'.

Lemma map_into_grows_but a items st r st' :
  map_into rec a items st = Some (r, st') -> grows_but a st st'.
Proof.
  revert st. induction items as [ | x xs IH ]; intros st H; simpl in H.
  - inversion H; subst. apply grows_grows_but, grows_refl.
  - destruct (rec x st) as [ [r1 st1] | ] eqn:Hx; [ | discriminate ].
    eapply grows_but_trans; [ apply grows_grows_but, (rec_grows _ _ _ _ Hx) | ].
    eapply grows_but_trans; [ apply push_grows_but | ]. apply IH. exact H.
Qed.

Lemma rebuild_into_grows_but o entries st r st' :
  rebuild_into rec o entries st = Some (r, st') -> grows_but o st st'.
Proof.
  revert st. induction entries as [ | [k x] xs IH ]; intros st H; simpl in H.
  - inversion H; subst. apply grows_grows_but, grows_refl.
  - destruct (rec x st) as [ [r1 st1] | ] eqn:Hx; [ | discriminate ].
    eapply grows_but_trans; [ apply grows_grows_but, (rec_grows _ _ _ _ Hx) | ].
    eapply grows_but_trans; [ apply assign_grows_but | ]. apply IH. exact H.
Qed.
End LoopsGrow.

Lemma grows_but_fresh st c st' :
  grows_but (length st) (alloc c st).2 st' -> grows st st'.
Proof.
  intros [H1 H2]. simpl in *. rewrite length_app in *. simpl in *.
  split; [ lia | ].
  intros l Hl. rewrite H2 by lia. apply lookup_app_l. exact Hl.
Qed.

(** A call changes no array and no object that existed before it: it only
    adds new ones. *)
Lemma localizeData_grows fuel data lang st r st' :
  Store.localizeData fuel data lang st = Some (r, st') -> grows st st'.
Proof.
  revert data st r st'. induction fuel as [ | fuel IH ]; intros data st r st' H; [ discriminate | ].
  simpl in H. destruct data as [ | | b | n | s | l ]; try (inversion H; subst; apply grows_refl).
  destruct (st !! l) as [ [items | props] | ] eqn:Hl; [ | | discriminate ].
  - apply (grows_but_fresh st (CArr [])).
    eapply map_into_grows_but; [ | exact H ]. intros x s0 r0 s0'. apply IH.
  - destruct (resolves st props lang) as [v | ].
    + inversion H; subst. apply grows_refl.
    + apply (grows_but_fresh st (CObj [])).
      eapply rebuild_into_grows_but; [ | exact H ]. intros x s0 r0 s0'. apply IH.
Qed.

Lemma grows_prefix st st' : grows st st' <-> st `prefix_of` st'.
Proof.
  split.
  - intros [H1 H2]. exists (drop (length st) st').
    rewrite <- (take_drop (length st) st') at 1. f_equal.
    apply list_eq. intros i. destruct (decide (i < length st)%nat) as [Hi | Hi].
    + rewrite lookup_take_lt by exact Hi. apply H2. exact Hi.
    + rewrite lookup_take_ge by lia. symmetry. apply lookup_ge_None. lia.
  - intros [k ->]. split; [ rewrite length_app; lia | ].
    intros l Hl. apply lookup_app_l. exact Hl.
Qed.

(** C1. For a bilingual node, an object whose [en] and [nl] members are both
    present and hold a string or a list of strings, [localizeData] returns,
    for each of the two languages, exactly what the node holds under that
    language key (for a list, that very array), and the store after the call
    is the store before it: nothing of the input document is written. *)
Theorem localizeData_bilingual_node (st : store) (l : loc)
    (props : list (string * ref)) (ven vnl : ref) (fuel : nat) :
  st !! l = Some (CObj props) ->
  get props "en" = Some ven ->
  get props "nl" = Some vnl ->
  is_text st ven ->
  is_text st vnl ->
  Store.localizeData (S fuel) (RRef l) "en" st = Some (ven, st)
  /\ Store.localizeData (S fuel) (RRef l) "nl" st = Some (vnl, st).
Proof.
  intros Hl Hen Hnl Ten Tnl.
  assert (Hres : forall lang v, get props lang = Some v -> is_text st v ->
                   Store.resolves st props lang = Some v).
  { intros lang v Hget Htext. unfold Store.resolves. rewrite Hget.
    destruct Htext as [ [s ->] | (a & items & -> & Ha & _) ]; [ reflexivity | ].
    rewrite Ha. reflexivity. }
  split; simpl; rewrite Hl.
  - rewrite (Hres "en" ven Hen Ten). reflexivity.
  - rewrite (Hres "nl" vnl Hnl Tnl). reflexivity.
Qed.

(** A call on an object that is not a language object: the new object takes
    the next location, and the array under [en] of the inner language object
    is shared, not copied. *)
Example localizeData_store_sample :
  Store.localizeData 2 (RRef 2%nat) "en" (sample_store ++ [CObj [("hobbies", RRef 1%nat)]])
  = Some (RRef 3%nat,
          sample_store ++ [CObj [("hobbies", RRef 1%nat)]; CObj [("hobbies", RRef 0%nat)]]).
Proof. reflexivity. Qed.

Lemma localizeData_bilingual_node_witness :
  Store.localizeData 1 (RRef 1%nat) "en" sample_store = Some (RRef 0%nat, sample_store)
  /\ Store.localizeData 1 (RRef 1%nat) "nl" sample_store
     = Some (RStr "schaken en roeien", sample_store).
Proof.
  apply (localizeData_bilingual_node sample_store 1%nat
           [("en", RRef 0%nat); ("nl", RStr "schaken en roeien")]
           (RRef 0%nat) (RStr "schaken en roeien") 0%nat).
  - reflexivity.
  - reflexivity.
  - reflexivity.
  - right. exists 0%nat, [RStr "chess"; RStr "rowing"].
    split; [ reflexivity | split; [ reflexivity | ] ].
    repeat constructor; eexists; reflexivity.
  - left. eexists. reflexivity.
Defined.

(** ** Localizer over a store: agreement with the localizer over documents *)

Lemma Forall2_Forall_r {A B} (R R' : A -> B -> Prop) xs ys :
  Forall2 R xs ys -> Forall (fun y => forall x, R x y -> R' x y) ys -> Forall2 R' xs ys.
Proof.
  induction 1 as [ | x y xs ys Hxy _ IH ]; intros HF; [ constructor | ].
  inversion HF; subst. constructor; auto.
Qed.

Lemma represents_agree st st' r d :
  represents st r d ->
  (forall l, (l < length st)%nat -> st' !! l = st !! l) ->
  represents st' r d.
Proof.
  intros Hrep Hag. revert r Hrep.
  induction d as [ | | b | n | s | ds IH | dprops IH ] using value_ind;
    intros r Hrep; inversion Hrep; subst; try constructor.
  - apply rep_arr with items.
    + rewrite Hag; [ assumption | ]. eapply lookup_lt_Some. eassumption.
    + eapply Forall2_Forall_r; [ eassumption | exact IH ].
  - apply rep_obj with props.
    + rewrite Hag; [ assumption | ]. eapply lookup_lt_Some. eassumption.
    + eapply Forall2_Forall_r; [ eassumption | ].
      eapply Forall_impl; [ exact IH | ].
      intros [k d] Hd [k' r'] [Hk Hr]. split; [ exact Hk | apply Hd; exact Hr ].
Qed.

Lemma represents_grows st st' r d : represents st r d -> grows st st' -> represents st' r d.
Proof. intros Hrep [_ Hag]. eapply represents_agree; eassumption. Qed.

Lemma resolves_represents st props dprops lang :
  Forall2 (same_members st) props dprops ->
  match Store.resolves st props lang, Localizer.resolves dprops lang with
  | Some r, Some d => represents st r d
  | None, None => True
  | _, _ => False
  end.
Proof.
  unfold Store.resolves, Localizer.resolves.
  induction 1 as [ | [k r] [k' d] ps qs [Hk Hv] _ IH ]; simpl; [ exact I | ].
  simpl in Hk, Hv. subst k'. destruct (String.eqb k lang); [ | exact IH ].
  inversion Hv; subst; try exact I.
  - constructor.
  - match goal with H : _ !! _ = Some _ |- _ => rewrite H end. exact Hv.
  - match goal with H : _ !! _ = Some _ |- _ => rewrite H end. exact I.
Qed.

Lemma get_same_members st props dprops key :
  Forall2 (same_members st) props dprops ->
  (get props key = None <-> get dprops key = None).
Proof.
  induction 1 as [ | [k r] [k' d] ps qs [Hk Hv] _ IH ]; simpl; [ tauto | ].
  simpl in Hk. subst k'. destruct (String.eqb k key); [ split; discriminate | exact IH ].
Qed.

Lemma set_prop_same_members st props dprops key r d :
  Forall2 (same_members st) props dprops ->
  represents st r d ->
  Forall2 (same_members st) (set_prop props key r) (set_prop dprops key d).
Proof.
  intros HF Hrd. unfold set_prop. destruct (String.eqb key "__proto__"); [ exact HF | ].
  pose proof (get_same_members st props dprops key HF) as Hnone.
  destruct (get props key) as [x | ] eqn:Hp, (get dprops key) as [y | ] eqn:Hq.
  - clear Hnone Hp Hq.
    induction HF as [ | [k a] [k' b] ps qs [Hk Hv] HF IH ]; simpl; [ constructor | ].
    simpl in Hk, Hv. subst k'. destruct (String.eqb k key); constructor.
    + split; [ reflexivity | exact Hrd ].
    + exact HF.
    + split; [ reflexivity | exact Hv ].
    + exact IH.
  - destruct Hnone as [_ Hn]. discriminate (Hn eq_refl).
  - destruct Hnone as [Hn _]. discriminate (Hn eq_refl).
  - apply Forall2_app; [ exact HF | ]. constructor; [ split; [ reflexivity | exact Hrd ] | constructor ].
Qed.

Section Refinement.
Variable lang : string.

Lemma map_into_refines st0 items ds :
  Forall2 (represents st0) items ds ->
  Forall (refines_at lang) ds ->
  exists fuel, forall f, (fuel <= f)%nat ->
  forall a stk rs ds',
    (length st0 <= a < length stk)%nat ->
    (forall l, (l < length st0)%nat -> stk !! l = st0 !! l) ->
    stk !! a = Some (CArr rs) ->
    (forall st'',
        (forall l, (l < length st0 \/ a < l < length stk)%nat -> st'' !! l = stk !! l) ->
        Forall2 (represents st'') rs ds') ->
    exists st' rs',
      map_into (fun x => Store.localizeData f x lang) a items stk = Some (RRef a, st')
      /\ (length stk <= length st')%nat
      /\ st' !! a = Some (CArr rs')
      /\ forall st'',
           (forall l, (l < length st0 \/ a < l < length st')%nat -> st'' !! l = st' !! l) ->
           Forall2 (represents st'') rs'
             (ds' ++ map (fun d => Localizer.localizeData d lang) ds).
Proof.
  intros HF2 HF. revert HF.
  induction HF2 as [ | x d xs ds Hx _ IH ]; intros HF.
  - exists 0%nat. intros f _ a stk rs ds' Hlt Hag Hcell Hrs.
    exists stk, rs. simpl. rewrite app_nil_r. auto.
  - inversion HF as [ | ? ? Hd HFds ]; subst.
    destruct (IH HFds) as [fuel2 IH2]. destruct (Hd st0 x Hx) as [fuel1 H1].
    exists (Nat.max fuel1 fuel2). intros f Hf a stk rs ds' Hlt Hag Hcell Hrs.
    assert (Hg : grows st0 stk) by (split; [ lia | exact Hag ]).
    destruct (H1 f ltac:(lia) stk Hg) as (r1 & st1 & Hcall & Hfp).
    destruct (localizeData_grows _ _ _ _ _ _ Hcall) as [Hlen1 Hag1].
    simpl. rewrite Hcall. unfold push. rewrite (Hag1 a) by lia. rewrite Hcell.
    destruct (IH2 f ltac:(lia) a (<[a := CArr (rs ++ [r1])]> st1) (rs ++ [r1])
                (ds' ++ [Localizer.localizeData d lang]))
      as (st' & rs' & Hmap & Hlen & Hcell' & Hfin).
    + rewrite length_insert. lia.
    + intros l Hl. rewrite list_lookup_insert_ne by lia. rewrite Hag1 by lia. apply Hag. exact Hl.
    + apply list_lookup_insert_eq. lia.
    + intros st'' Hst''. rewrite length_insert in Hst''. apply Forall2_app.
      * apply Hrs. intros l Hl. rewrite Hst'' by lia.
        rewrite list_lookup_insert_ne by lia. apply Hag1. lia.
      * constructor; [ | constructor ]. apply Hfp. intros l Hl. rewrite Hst'' by lia.
        apply list_lookup_insert_ne. lia.
    + rewrite length_insert in Hlen. exists st', rs'.
      split; [ exact Hmap | split; [ lia | split; [ exact Hcell' | ] ] ].
      intros st'' Hst''. simpl. rewrite cons_middle, app_assoc. apply Hfin. exact Hst''.
Qed.

Lemma rebuild_into_refines st0 props dprops :
  Forall2 (same_members st0) props dprops ->
  Forall (fun kv => refines_at lang kv.2) dprops ->
  exists fuel, forall f, (fuel <= f)%nat ->
  forall o stk rprops acc,
    (length st0 <= o < length stk)%nat ->
    (forall l, (l < length st0)%nat -> stk !! l = st0 !! l) ->
    stk !! o = Some (CObj rprops) ->
    (forall st'',
        (forall l, (l < length st0 \/ o < l < length stk)%nat -> st'' !! l = stk !! l) ->
        Forall2 (same_members st'') rprops acc) ->
    exists st' rprops',
      rebuild_into (fun x => Store.localizeData f x lang) o props stk = Some (RRef o, st')
      /\ (length stk <= length st')%nat
      /\ st' !! o = Some (CObj rprops')
      /\ forall st'',
           (forall l, (l < length st0 \/ o < l < length st')%nat -> st'' !! l = st' !! l) ->
           Forall2 (same_members st'') rprops'
             (rebuild (fun v => Localizer.localizeData v lang) dprops acc).
Proof.
  intros HF2 HF. revert HF.
  induction HF2 as [ | [k x] [k' d] ps qs [Hk Hx] _ IH ]; intros HF.
  - exists 0%nat. intros f _ o stk rprops acc Hlt Hag Hcell Hrs.
    exists stk, rprops. simpl. auto.
  - simpl in Hk, Hx. subst k'. inversion HF as [ | ? ? Hd HFds ]; subst. simpl in Hd.
    destruct (IH HFds) as [fuel2 IH2]. destruct (Hd st0 x Hx) as [fuel1 H1].
    exists (Nat.max fuel1 fuel2). intros f Hf o stk rprops acc Hlt Hag Hcell Hrs.
    assert (Hg : grows st0 stk) by (split; [ lia | exact Hag ]).
    destruct (H1 f ltac:(lia) stk Hg) as (r1 & st1 & Hcall & Hfp).
    destruct (localizeData_grows _ _ _ _ _ _ Hcall) as [Hlen1 Hag1].
    simpl. rewrite Hcall. unfold assign. rewrite (Hag1 o) by lia. rewrite Hcell.
    destruct (IH2 f ltac:(lia) o (<[o := CObj (set_prop rprops k r1)]> st1)
                (set_prop rprops k r1)
                (set_prop acc k (Localizer.localizeData d lang)))
      as (st' & rprops' & Hloop & Hlen & Hcell' & Hfin).
    + rewrite length_insert. lia.
    + intros l Hl. rewrite list_lookup_insert_ne by lia. rewrite Hag1 by lia. apply Hag. exact Hl.
    + apply list_lookup_insert_eq. lia.
    + intros st'' Hst''. rewrite length_insert in Hst''. apply set_prop_same_members.
      * apply Hrs. intros l Hl. rewrite Hst'' by lia.
        rewrite list_lookup_insert_ne by lia. apply Hag1. lia.
      * apply Hfp. intros l Hl. rewrite Hst'' by lia.
        apply list_lookup_insert_ne. lia.
    + rewrite length_insert in Hlen. exists st', rprops'.
      split; [ exact Hloop | split; [ lia | split; [ exact Hcell' | exact Hfin ] ] ].
Qed.
End Refinement.

Lemma resolves_grows st0 st props dprops lang :
  Forall2 (same_members st0) props dprops -> grows st0 st ->
  Store.resolves st props lang = Store.resolves st0 props lang.
Proof.
  intros HF [_ Hag]. unfold Store.resolves.
  induction HF as [ | [k r] [k' d] ps qs [Hk Hv] _ IH ]; simpl; [ reflexivity | ].
  destruct (String.eqb k lang); [ | exact IH ].
  simpl in Hv. inversion Hv; subst; try reflexivity;
    rewrite Hag; try reflexivity; eapply lookup_lt_Some; eassumption.
Qed.

Lemma localizeData_refines_at lang d : refines_at lang d.
Proof.
  induction d as [ | | b | n | s | ds IH | dprops IH ] using value_ind;
    try (intros st0 r Hrep; inversion Hrep; subst; exists 1%nat;
         intros [ | f ] Hf st Hg; [ lia | ]; eexists _, st; split; [ reflexivity | ];
         intros st'' _; constructor).
  - intros st0 r Hrep. inversion Hrep as [ | | | | | l items ds0 Hl HF2 | ]; subst.
    destruct (map_into_refines lang st0 items ds HF2 IH) as [fuel H].
    exists (S fuel). intros [ | f ] Hf st [Hlen Hag]; [ lia | ].
    simpl. rewrite (Hag l) by (eapply lookup_lt_Some; eassumption). rewrite Hl.
    destruct (H f ltac:(lia) (length st) (st ++ [CArr []]) [] []) as (st' & rs' & Hmap & Hlen' & Hcell & Hfin).
    + rewrite length_app. simpl. lia.
    + intros l0 Hl0. rewrite lookup_app_l by lia. apply Hag. exact Hl0.
    + apply list_lookup_middle. reflexivity.
    + intros; constructor.
    + rewrite length_app in Hlen'. simpl in Hlen'.
      exists (RRef (length st)), st'. split; [ exact Hmap | ].
      intros st'' Hst''. apply rep_arr with rs'.
      * rewrite Hst'' by lia. exact Hcell.
      * apply Hfin. intros l0 Hl0. apply Hst''. lia.
  - intros st0 r Hrep. inversion Hrep as [ | | | | | | l props dprops0 Hl HF2 ]; subst.
    fold (same_members st0) in HF2.
    destruct (rebuild_into_refines lang st0 props dprops HF2 IH) as [fuel H].
    exists (S fuel). intros [ | f ] Hf st Hg; [ lia | ].
    pose proof Hg as [Hlen Hag].
    simpl. rewrite (Hag l) by (eapply lookup_lt_Some; eassumption). rewrite Hl.
    rewrite (resolves_grows st0 st props dprops lang HF2 Hg).
    pose proof (resolves_represents st0 props dprops lang HF2) as Hres.
    destruct (Store.resolves st0 props lang) as [v | ], (Localizer.resolves dprops lang) as [dv | ];
      try contradiction.
    + exists v, st. split; [ reflexivity | ].
      intros st'' Hst''. eapply represents_agree; [ exact Hres | ].
      intros l0 Hl0. rewrite Hst'' by lia. apply Hag. exact Hl0.
    + destruct (H f ltac:(lia) (length st) (st ++ [CObj []]) [] []) as (st' & rs' & Hloop & Hlen' & Hcell & Hfin).
      * rewrite length_app. simpl. lia.
      * intros l0 Hl0. rewrite lookup_app_l by lia. apply Hag. exact Hl0.
      * apply list_lookup_middle. reflexivity.
      * intros; constructor.
      * rewrite length_app in Hlen'. simpl in Hlen'.
        exists (RRef (length st)), st'. split; [ exact Hloop | ].
        intros st'' Hst''. apply rep_obj with rs'.
        -- rewrite Hst'' by lia. exact Hcell.
        -- apply Hfin. intros l0 Hl0. apply Hst''. lia.
Qed.

(** On a store where [r] reads as the document [d], the call returns (given
    fuel for the depth of [d]); what it returns reads as [localizeData d
    lang]; every array and object of the store before the call is in the
    store after it, as it was; and [r] still reads as [d]. *)
Theorem localizeData_store_refines (lang : string) (st : store) (r : ref) (d : value) :
  represents st r d ->
  exists fuel r' st',
    Store.localizeData fuel r lang st = Some (r', st')
    /\ grows st st'
    /\ represents st' r' (Localizer.localizeData d lang)
    /\ represents st' r d.
Proof.
  intros Hrep.
  destruct (localizeData_refines_at lang d st r Hrep) as [fuel H].
  destruct (H fuel (le_n _) st (grows_refl st)) as (r' & st' & Hcall & Hfp).
  pose proof (localizeData_grows _ _ _ _ _ _ Hcall) as Hg.
  exists fuel, r', st'.
  split; [ exact Hcall | split; [ exact Hg | split ] ].
  - apply Hfp. reflexivity.
  - eapply represents_grows; eassumption.
Qed.

(** ** Renderer: the year groups *)

Import Renderer.

Lemma match_year_is_year_key s y : match_year s = Some y -> is_year_key y = true.
Proof.
  induction s as [ | c s IH ]; [ discriminate | ].
  change (match_year (String c s))
    with (if four_digits (String c s) then Some (substring 0 4 (String c s)) else match_year s).
  destruct (four_digits (String c s)) eqn:H4; [ | exact IH ].
  intros [= <-].
  destruct s as [ | c2 [ | c3 [ | c4 r ] ] ]; try discriminate.
  unfold four_digits in H4. unfold is_year_key. clear IH.
  replace (String c (substring 0 3 (String c2 (String c3 (String c4 r)))))
    with (String c (String c2 (String c3 (String c4 "")))) by (destruct r; reflexivity).
  simpl. rewrite andb_true_r, !andb_assoc. exact H4.
Qed.

(** Every name the grouping creates is four digits or the word [Other]. *)
Lemma group_key_kinds date found :
  yearMatch date = Normal found ->
  default "Other" found = "Other" \/ is_year_key (default "Other" found) = true.
Proof.
  unfold yearMatch. destruct (truthy date).
  - destruct date; try discriminate. intros [= <-].
    destruct (match_year s) as [y | ] eqn:Hy; [ right; exact (match_year_is_year_key _ _ Hy) | left; reflexivity ].
  - intros [= <-]. left. reflexivity.
Qed.

Lemma ToNumber_year_key s :
  is_year_key s = true -> ToNumber s = Num (Z.of_N (decimal_value s)).
Proof.
  unfold is_year_key, ToNumber. intros H. apply andb_prop in H as [Hlen Hd]. rewrite Hd.
  destruct s; [ discriminate | reflexivity ].
Qed.

(** C4 (as amended). The comparator of the year sort subtracts the names as
    numbers. On two names of four digits its sign is that of the descending
    order of the names as strings; against the name [Other] it yields
    [NaN], which orders nothing. *)
Theorem by_year_desc_order (a b : string) :
  is_year_key a = true -> is_year_key b = true ->
  (exists z, by_year_desc a b = Normal (Num z)
             /\ lexicographic_desc a b = Normal (Num (Z.sgn z)))
  /\ by_year_desc "Other" b = Normal NaN
  /\ by_year_desc a "Other" = Normal NaN.
Proof.
  intros Ha Hb. unfold by_year_desc, lexicographic_desc.
  rewrite (ToNumber_year_key a Ha), (ToNumber_year_key b Hb).
  split; [ | split; reflexivity ].
  eexists. split; [ reflexivity | ].
  unfold is_year_key in Ha, Hb.
  apply andb_prop in Ha as [La Da]. apply andb_prop in Hb as [Lb Db].
  apply Nat.eqb_eq in La, Lb.
  rewrite (digits_compare b a Db Da) by congruence.
  cbn [mret completion_ret]. f_equal.
  destruct (N.compare_spec (decimal_value b) (decimal_value a)) as [E | E | E].
  - rewrite E, Z.sub_diag. reflexivity.
  - rewrite (Z.sgn_neg (Z.of_N (decimal_value b) - Z.of_N (decimal_value a))) by lia. reflexivity.
  - rewrite (Z.sgn_pos (Z.of_N (decimal_value b) - Z.of_N (decimal_value a))) by lia. reflexivity.
Qed.

Lemma by_year_desc_order_witness :
  (exists z, by_year_desc "2025" "2024" = Normal (Num z)
             /\ lexicographic_desc "2025" "2024" = Normal (Num (Z.sgn z)))
  /\ by_year_desc "Other" "2024" = Normal NaN
  /\ by_year_desc "2025" "Other" = Normal NaN.
Proof. apply (by_year_desc_order "2025" "2024"); reflexivity. Defined.

(** C4 (as stated) fails. Between [Other] and a year the comparator gives
    [NaN], which the sort reads as "equal", where the descending order of
    strings puts [Other] first; and the two comparators sort the same names
    differently. *)
Lemma by_year_desc_not_lexicographic :
  by_year_desc "Other" "2024" = Normal NaN
  /\ lexicographic_desc "Other" "2024" = Normal (Num (-1))
  /\ order_of NaN <> order_of (Num (-1))
  /\ Array_sort by_year_desc ["2024"; "Other"] = Normal ["2024"; "Other"]
  /\ Array_sort lexicographic_desc ["2024"; "Other"] = Normal ["Other"; "2024"].
Proof.
  split; [ reflexivity | split; [ reflexivity | split; [ discriminate | ] ] ].
  split; reflexivity.
Qed.

Lemma yearMatch_no_year d : match_year d = None -> yearMatch (VStr d) = Normal None.
Proof.
  intros H. unfold yearMatch. destruct (truthy (VStr d)); [ | reflexivity ].
  cbn [mret completion_ret]. rewrite H. reflexivity.
Qed.

Lemma group_loop_talk title date found rest grouped :
  yearMatch (VStr date) = Normal found ->
  group_loop (talk title date :: rest) grouped
  = group_loop rest (add_to_group grouped (default "Other" found) (talk title date)).
Proof.
  intros H. change (group_loop (talk title date :: rest) grouped)
    with (found ← yearMatch (VStr date);
          group_loop rest (add_to_group grouped (default "Other" found) (talk title date))).
  rewrite H. reflexivity.
Qed.

Lemma groupPresentations_array props items :
  get props "presentations" = Some (VArr items) ->
  groupPresentations (VObj props)
  = grouped ← group_loop items [];
    years ← Array_sort by_year_desc (Object_keys grouped);
    mret (VObj (set_prop props "presentationsByYear" (VArr (map (year_group grouped) years)))).
Proof. intros H. unfold groupPresentations, get_prop. rewrite H. reflexivity. Qed.

(** C3. Three presentations dated "September 2025", "2024" and with a date
    that has no run of four digits, listed in any order, are grouped under
    the names 2025, 2024 and Other, and [presentationsByYear] lists the
    groups in that order: the years descending, then Other, which the
    comparator orders against nothing and the sort leaves last. *)
Theorem groupPresentations_three_dates (undated : string) (presentations : list value) :
  match_year undated = None ->
  presentations ≡ₚ [talk "Keynote" "September 2025"; talk "Seminar" "2024"; talk "Workshop" undated] ->
  groupPresentations (VObj [("presentations", VArr presentations)])
  = Normal (VObj [("presentations", VArr presentations);
                  ("presentationsByYear",
                   VArr [VObj [("year", VStr "2025"); ("items", VArr [talk "Keynote" "September 2025"])];
                         VObj [("year", VStr "2024"); ("items", VArr [talk "Seminar" "2024"])];
                         VObj [("year", VStr "Other"); ("items", VArr [talk "Workshop" undated])]])]).
Proof.
  intros Hno Hperm. symmetry in Hperm. apply permutations_Permutation in Hperm.
  pose proof (yearMatch_no_year undated Hno) as H3.
  assert (H1 : yearMatch (VStr "September 2025") = Normal (Some "2025")) by reflexivity.
  assert (H2 : yearMatch (VStr "2024") = Normal (Some "2024")) by reflexivity.
  cbn in Hperm.
  repeat (apply elem_of_cons in Hperm as [-> | Hperm]);
    [ .. | apply elem_of_nil in Hperm; contradiction ];
    erewrite groupPresentations_array by reflexivity;
    repeat first [ rewrite (group_loop_talk _ _ _ _ _ H1)
                 | rewrite (group_loop_talk _ _ _ _ _ H2)
                 | rewrite (group_loop_talk _ _ _ _ _ H3) ];
    reflexivity.
Qed.

Lemma groupPresentations_three_dates_witness :
  groupPresentations
    (VObj [("presentations",
            VArr [talk "Workshop" "to be announced"; talk "Seminar" "2024";
                  talk "Keynote" "September 2025"])])
  = Normal (VObj [("presentations",
                   VArr [talk "Workshop" "to be announced"; talk "Seminar" "2024";
                         talk "Keynote" "September 2025"]);
                  ("presentationsByYear",
                   VArr [VObj [("year", VStr "2025"); ("items", VArr [talk "Keynote" "September 2025"])];
                         VObj [("year", VStr "2024"); ("items", VArr [talk "Seminar" "2024"])];
                         VObj [("year", VStr "Other"); ("items", VArr [talk "Workshop" "to be announced"])]])]).
Proof.
  apply (groupPresentations_three_dates "to be announced").
  - reflexivity.
  - symmetry. apply permutations_Permutation. vm_compute. do 5 right. left.
Defined.

(** ** [Array.prototype.sort] with a consistent comparator *)

Section SortFacts.
Context {A : Type}.
Variable comparefn : A -> A -> completion number.
Variable dom : A -> Prop.
Variable le : A -> A -> Prop.
Hypothesis le_trans : forall x y z, le x y -> le y z -> le x z.
Hypothesis compare_le : forall x y, dom x -> dom y ->
  exists b : bool, not_after comparefn x y = Normal b /\ if b then le x y else le y x.

Lemma insert_sorted_spec x sorted :
  dom x -> Forall dom sorted -> StronglySorted le sorted ->
  exists sorted', insert_sorted comparefn x sorted = Normal sorted'
                  /\ sorted' ≡ₚ x :: sorted /\ StronglySorted le sorted'.
Proof.
  intros Hx Hdom Hs. induction sorted as [ | y rest IH ]; simpl.
  - exists [x]. split; [ reflexivity | split; [ reflexivity | ] ].
    constructor; constructor.
  - inversion Hdom as [ | ? ? Hy Hrest ]; subst. inversion Hs as [ | ? ? Hs' Hall ]; subst.
    destruct (compare_le x y Hx Hy) as [b [Hb Hle]]. rewrite Hb. simpl.
    destruct b.
    + exists (x :: y :: rest). split; [ reflexivity | split; [ reflexivity | ] ].
      constructor; [ exact Hs | ]. constructor; [ exact Hle | ].
      eapply Forall_impl; [ exact Hall | ]. intros z Hz. exact (le_trans _ _ _ Hle Hz).
    + destruct (IH Hrest Hs') as (rest' & Hins & Hperm & Hsorted). rewrite Hins. simpl.
      exists (y :: rest'). split; [ reflexivity | split ].
      * rewrite Hperm. apply Permutation_swap.
      * constructor; [ exact Hsorted | ].
        rewrite Hperm. constructor; [ exact Hle | exact Hall ].
Qed.

Lemma Array_sort_spec items :
  Forall dom items ->
  exists sorted, Array_sort comparefn items = Normal sorted
                 /\ sorted ≡ₚ items /\ StronglySorted le sorted.
Proof.
  induction 1 as [ | x rest Hx Hrest IH ]; simpl.
  - exists []. split; [ reflexivity | split; [ reflexivity | constructor ] ].
  - destruct IH as (sorted & Hsort & Hperm & Hs). rewrite Hsort. simpl.
    assert (Hdom : Forall dom sorted) by (rewrite Hperm; exact Hrest).
    destruct (insert_sorted_spec x sorted Hx Hdom Hs) as (sorted' & Hins & Hperm' & Hs').
    exists sorted'. split; [ exact Hins | split; [ | exact Hs' ] ].
    rewrite Hperm', Hperm. reflexivity.
Qed.
End SortFacts.

(** ** Renderer: publications by year *)

Lemma sortByYear_has_year x y :
  (exists n, has_year x n) -> (exists n, has_year y n) ->
  exists b : bool, not_after sortByYear x y = Normal b
                   /\ if b then by_year_descending x y else by_year_descending y x.
Proof.
  intros [nx [Hx _]] [ny [Hy _]]. unfold not_after, sortByYear, by_year_descending, year_of.
  rewrite Hx, Hy. simpl.
  destruct (Z.compare_spec (ny - nx) 0); eexists; (split; [ reflexivity | simpl; lia ]).
Qed.

Lemma filter_defined items :
  Forall (fun x => exists n, has_year x n) items ->
  List.filter (fun v => negb (is_undefined v)) items = items
  /\ List.filter is_undefined items = [].
Proof.
  induction 1 as [ | x rest [n [Hx _]] _ [IH1 IH2] ]; simpl; [ split; reflexivity | ].
  destruct x; try (rewrite IH1, IH2; split; reflexivity). discriminate Hx.
Qed.

Lemma sort_values_sortByYear items :
  Forall (fun x => exists n, has_year x n) items ->
  exists sorted, sort_values sortByYear items = Normal sorted /\ sorted_copy items sorted.
Proof.
  intros H. unfold sort_values. destruct (filter_defined items H) as [-> ->].
  destruct (Array_sort_spec sortByYear (fun x => exists n, has_year x n) by_year_descending) with items
    as (sorted & Hsort & Hperm & Hs).
  - unfold by_year_descending. intros; lia.
  - apply sortByYear_has_year.
  - exact H.
  - rewrite Hsort. simpl. rewrite app_nil_r. exists sorted. repeat split; assumption.
Qed.

(** What one of the three statements does to the publications object. *)
Lemma sort_category_spec category pubs :
  category <> "__proto__" ->
  (get pubs category = None
   \/ exists items, get pubs category = Some (VArr items)
                    /\ Forall (fun x => exists n, has_year x n) items) ->
  exists pubs',
    sort_category category (VObj pubs) = Normal (VObj pubs')
    /\ keys pubs' = keys pubs
    /\ (forall k, k <> category -> get pubs' k = get pubs k)
    /\ (get pubs category = None -> get pubs' category = None)
    /\ (forall items, get pubs category = Some (VArr items) ->
        exists sorted, get pubs' category = Some (VArr sorted) /\ sorted_copy items sorted).
Proof.
  intros Hproto [Hnone | (items & Hget & Hyears)]; unfold sort_category, get_prop.
  - rewrite Hnone. simpl. exists pubs. repeat split; auto. intros items H. congruence.
  - rewrite Hget. simpl.
    destruct (sort_values_sortByYear items Hyears) as (sorted & Hsort & Hcopy).
    rewrite Hsort. simpl. exists (set_prop pubs category (VArr sorted)).
    split; [ reflexivity | split; [ | split; [ | split ] ] ].
    + unfold set_prop. apply String.eqb_neq in Hproto. rewrite Hproto, Hget.
      apply keys_replace_prop.
    + intros k Hk. apply get_set_prop_ne. congruence.
    + congruence.
    + intros items' Hget'. inversion Hget'; subst items'.
      exists sorted. split; [ apply get_set_prop_eq; exact Hproto | exact Hcopy ].
Qed.

(** C5 (as amended). When the three category lists of [localized.publications] hold
    entries whose year reads as a number (a missing year reads as 0), the
    renderer puts in the place of each list a copy of it sorted by year,
    descending; the other members of the publications object, and the names
    of all its members, stay as they were. Entries of 2020, of 2023 and
    without a year come out as 2023, 2020, no year. *)
Theorem sortPublications_by_year (props pubs : list (string * value)) :
  get props "publications" = Some (VObj pubs) ->
  (forall category, category ∈ categories -> sortable pubs category) ->
  (exists pubs',
      sortPublications (VObj props)
      = Normal (VObj (replace_prop props "publications" (VObj pubs')))
      /\ keys pubs' = keys pubs
      /\ (forall k, k ∉ categories -> get pubs' k = get pubs k)
      /\ (forall category items,
             category ∈ categories -> get pubs category = Some (VArr items) ->
             exists sorted, get pubs' category = Some (VArr sorted) /\ sorted_copy items sorted))
  /\ sort_values sortByYear [book_2020; book_2023; book_undated]
     = Normal [book_2023; book_2020; book_undated].
Proof.
  intros Hpubs Hcat. split; [ | reflexivity ].
  assert (H1 : sortable pubs "books") by (apply Hcat; unfold categories; set_solver).
  assert (H2 : sortable pubs "book_chapters") by (apply Hcat; unfold categories; set_solver).
  assert (H3 : sortable pubs "articles") by (apply Hcat; unfold categories; set_solver).
  destruct (sort_category_spec "books" pubs ltac:(discriminate) H1)
    as (pubs1 & E1 & K1 & O1 & N1 & S1).
  assert (H2' : sortable pubs1 "book_chapters")
    by (unfold sortable; rewrite (O1 "book_chapters") by discriminate; exact H2).
  destruct (sort_category_spec "book_chapters" pubs1 ltac:(discriminate) H2')
    as (pubs2 & E2 & K2 & O2 & N2 & S2).
  assert (H3' : sortable pubs2 "articles").
  { unfold sortable. rewrite (O2 "articles"), (O1 "articles") by discriminate. exact H3. }
  destruct (sort_category_spec "articles" pubs2 ltac:(discriminate) H3')
    as (pubs3 & E3 & K3 & O3 & N3 & S3).
  exists pubs3. split; [ | split; [ | split ] ].
  - unfold sortPublications, get_prop. rewrite Hpubs. simpl.
    rewrite E1. simpl. rewrite E2. simpl. rewrite E3. simpl.
    unfold set_prop. rewrite Hpubs. reflexivity.
  - congruence.
  - intros k Hk. unfold categories in Hk.
    rewrite O3, O2, O1 by set_solver. reflexivity.
  - intros category items Hin Hget. unfold categories in Hin.
    apply elem_of_cons in Hin as [-> | Hin]; [ | apply elem_of_cons in Hin as [-> | Hin] ];
      [ | | apply list_elem_of_singleton in Hin as -> ].
    + destruct (S1 items Hget) as (sorted & Hs & Hc). exists sorted.
      rewrite O3, O2 by discriminate. split; assumption.
    + rewrite <- (O1 "book_chapters") in Hget by discriminate.
      destruct (S2 items Hget) as (sorted & Hs & Hc). exists sorted.
      rewrite O3 by discriminate. split; assumption.
    + rewrite <- (O1 "articles"), <- (O2 "articles") in Hget by discriminate.
      exact (S3 items Hget).
Qed.

Lemma sortPublications_by_year_witness :
  (exists pubs',
      sortPublications (VObj [("name", VStr "Ada"); ("publications", VObj sample_publications)])
      = Normal (VObj (replace_prop [("name", VStr "Ada"); ("publications", VObj sample_publications)]
                        "publications" (VObj pubs')))
      /\ keys pubs' = keys sample_publications
      /\ (forall k, k ∉ categories -> get pubs' k = get sample_publications k)
      /\ (forall category items,
             category ∈ categories -> get sample_publications category = Some (VArr items) ->
             exists sorted, get pubs' category = Some (VArr sorted) /\ sorted_copy items sorted))
  /\ sort_values sortByYear [book_2020; book_2023; book_undated]
     = Normal [book_2023; book_2020; book_undated].
Proof.
  apply (sortPublications_by_year
           [("name", VStr "Ada"); ("publications", VObj sample_publications)] sample_publications).
  - reflexivity.
  - intros category Hin. unfold categories in Hin.
    apply elem_of_cons in Hin as [-> | Hin]; [ | apply elem_of_cons in Hin as [-> | Hin] ];
      [ | | apply list_elem_of_singleton in Hin as -> ].
    + right. exists [book_2020; book_2023; book_undated]. split; [ reflexivity | ].
      do 3 (constructor; [ eexists; split; [ reflexivity | vm_compute; discriminate ] | ]).
      constructor.
    + left. reflexivity.
    + right. exists []. split; [ reflexivity | constructor ].
Defined.

Example sortPublications_sample :
  sortPublications (VObj [("name", VStr "Ada"); ("publications", VObj sample_publications)])
  = Normal (VObj [("name", VStr "Ada");
                  ("publications",
                   VObj [("books", VArr [book_2023; book_2020; book_undated]);
                         ("articles", VArr [])])]).
Proof. reflexivity. Qed.

(** C5 (as stated) fails. A year that [parseInt] does not read as a number
    makes the comparator [NaN] against every other entry, which the sort
    takes for equal: a list of 2020, [in press] and 2023 is left in this
    order, 2020 before 2023, and so is not sorted by year. *)
Lemma sortPublications_unread_year :
  year_number book_in_press = Normal NaN
  /\ sortByYear book_in_press book_2020 = Normal NaN
  /\ sortByYear book_2023 book_in_press = Normal NaN
  /\ sortPublications unread_years = Normal unread_years
  /\ has_year book_2020 2020 /\ has_year book_2023 2023
  /\ ~ sorted_copy [book_2020; book_in_press; book_2023] [book_2020; book_in_press; book_2023].
Proof.
  split; [ vm_compute; reflexivity | ]. split; [ vm_compute; reflexivity | ].
  split; [ vm_compute; reflexivity | ]. split; [ vm_compute; reflexivity | ].
  split; [ split; [ vm_compute; reflexivity | vm_compute; discriminate ] | ].
  split; [ split; [ vm_compute; reflexivity | vm_compute; discriminate ] | ].
  intros [_ Hsorted]. inversion Hsorted as [ | x l _ Hall ]; subst.
  apply Forall_cons in Hall as [_ Hall]. apply Forall_cons in Hall as [Hlast _].
  vm_compute in Hlast. apply Hlast. reflexivity.
Qed.

(** ** Renderer: hidden presentations *)

Lemma insert_index_perm k sorted : insert_index k sorted ≡ₚ k :: sorted.
Proof.
  induction sorted as [ | y rest IH ]; simpl; [ reflexivity | ].
  destruct (decimal_value k <=? decimal_value y)%N; [ reflexivity | ].
  rewrite IH. apply Permutation_swap.
Qed.

Lemma Object_keys_perm {A} (created : list (string * A)) : Object_keys created ≡ₚ keys created.
Proof.
  unfold Object_keys. induction (keys created) as [ | k ks IH ]; simpl; [ reflexivity | ].
  destruct (is_array_index k); simpl.
  - rewrite insert_index_perm. simpl. rewrite IH. reflexivity.
  - rewrite <- Permutation_middle. rewrite IH. reflexivity.
Qed.


(** The sort of the years returns, whatever the names are: the comparator
    does not throw. *)
Lemma sort_years_perm years :
  exists sorted, Array_sort by_year_desc years = Normal sorted /\ sorted ≡ₚ years.
Proof.
  destruct (Array_sort_spec by_year_desc (fun _ => True) (fun _ _ => True)) with years
    as (sorted & Hsort & Hperm & _).
  - auto.
  - intros x y _ _. unfold not_after, by_year_desc. simpl.
    eexists. split; [ reflexivity | ]. destruct (match order_of _ with Gt => false | _ => true end); exact I.
  - apply Forall_forall. auto.
  - exists sorted. split; assumption.
Qed.


Lemma group_loop_cons pres rest grouped :
  group_loop (pres :: rest) grouped
  = visible ← get_prop pres "visible";
    if is_false visible then group_loop rest grouped
    else date ← get_prop pres "date";
         found ← yearMatch date;
         group_loop rest (add_to_group grouped (default "Other" found) pres).
Proof. reflexivity. Qed.

Lemma group_key_not_proto date found :
  yearMatch date = Normal found -> default "Other" found <> "__proto__".
Proof.
  intros H. destruct (group_key_kinds date found H) as [-> | Hk]; [ discriminate | ].
  intros E. rewrite E in Hk. discriminate Hk.
Qed.

Section GroupLoop.
Variable P : value -> Prop.


End GroupLoop.

Lemma add_to_group_get grouped year pres :
  year <> "__proto__" ->
  get (add_to_group grouped year pres) year = Some (default [] (get grouped year) ++ [pres])
  /\ forall y, y <> year -> get (add_to_group grouped year pres) y = get grouped y.
Proof.
  intros Hyear. unfold add_to_group. split.
  - rewrite get_set_prop_eq by exact Hyear.
    destruct (get grouped year) as [old | ] eqn:Hold; [ rewrite Hold; reflexivity | ].
    rewrite get_set_prop_eq by exact Hyear. reflexivity.
  - intros y Hy. rewrite get_set_prop_ne by congruence.
    destruct (get grouped year); [ reflexivity | ]. apply get_set_prop_ne. congruence.
Qed.






(** ** Site builder *)

Import SiteBuilder.

(** A step that returns hands its result and its tree to what follows. *)
Lemma bind_finished {A B} (m : build A) (k : A -> build B) (t t' : tree) (a : A) :
  m t = (Finished a, t') -> (m ≫= k) t = k a t'.
Proof. intros H. unfold mbind, build_bind. rewrite H. reflexivity. Qed.

Lemma lift_normal {A B} (a : A) (k : A -> build B) (t : tree) :
  (lift (Normal a) ≫= k) t = k a t.
Proof. reflexivity. Qed.

Lemma prefixes_spec (p d : path) : p ∈ prefixes d <-> p `prefix_of` d.
Proof.
  unfold prefixes. rewrite list_elem_of_fmap. split.
  - intros (n & -> & _). apply prefix_take.
  - intros [k ->]. exists (length p). split.
    + rewrite take_app_length. reflexivity.
    + apply elem_of_seq. rewrite length_app. lia.
Qed.

(** What [mkdirSync] leaves: the directory and those above it. *)
Lemma lookup_mkdir (d : path) (t : tree) (p : path) :
  foldr (fun p t => <[p := Folder]> t) t (prefixes d) !! p
  = if bool_decide (p `prefix_of` d) then Some Folder else t !! p.
Proof.
  rewrite <- (bool_decide_ext _ _ (prefixes_spec p d)).
  induction (prefixes d) as [ | q qs IH ]; cbn [foldr].
  - rewrite bool_decide_eq_false_2 by apply not_elem_of_nil. reflexivity.
  - destruct (decide (q = p)) as [-> | Hne].
    + rewrite lookup_insert_eq, bool_decide_eq_true_2 by (apply elem_of_cons; left; reflexivity).
      reflexivity.
    + rewrite lookup_insert_ne by exact Hne. rewrite IH.
      apply (f_equal (fun b : bool => if b then Some Folder else t !! p)).
      apply bool_decide_ext. rewrite elem_of_cons. split; [ tauto | intros [-> | H]; [ contradiction | exact H ] ].
Qed.

(** In a sound tree the data file lies in directories. *)
Lemma script_directory_data_file (BASE_DIR : path) (t : tree) (x : entry) :
  sound_tree t -> t !! DATA_FILE BASE_DIR = Some x -> script_directory BASE_DIR t.
Proof.
  intros Hwf Hdata. pose proof (Hwf _ _ Hdata) as Hall. cbn beta in Hall.
  unfold script_directory. rewrite Forall_forall in Hall |- *.
  intros q Hq. apply prefixes_spec in Hq.
  destruct (Hall q) as [-> | Hfolder]; [ | | exact Hfolder ].
  - apply prefixes_spec. unfold DATA_FILE. apply prefix_app_r, Hq.
  - apply prefix_length in Hq. unfold DATA_FILE in Hq. rewrite length_app in Hq. cbn in Hq. lia.
Qed.

Section Run.
Variable BASE_DIR : path.
Variable JSON_parse : string -> completion value.
Variable renderTemplate : string -> value -> string -> completion string.
Variable t : tree.
Hypothesis Hscript : script_directory BASE_DIR t.

Local Abbreviation O := (OUTPUT_DIR BASE_DIR).

Lemma below_app (l : path) : below O (O ++ l) = true.
Proof. apply bool_decide_eq_true_2. exists l. reflexivity. Qed.

Lemma above_not_below (q : path) : q `prefix_of` BASE_DIR -> below O q = false.
Proof.
  intros Hq. apply bool_decide_eq_false_2. intros Ho.
  apply prefix_length in Hq, Ho. unfold OUTPUT_DIR in Ho. rewrite length_app in Ho. cbn in Ho. lia.
Qed.

Lemma above_folder (q : path) : q `prefix_of` BASE_DIR -> t !! q = Some Folder.
Proof.
  intros Hq. unfold script_directory in Hscript. rewrite Forall_forall in Hscript.
  apply Hscript, prefixes_spec, Hq.
Qed.

(** A path above a path of the output directory is above the script's
    directory or in the output directory itself. *)
Lemma prefix_of_output (q l : path) :
  q `prefix_of` O ++ l -> q `prefix_of` BASE_DIR \/ exists l', q = O ++ l' /\ l' `prefix_of` l.
Proof.
  intros Hq.
  destruct (prefix_weak_total q O (O ++ l) Hq (prefix_app_r O O l (reflexivity O))) as [Hqo | [l' ->]].
  - unfold OUTPUT_DIR in Hqo.
    destruct (prefix_weak_total q BASE_DIR _ Hqo (prefix_app_r _ _ ["docs"] (reflexivity BASE_DIR)))
      as [Hqb | [k ->]]; [ left; exact Hqb | ].
    apply prefix_app_inv in Hqo. destruct k as [ | x k ].
    + left. rewrite app_nil_r. reflexivity.
    + right. exists []. split; [ | apply prefix_nil ].
      pose proof (prefix_cons_inv_1 _ _ _ _ Hqo) as ->.
      apply prefix_cons_inv_2, prefix_nil_inv in Hqo. subst k. rewrite app_nil_r. reflexivity.
  - right. exists l'. split; [ reflexivity | ]. exact (prefix_app_inv _ _ _ Hq).
Qed.

Lemma held_not_document made docs l :
  is_document (held made docs l) = false -> document_at docs l = None.
Proof. unfold held. destruct (document_at docs l); [ discriminate | reflexivity ]. Qed.

Lemma existsb_prefix (made : list path) (l l' : path) :
  l' `prefix_of` l ->
  existsb (fun m => bool_decide (l `prefix_of` m)) made = true ->
  existsb (fun m => bool_decide (l' `prefix_of` m)) made = true.
Proof.
  intros Hl. rewrite !existsb_exists. intros (m & Hm & Hp). exists m. split; [ exact Hm | ].
  apply bool_decide_eq_true_1 in Hp. apply bool_decide_eq_true_2. etransitivity; eassumption.
Qed.

(** [ensureDir] on a path of the output directory with no file in the way. *)
Lemma ensureDir_run made docs t1 l :
  run_tree BASE_DIR t made docs t1 ->
  forallb (fun l' => negb (is_document (held made docs l'))) (prefixes l) = true ->
  exists t2, ensureDir (O ++ l) t1 = (Finished tt, t2) /\ run_tree BASE_DIR t (l :: made) docs t2.
Proof.
  intros [Hin Hout] Hfree. rewrite forallb_forall in Hfree.
  assert (Hdoc : forall l', l' `prefix_of` l -> document_at docs l' = None).
  { intros l' Hl'. apply (held_not_document made), negb_true_iff, Hfree.
    apply list_elem_of_In, prefixes_spec, Hl'. }
  unfold ensureDir, existsSync, mbind, build_bind. rewrite Hin.
  destruct (held made docs l) as [ [ | text ] | ] eqn:Hl.
  - exists t1. split; [ reflexivity | ]. split; [ | exact Hout ].
    intros l'. rewrite Hin. unfold held. destruct (document_at docs l'); [ reflexivity | ].
    cbn [existsb]. destruct (bool_decide (l' `prefix_of` l)) eqn:Hp; [ | reflexivity ].
    apply bool_decide_eq_true_1 in Hp. cbn [orb].
    unfold held in Hl. rewrite (Hdoc l (reflexivity l)) in Hl.
    destruct (existsb (fun m => bool_decide (l `prefix_of` m)) made) eqn:Hm; [ | discriminate Hl ].
    rewrite (existsb_prefix made l l' Hp Hm). reflexivity.
  - unfold held in Hl. rewrite (Hdoc l (reflexivity l)) in Hl.
    destruct (existsb _ made); discriminate Hl.
  - unfold mkdirSync.
    assert (Hnone : existsb (fun p => is_document (t1 !! p)) (prefixes (O ++ l)) = false).
    { apply not_true_is_false. rewrite existsb_exists. intros (p & Hp & Hd).
      apply list_elem_of_In, prefixes_spec, prefix_of_output in Hp as [Hp | (l' & -> & Hl')].
      - rewrite (Hout p (above_not_below p Hp)), (above_folder p Hp) in Hd. discriminate Hd.
      - rewrite Hin in Hd. unfold held in Hd. rewrite (Hdoc l' Hl') in Hd.
        destruct (existsb _ made); discriminate Hd. }
    rewrite Hnone. eexists. split; [ reflexivity | ]. split.
    + intros l'. rewrite lookup_mkdir, Hin. unfold held. cbn [existsb].
      destruct (decide (l' `prefix_of` l)) as [Hp | Hp].
      * rewrite bool_decide_eq_true_2 by (apply prefix_app; exact Hp).
        rewrite (Hdoc l' Hp), bool_decide_eq_true_2 by exact Hp. reflexivity.
      * rewrite bool_decide_eq_false_2 by (intros H; apply Hp, (prefix_app_inv _ _ _ H)).
        rewrite (bool_decide_eq_false_2 _ Hp). reflexivity.
    + intros q Hq. rewrite lookup_mkdir.
      destruct (decide (q `prefix_of` O ++ l)) as [Hp | Hp].
      * rewrite bool_decide_eq_true_2 by exact Hp.
        apply prefix_of_output in Hp as [Hp | (l' & -> & _)].
        -- symmetry. exact (above_folder q Hp).
        -- rewrite below_app in Hq. discriminate Hq.
      * rewrite bool_decide_eq_false_2 by exact Hp. exact (Hout q Hq).
Qed.

(** Writing a file into a directory of the output directory. *)
Lemma put_run made docs t1 l text :
  run_tree BASE_DIR t made docs t1 ->
  l <> [] ->
  held made docs (removelast l) = Some Folder ->
  held made docs l <> Some Folder ->
  exists t2, put (O ++ l) text t1 = (Finished tt, t2)
             /\ run_tree BASE_DIR t made ((l, text) :: docs) t2.
Proof.
  intros [Hin Hout] Hl Hdir Hfile. unfold put, dirname.
  rewrite (removelast_app O Hl), !Hin, Hdir.
  exists (<[O ++ l := Document text]> t1). split.
  - destruct (held made docs l) as [ [ | text' ] | ]; [ contradiction | reflexivity | reflexivity ].
  - split.
    + intros l'. unfold held. cbn [document_at]. destruct (decide (l = l')) as [-> | Hne].
      * rewrite lookup_insert_eq. reflexivity.
      * rewrite lookup_insert_ne by (intros H; apply app_inv_head in H; contradiction).
        apply Hin.
    + intros q Hq. rewrite lookup_insert_ne; [ exact (Hout q Hq) | ].
      intros <-. rewrite below_app in Hq. discriminate Hq.
Qed.

(** Copying a source from outside the output directory, when it is there. *)
Lemma copy_if_there_run made docs t1 src slash l :
  run_tree BASE_DIR t made docs t1 ->
  below O src = false ->
  t !! src <> Some Folder ->
  l <> [] ->
  held made docs (removelast l) = Some Folder ->
  held made docs l <> Some Folder ->
  exists t2, copy_if_there (src, slash) (O ++ l) t1 = (Finished tt, t2)
             /\ run_tree BASE_DIR t made (copied (t !! src) slash l ++ docs) t2.
Proof.
  intros Hrun Hsrc Hfolder Hl Hdir Hfile. pose proof Hrun as [Hin Hout].
  unfold copy_if_there, existsSync, mbind, build_bind. cbn [fst snd].
  rewrite (Hout src Hsrc).
  destruct (t !! src) as [ [ | text ] | ] eqn:Esrc; [ contradiction | | ].
  2: { exists t1. split; [ reflexivity | exact Hrun ]. }
  destruct slash; cbn [negb copied app].
  { exists t1. split; [ reflexivity | exact Hrun ]. }
  destruct (put_run made docs t1 l text Hrun Hl Hdir Hfile) as (t2 & Hput & Hrun2).
  exists t2. split; [ | exact Hrun2 ].
  unfold copyFile, ensureDir, existsSync, copyFileSync, readFileSync, dirname, mbind, build_bind.
  rewrite (removelast_app O Hl), Hin, Hdir. unfold mret, build_ret. cbv beta iota.
  rewrite (Hout src Hsrc), Esrc. exact Hput.
Qed.

(** After the old output directory is removed nothing is below its path. *)
Lemma clean_run :
  sound_tree t ->
  exists t0,
    (found ← existsSync O false; if found : bool then rmSync O else mret tt) t = (Finished tt, t0)
    /\ run_tree BASE_DIR t [] [] t0.
Proof.
  intros Hwf. unfold existsSync, rmSync, mbind, build_bind.
  destruct (t !! O) as [ x | ] eqn:Eo.
  - exists (filter (fun kv : path * entry => below O kv.1 = false) t).
    split.
    { destruct x; cbn [negb]; cbv beta iota; rewrite Eo; reflexivity. }
    split.
    + intros l. apply map_lookup_filter_None. right. intros x' _. cbn [fst].
      rewrite below_app. discriminate.
    + intros q Hq. destruct (t !! q) as [ y | ] eqn:Eq.
      * apply map_lookup_filter_Some. split; [ exact Eq | exact Hq ].
      * apply map_lookup_filter_None. left. exact Eq.
  - exists t. split; [ reflexivity | ]. split; [ | reflexivity ].
    intros l. unfold held. cbn. destruct (t !! (O ++ l)) as [ x | ] eqn:El; [ | reflexivity ].
    pose proof (Hwf _ _ El) as Hall. cbn beta in Hall. rewrite Forall_forall in Hall.
    assert (Hp : O ∈ prefixes (O ++ l)) by (apply prefixes_spec, prefix_app_r; reflexivity).
    destruct (Hall O Hp) as [Heq | Hfolder].
    + rewrite <- Heq in El. congruence.
    + congruence.
Qed.

Ltac finished H := rewrite (bind_finished _ _ _ _ _ H).

(** "Clean and create output directory" leaves the eight directories. *)
Lemma prepare_run :
  sound_tree t ->
  exists t1, prepare BASE_DIR t = (Finished tt, t1) /\ run_tree BASE_DIR t made_directories [] t1.
Proof.
  intros Hwf. destruct (clean_run Hwf) as (t0 & Hclean & R0).
  unfold prepare. finished Hclean.
  destruct (ensureDir_run [] [] t0 [] R0 eq_refl) as (t1 & H1 & R1).
  rewrite app_nil_r in H1. finished H1.
  destruct (ensureDir_run _ [] t1 ["nl"] R1 eq_refl) as (t2 & H2 & R2). finished H2.
  destruct (ensureDir_run _ [] t2 ["cv"] R2 eq_refl) as (t3 & H3 & R3). finished H3.
  destruct (ensureDir_run _ [] t3 ["publications"] R3 eq_refl) as (t4 & H4 & R4). finished H4.
  destruct (ensureDir_run _ [] t4 ["presentations"] R4 eq_refl) as (t5 & H5 & R5). finished H5.
  destruct (ensureDir_run _ [] t5 ["assets"; "css"] R5 eq_refl) as (t6 & H6 & R6). finished H6.
  destruct (ensureDir_run _ [] t6 ["assets"; "js"] R6 eq_refl) as (t7 & H7 & R7). finished H7.
  destruct (ensureDir_run _ [] t7 ["assets"; "images"] R7 eq_refl) as (t8 & H8 & R8).
  exists t8. split; [ exact H8 | exact R8 ].
Qed.

Lemma held_cons_ne made docs k text l :
  k <> l -> held made ((k, text) :: docs) l = held made docs l.
Proof. intros Hne. unfold held. cbn [document_at]. rewrite decide_False by exact Hne. reflexivity. Qed.

Lemma held_copied made source slash dest docs l :
  dest <> l -> held made (copied source slash dest ++ docs) l = held made docs l.
Proof.
  intros Hne. unfold copied. destruct source as [ [ | text ] | ]; try reflexivity.
  destruct slash; [ reflexivity | ]. apply held_cons_ne, Hne.
Qed.

Ltac held_at :=
  repeat (rewrite held_cons_ne by discriminate);
  repeat (rewrite held_copied by discriminate).

Lemma templates_not_below (l : path) : below O (TEMPLATES_DIR BASE_DIR ++ l) = false.
Proof.
  apply bool_decide_eq_false_2. unfold OUTPUT_DIR, TEMPLATES_DIR. rewrite <- app_assoc.
  intros H. apply prefix_app_inv, prefix_cons_inv_1 in H. discriminate H.
Qed.

Variable data : value.
Variable photo : string.

(** "Copy assets" adds the copies of the sources that are files. *)
Lemma copy_assets_run t1 :
  run_tree BASE_DIR t made_directories [] t1 ->
  photo_of data = Normal (VStr photo) ->
  below O (join BASE_DIR photo).1 = false ->
  t !! (join BASE_DIR photo).1 <> Some Folder ->
  t !! cssSource BASE_DIR <> Some Folder ->
  t !! jsSource BASE_DIR <> Some Folder ->
  exists t2,
    copy_assets BASE_DIR data t1 = (Finished tt, t2)
    /\ run_tree BASE_DIR t made_directories (copied_assets BASE_DIR t (join BASE_DIR photo)) t2.
Proof.
  intros R1 Hphoto Hbelow Hsrc Hcss Hjs.
  unfold copy_assets. rewrite Hphoto, lift_normal.
  cbn [path_join]. rewrite lift_normal.
  destruct (join BASE_DIR photo) as [p slash] eqn:Ejoin. cbn [fst snd] in Hbelow, Hsrc.
  destruct (copy_if_there_run made_directories [] t1 p slash ["assets"; "images"; "portrait.jpeg"]
              R1 Hbelow Hsrc ltac:(discriminate) eq_refl ltac:(discriminate)) as (t2 & H2 & R2).
  unfold portrait. finished H2.
  destruct (copy_if_there_run made_directories _ t2 (cssSource BASE_DIR) false
              ["assets"; "css"; "portfolio.css"] R2 (templates_not_below _) Hcss ltac:(discriminate))
    as (t3 & H3 & R3).
  { held_at. reflexivity. }
  { held_at. discriminate. }
  finished H3.
  destruct (copy_if_there_run made_directories _ t3 (jsSource BASE_DIR) false
              ["assets"; "js"; "portfolio.js"] R3 (templates_not_below _) Hjs ltac:(discriminate))
    as (t4 & H4 & R4).
  { held_at. reflexivity. }
  { held_at. discriminate. }
  exists t4. split; [ exact H4 | ].
  unfold copied_assets. cbn [fst snd]. rewrite app_nil_r in R4. exact R4.
Qed.

Variable html : string -> string -> string.
Hypothesis Hrender : forall template lang,
  lang ∈ LANGUAGES -> renderTemplate template data lang = Normal (html template lang).

Section Pages.
Variable docs : list (path * string).
Hypothesis Hfree : forall l, l ∈ page_places ->
  held made_directories docs l = held made_directories [] l.

Ltac place := unfold page_places; repeat first [ apply list_elem_of_here | apply list_elem_of_further ].

Ltac held_free := held_at; rewrite Hfree by place.

Lemma LANGUAGES_en : "en" ∈ LANGUAGES.
Proof. unfold LANGUAGES. set_solver. Qed.

Lemma LANGUAGES_nl : "nl" ∈ LANGUAGES.
Proof. unfold LANGUAGES. set_solver. Qed.

(** The page loop adds the eight pages. *)
Lemma generate_languages_run t2 :
  run_tree BASE_DIR t made_directories docs t2 ->
  exists out,
    generate_languages BASE_DIR renderTemplate data LANGUAGES t2 = (Finished tt, out)
    /\ run_tree BASE_DIR t made_directories (written_pages html ++ docs) out.
Proof.
  intros R0.
  destruct (put_run made_directories _ _ ["index.html"] (html "portfolio_home.html" "en")
              R0 ltac:(discriminate)) as (t3 & H1 & R1);
    [ held_free; reflexivity | held_free; discriminate | ].
  destruct (put_run made_directories _ _ ["cv"; "index.html"] (html "portfolio_cv.html" "en")
              R1 ltac:(discriminate)) as (t4 & H2 & R2);
    [ held_free; reflexivity | held_free; discriminate | ].
  destruct (put_run made_directories _ _ ["publications"; "index.html"]
              (html "portfolio_publications.html" "en") R2 ltac:(discriminate)) as (t5 & H3 & R3);
    [ held_free; reflexivity | held_free; discriminate | ].
  destruct (put_run made_directories _ _ ["presentations"; "index.html"]
              (html "portfolio_presentations.html" "en") R3 ltac:(discriminate)) as (t6 & H4 & R4);
    [ held_free; reflexivity | held_free; discriminate | ].
  destruct (put_run made_directories _ _ ["nl"; "index.html"] (html "portfolio_home.html" "nl")
              R4 ltac:(discriminate)) as (t7 & H5 & R5);
    [ held_free; reflexivity | held_free; discriminate | ].
  destruct (put_run made_directories _ _ ["cv"; "nl.html"] (html "portfolio_cv.html" "nl")
              R5 ltac:(discriminate)) as (t8 & H6 & R6);
    [ held_free; reflexivity | held_free; discriminate | ].
  destruct (put_run made_directories _ _ ["publications"; "nl.html"]
              (html "portfolio_publications.html" "nl") R6 ltac:(discriminate)) as (t9 & H7 & R7);
    [ held_free; reflexivity | held_free; discriminate | ].
  destruct (put_run made_directories _ _ ["presentations"; "nl.html"]
              (html "portfolio_presentations.html" "nl") R7 ltac:(discriminate)) as (out & H8 & R8);
    [ held_free; reflexivity | held_free; discriminate | ].
  assert (Hen : generate_language BASE_DIR renderTemplate data "en" t2 = (Finished tt, t6)).
  { unfold generate_language, writeFileSync.
    rewrite (Hrender "portfolio_home.html" _ LANGUAGES_en), (Hrender "portfolio_cv.html" _ LANGUAGES_en),
      (Hrender "portfolio_publications.html" _ LANGUAGES_en),
      (Hrender "portfolio_presentations.html" _ LANGUAGES_en).
    rewrite lift_normal. finished H1. rewrite lift_normal. finished H2.
    rewrite lift_normal. finished H3. rewrite lift_normal. exact H4. }
  assert (Hnl : generate_language BASE_DIR renderTemplate data "nl" t6 = (Finished tt, out)).
  { unfold generate_language, writeFileSync.
    rewrite (Hrender "portfolio_home.html" _ LANGUAGES_nl), (Hrender "portfolio_cv.html" _ LANGUAGES_nl),
      (Hrender "portfolio_publications.html" _ LANGUAGES_nl),
      (Hrender "portfolio_presentations.html" _ LANGUAGES_nl).
    rewrite lift_normal. finished H5. rewrite lift_normal. finished H6.
    rewrite lift_normal. finished H7. rewrite lift_normal. exact H8. }
  exists out. split; [ | exact R8 ].
  unfold LANGUAGES. cbn [generate_languages]. finished Hen. finished Hnl. reflexivity.
Qed.

End Pages.

(** The whole run, by what it leaves. *)
Lemma generatePortfolio_run text :
  sound_tree t ->
  t !! DATA_FILE BASE_DIR = Some (Document text) ->
  JSON_parse text = Normal data ->
  photo_of data = Normal (VStr photo) ->
  copyable BASE_DIR t photo ->
  exists out,
    generatePortfolio BASE_DIR JSON_parse renderTemplate t = (Finished tt, out)
    /\ run_tree BASE_DIR t made_directories
         (written_pages html ++ copied_assets BASE_DIR t (join BASE_DIR photo)) out.
Proof.
  intros Hwf Hdata Hparse Hphoto (Hbelow & Hsrc & Hcss & Hjs).
  destruct (prepare_run Hwf) as (t1 & Hprepare & R1).
  destruct (copy_assets_run t1 R1 Hphoto Hbelow Hsrc Hcss Hjs) as (t2 & Hcopy & R2).
  destruct (generate_languages_run (copied_assets BASE_DIR t (join BASE_DIR photo))) with (t2 := t2)
    as (out & Hpages & R3); [ | exact R2 | ].
  { intros l Hl. unfold copied_assets.
    rewrite <- (app_nil_r (copied (t !! (join BASE_DIR photo).1) _ _)).
    unfold page_places in Hl.
    repeat (apply elem_of_cons in Hl as [-> | Hl]; [ held_at; reflexivity | ]).
    apply elem_of_nil in Hl. contradiction. }
  exists out. split; [ | exact R3 ].
  assert (Hfound : existsSync (DATA_FILE BASE_DIR) false t = (Finished true, t))
    by (unfold existsSync; rewrite Hdata; reflexivity).
  assert (Hread : readFileSync (DATA_FILE BASE_DIR) t = (Finished text, t))
    by (unfold readFileSync; rewrite Hdata; reflexivity).
  unfold generatePortfolio. finished Hfound. rewrite (bind_finished _ _ t t tt eq_refl).
  finished Hread. rewrite Hparse, lift_normal. finished Hprepare. finished Hcopy. exact Hpages.
Qed.

End Run.

Lemma document_at_elem docs l text :
  document_at docs l = Some text -> (l, text) ∈ docs.
Proof.
  induction docs as [ | [k y] docs IH ]; cbn [document_at]; [ discriminate | ].
  destruct (decide (k = l)) as [-> | _].
  - intros [= ->]. apply list_elem_of_here.
  - intros H. apply list_elem_of_further, IH, H.
Qed.





(** ** Exporter *)

Import Exporter.

Ltac each_operation world :=
  repeat (cbn;
          match goal with
          | |- context [world ?o ?n] => destruct (world o n) eqn:?
          end).

Lemma export_direct (world : engine) (pdf_of : string -> string) (html out base : string) :
  direct world (Lib.generatePDF world pdf_of html out base start)
  /\ direct world (Lib.generatePDFBuffer world pdf_of html base start)
  /\ direct world (Cli.generatePDF world pdf_of html out base start).
Proof.
  unfold direct, Lib.generatePDF, Lib.generatePDFBuffer, Cli.generatePDF, print_page,
    try_catch, ask, throw, exit, print, start, mbind, run_bind, mret, run_ret.
  repeat split; each_operation world; cbn;
    first [ solve [ apply (bool_decide_unpack _); vm_compute; exact I ]
          | solve [ repeat constructor; assumption ]
          | solve [ right; eexists; split; [ reflexivity | assumption ] ]
          | solve [ left; split; reflexivity ]
          | reflexivity ].
Qed.

(** C8 (as amended). When the engine cannot be loaded, the two library
    exports throw an error that says so, and the command-line export prints
    that error and ends the process with status 1; each has asked for the
    engine once and for nothing else. And whatever the engine does, no
    export asks anything of it a second time: it returns when everything it
    asked for succeeded, and otherwise ends at the first failure, with the
    message of that failure. *)
Theorem export_without_engine (world any : engine) (pdf_of : string -> string)
    (html out base : string) :
  unavailable world ->
  Lib.generatePDF world pdf_of html out base start
  = (Thrown not_installed, {| asked := [Require]; printed := [] |})
  /\ Lib.generatePDFBuffer world pdf_of html base start
     = (Thrown not_installed, {| asked := [Require]; printed := [] |})
  /\ Cli.generatePDF world pdf_of html out base start
     = (Exited 1, {| asked := [Require];
                     printed := ["Error: puppeteer not installed. Run: npm install puppeteer"] |})
  /\ direct any (Lib.generatePDF any pdf_of html out base start)
  /\ direct any (Lib.generatePDFBuffer any pdf_of html base start)
  /\ direct any (Cli.generatePDF any pdf_of html out base start).
Proof.
  intros [e He].
  split; [ | split; [ | split; [ | apply export_direct ] ] ];
    unfold Lib.generatePDF, Lib.generatePDFBuffer, Cli.generatePDF, try_catch, ask, throw, exit,
      print, start, mbind, run_bind, mret, run_ret;
    cbn; rewrite He; reflexivity.
Qed.

Lemma export_without_engine_witness :
  Lib.generatePDF missing_engine (fun html => html) "<p>cv</p>" "cv.pdf" "/srv" start
  = (Thrown not_installed, {| asked := [Require]; printed := [] |})
  /\ Lib.generatePDFBuffer missing_engine (fun html => html) "<p>cv</p>" "/srv" start
     = (Thrown not_installed, {| asked := [Require]; printed := [] |})
  /\ Cli.generatePDF missing_engine (fun html => html) "<p>cv</p>" "cv.pdf" "/srv" start
     = (Exited 1, {| asked := [Require];
                     printed := ["Error: puppeteer not installed. Run: npm install puppeteer"] |})
  /\ direct working_engine
       (Lib.generatePDF working_engine (fun html => html) "<p>cv</p>" "cv.pdf" "/srv" start)
  /\ direct working_engine
       (Lib.generatePDFBuffer working_engine (fun html => html) "<p>cv</p>" "/srv" start)
  /\ direct working_engine
       (Cli.generatePDF working_engine (fun html => html) "<p>cv</p>" "cv.pdf" "/srv" start).
Proof.
  apply (export_without_engine missing_engine working_engine).
  exists "Cannot find module 'puppeteer'". reflexivity.
Defined.

(** C8 (as stated) fails. Without the engine the export of generate_cv.js
    does not throw to its caller: it ends the process. *)
Lemma cli_export_exits :
  (Cli.generatePDF missing_engine (fun html => html) "<p>cv</p>" "cv.pdf" "/srv" start).1
  = Exited 1
  /\ (Cli.generatePDF missing_engine (fun html => html) "<p>cv</p>" "cv.pdf" "/srv" start).1
     <> Thrown not_installed.
Proof. split; [ reflexivity | discriminate ]. Qed.

(** ** Editor: names of backups *)

Import Editor.

#[local] Arguments backupPath : simpl never.

Lemma prefix_append p s : String.prefix p (p ++ s)%string = true.
Proof.
  induction p as [ | c p IH ]; [ destruct s; reflexivity | ].
  rewrite append_cons. cbn [String.prefix].
  destruct (ascii_dec c c); [ exact IH | congruence ].
Qed.

Lemma substring_whole s n : (String.length s <= n)%nat -> substring 0 n s = s.
Proof.
  revert n. induction s as [ | c s IH ]; intros n Hn; [ destruct n; reflexivity | ].
  destruct n as [ | n ]; [ simpl in Hn; lia | ].
  simpl. f_equal. apply IH. simpl in Hn. lia.
Qed.

Lemma substring_append p s n :
  (String.length s <= n)%nat -> substring (String.length p) n (p ++ s)%string = s.
Proof.
  intros Hn. induction p as [ | c p IH ]; [ apply substring_whole; exact Hn | ].
  rewrite append_cons. simpl. exact IH.
Qed.

Lemma skip_digits_append d s :
  all_digits d = true -> skip_digits (d ++ s)%string = skip_digits s.
Proof.
  induction d as [ | c d IH ]; intros H; [ reflexivity | ].
  simpl in H. apply andb_prop in H as [Hc Hd].
  rewrite append_cons. simpl. rewrite Hc. exact (IH Hd).
Qed.

Lemma backupPath_eq now : backupPath now = ("cv_data_backup_" ++ decimal now ++ ".json")%string.
Proof.
  unfold backupPath, DATA_FILE. cbn -[decimal String.append].
  rewrite append_nil_r. reflexivity.
Qed.

(** A backup taken by the handler matches the handler's pattern; the data
    file and the photo directory do not. *)
Lemma backupPattern_test_backupPath now : backupPattern_test (backupPath now) = true.
Proof.
  rewrite backupPath_eq. destruct (decimal_spec now) as (Hd & _ & Hne).
  set (rest := (decimal now ++ ".json")%string).
  assert (Hhere : matches_here ("cv_data_backup_" ++ rest) = true).
  { unfold matches_here. rewrite prefix_append.
    change 15%nat with (String.length "cv_data_backup_").
    rewrite substring_append by (rewrite length_append; simpl; lia).
    unfold rest. destruct (decimal now) as [ | c d ] eqn:E; [ congruence | ].
    rewrite append_cons. simpl in Hd. apply andb_prop in Hd as [Hc Hd'].
    rewrite Hc. rewrite <- append_cons.
    rewrite skip_digits_append by (simpl; rewrite Hc; exact Hd'). reflexivity. }
  destruct ("cv_data_backup_" ++ rest)%string eqn:E; [ discriminate | ].
  cbn [backupPattern_test]. rewrite Hhere. reflexivity.
Qed.

Lemma backupPath_inj t1 t2 : backupPath t1 = backupPath t2 -> t1 = t2.
Proof.
  rewrite !backupPath_eq. intros H. apply String.app_inj in H.
  apply decimal_inj.
  destruct (decimal_spec t1) as (D1 & _ & _), (decimal_spec t2) as (D2 & _ & _).
  revert H D1 D2. generalize (decimal t1) (decimal t2). clear.
  induction s as [ | c s IH ]; intros [ | c' s' ] H D1 D2; try reflexivity.
  - rewrite append_cons in H. simpl in H. inversion H; subst. discriminate D2.
  - rewrite append_cons in H. simpl in H. inversion H; subst. discriminate D1.
  - rewrite !append_cons in H. inversion H; subst. f_equal.
    simpl in D1, D2. apply andb_prop in D1 as [_ D1]. apply andb_prop in D2 as [_ D2].
    exact (IH _ H2 D1 D2).
Qed.

Lemma ascii_compare_refl c : Ascii.compare c c = Eq.
Proof. unfold Ascii.compare. apply N.compare_refl. Qed.

Lemma compare_refl s : String.compare s s = Eq.
Proof. induction s as [ | c s IH ]; simpl; [ reflexivity | ]. rewrite ascii_compare_refl. exact IH. Qed.

Lemma compare_append_l p s1 s2 :
  String.compare (p ++ s1) (p ++ s2) = String.compare s1 s2.
Proof.
  induction p as [ | c p IH ]; [ reflexivity | ].
  rewrite !append_cons. simpl. rewrite ascii_compare_refl. exact IH.
Qed.

Lemma compare_append_r s1 : forall s2 u,
  String.length s1 = String.length s2 ->
  String.compare (s1 ++ u) (s2 ++ u) = String.compare s1 s2.
Proof.
  induction s1 as [ | c s1 IH ]; intros [ | c' s2 ] u Hlen; try discriminate.
  - apply compare_refl.
  - rewrite !append_cons. simpl. destruct (Ascii.compare c c'); try reflexivity.
    apply IH. simpl in Hlen. lia.
Qed.

(** Among backups whose time stamps have the same number of digits, the
    order of the names is the order of the times. *)
Lemma backupPath_compare t1 t2 :
  String.length (decimal t1) = String.length (decimal t2) ->
  String.compare (backupPath t1) (backupPath t2) = (t1 ?= t2)%N.
Proof.
  intros Hlen. rewrite !backupPath_eq, compare_append_l, compare_append_r by exact Hlen.
  destruct (decimal_spec t1) as (D1 & V1 & _), (decimal_spec t2) as (D2 & V2 & _).
  rewrite (digits_compare _ _ D1 D2 Hlen), V1, V2. reflexivity.
Qed.

Lemma default_compare_le x y :
  exists b : bool, not_after default_compare x y = Normal b
                   /\ if b then String.le x y else String.le y x.
Proof.
  unfold not_after, default_compare, String.le, String.leb. simpl.
  rewrite (String.compare_antisym y x).
  destruct (String.compare x y); eexists; (split; [ reflexivity | exact I ]).
Qed.

Lemma sort_names names :
  exists sorted, Array_sort default_compare names = Normal sorted
                 /\ sorted ≡ₚ names /\ StronglySorted String.le sorted.
Proof.
  apply (Array_sort_spec default_compare (fun _ => True) String.le).
  - intros x y z. apply transitivity.
  - intros x y _ _. apply default_compare_le.
  - apply Forall_forall. auto.
Qed.

Lemma substring_long s : forall n m m',
  (String.length s <= n + m)%nat -> (String.length s <= n + m')%nat ->
  substring n m s = substring n m' s.
Proof.
  induction s as [ | c s IH ]; intros n m m' H H'.
  - destruct n, m, m'; reflexivity.
  - simpl in H, H'. destruct n as [ | n ].
    + destruct m as [ | m ], m' as [ | m' ]; try lia. simpl. f_equal. apply IH; lia.
    + simpl. apply IH; lia.
Qed.

Lemma prefix_split p : forall s,
  String.prefix p s = true ->
  s = (p ++ substring (String.length p) (String.length s) s)%string.
Proof.
  induction p as [ | c p IH ]; intros s H.
  - simpl. symmetry. apply substring_whole. lia.
  - destruct s as [ | c' s ]; [ discriminate | ].
    cbn [String.prefix] in H. destruct (ascii_dec c c') as [ <- | ]; [ | discriminate ].
    rewrite append_cons. simpl. f_equal.
    rewrite (IH s H) at 1. f_equal.
    apply substring_long; lia.
Qed.

Lemma skip_digits_split s :
  exists d, s = (d ++ skip_digits s)%string /\ all_digits d = true.
Proof.
  induction s as [ | c s (d & Hs & Hd) ]; [ exists ""%string; split; reflexivity | ].
  simpl. destruct (is_digit c) eqn:Hc.
  - exists (String c d). rewrite append_cons, <- Hs. simpl. rewrite Hc, Hd. split; reflexivity.
  - exists ""%string. split; reflexivity.
Qed.

(** What the pattern matches: a name that ends with [cv_data_backup_], one
    or more digits, and [.json]; anything may come before. *)
Lemma backupPattern_test_spec f :
  backupPattern_test f = true <->
  exists before digits,
    f = (before ++ "cv_data_backup_" ++ digits ++ ".json")%string
    /\ digits <> ""%string /\ all_digits digits = true.
Proof.
  split.
  - induction f as [ | c f IH ]; cbn [backupPattern_test]; intros H.
    + discriminate H.
    + apply orb_prop in H as [H | H].
      * unfold matches_here in H. apply andb_prop in H as [Hp Hrest].
        apply prefix_split in Hp. revert Hp Hrest.
        change (String.length "cv_data_backup_") with 15%nat.
        generalize (substring 15 (String.length (String c f)) (String c f)). intros rest Hp Hrest.
        destruct rest as [ | r0 rest ]; [ discriminate | ].
        apply andb_prop in Hrest as [Hr0 Hjson]. apply String.eqb_eq in Hjson.
        destruct (skip_digits_split (String r0 rest)) as (d & Hs & Hd).
        exists ""%string. exists d. rewrite Hjson in Hs.
        split; [ rewrite Hp, Hs; reflexivity | split; [ | exact Hd ] ].
        intros ->. simpl in Hs. inversion Hs; subst. discriminate Hr0.
      * destruct (IH H) as (before & digits & -> & Hne & Hd).
        exists (String c before), digits. split; [ reflexivity | split; assumption ].
  - intros (before & digits & -> & Hne & Hd).
    induction before as [ | c before IH ].
    + change ("" ++ ?x)%string with x.
      destruct digits as [ | d0 digits ]; [ congruence | ].
      assert (Hhere : matches_here ("cv_data_backup_" ++ String d0 digits ++ ".json") = true).
      { unfold matches_here. rewrite prefix_append.
        change 15%nat with (String.length "cv_data_backup_").
        rewrite substring_append by (rewrite !length_append; simpl; lia).
        rewrite append_cons. pose proof Hd as Hd'. simpl in Hd'. apply andb_prop in Hd' as [H0 _].
        rewrite H0. rewrite <- append_cons, skip_digits_append by exact Hd. reflexivity. }
      destruct ("cv_data_backup_" ++ String d0 digits ++ ".json")%string eqn:E; [ discriminate | ].
      cbn [backupPattern_test]. rewrite Hhere. reflexivity.
    + rewrite append_cons. cbn [backupPattern_test]. rewrite IH. apply orb_true_r.
Qed.

(** ** Editor: what a save removes and what it leaves *)

Lemma unlinkSync_other n name (dir : directory) :
  name <> n -> (unlinkSync n dir).2 !! name = dir !! name.
Proof.
  intros Hne. unfold unlinkSync. destruct (dir !! n) as [ [text | ] | ]; simpl; try reflexivity.
  apply lookup_delete_ne. congruence.
Qed.

Lemma forEach_unlinkSync_other names : forall (dir : directory) name,
  name ∉ names -> (forEach unlinkSync names dir).2 !! name = dir !! name.
Proof.
  induction names as [ | n rest IH ]; intros dir name Hnot; [ reflexivity | ].
  apply not_elem_of_cons in Hnot as [Hne Hrest].
  cbn [forEach]. unfold mbind, io_bind.
  pose proof (unlinkSync_other n name dir Hne) as Hn.
  destruct (unlinkSync n dir) as [[ [] | e ] dir1]; simpl in *.
  - rewrite IH by exact Hrest. exact Hn.
  - exact Hn.
Qed.

Lemma prune_other (dir : directory) name :
  backupPattern_test name = false -> (prune dir).2 !! name = dir !! name.
Proof.
  intros Htest. unfold prune, mbind, io_bind, readdirSync, pure.
  destruct (sort_names (List.filter backupPattern_test (map_to_list dir).*1))
    as (sorted & -> & Hperm & _).
  apply forEach_unlinkSync_other. intros Hin.
  assert (Hin' : name ∈ List.filter backupPattern_test (map_to_list dir).*1).
  { rewrite <- Hperm. apply list_elem_of_In, in_rev, list_elem_of_In.
    eapply subseteq_drop. exact Hin. }
  apply list_elem_of_In, filter_In in Hin' as [_ Htest']. congruence.
Qed.

(** C10. The pruning step of a save leaves every name that does not match
    the backup pattern as it was, whether or not the step runs to its end:
    the data file and the directory of the uploaded photos among them.
    (What the pattern matches is stated by [backupPattern_test_spec].) *)
Theorem prune_leaves_other_files (dir : directory) (name : string) :
  backupPattern_test name = false ->
  (prune dir).2 !! name = dir !! name
  /\ (prune dir).2 !! DATA_FILE = dir !! DATA_FILE
  /\ (prune dir).2 !! "fotos" = dir !! "fotos".
Proof.
  intros Hname. split; [ exact (prune_other dir name Hname) | split; apply prune_other; reflexivity ].
Qed.

(** The pattern is not anchored at the start of the name. *)
Example backupPattern_test_names :
  backupPattern_test "cv_data_backup_1730000000001.json" = true
  /\ backupPattern_test "old_cv_data_backup_1.json" = true
  /\ backupPattern_test "cv_data_backup.json" = false
  /\ backupPattern_test "cv_data_backup_12.json.bak" = false
  /\ backupPattern_test "fotos" = false.
Proof. repeat split. Qed.

Lemma prune_leaves_other_files_witness :
  (prune sample_directory).2 !! "notes_backup_7.json" = sample_directory !! "notes_backup_7.json"
  /\ (prune sample_directory).2 !! DATA_FILE = sample_directory !! DATA_FILE
  /\ (prune sample_directory).2 !! "fotos" = sample_directory !! "fotos".
Proof. apply (prune_leaves_other_files sample_directory "notes_backup_7.json"). reflexivity. Defined.

Example prune_sample :
  backups (prune sample_directory).2
  = ["cv_data_backup_1730000000006.json"; "cv_data_backup_1730000000005.json";
     "cv_data_backup_1730000000004.json"; "cv_data_backup_1730000000003.json";
     "cv_data_backup_1730000000002.json"]
  /\ (prune sample_directory).2 !! "cv_data_backup_1730000000001.json" = None
  /\ (prune sample_directory).2 !! "cv_data_backup.json" = Some (File "mine").
Proof. vm_compute. repeat split. Qed.

(** ** Editor: the backups after a run of saves *)

Lemma find_backup_Some kept name :
  is_Some (find_backup kept name) <-> name ∈ stamp_names kept.
Proof.
  induction kept as [ | [t text] rest IH ]; simpl.
  - split; [ intros [x Hx]; discriminate | intros H; apply elem_of_nil in H; contradiction ].
  - rewrite elem_of_cons. destruct (String.eqb (backupPath t) name) eqn:E.
    + apply String.eqb_eq in E. split; [ auto | eauto ].
    + apply String.eqb_neq in E. rewrite IH. split; [ auto | intros [ -> | H ]; congruence ].
Qed.

Lemma find_backup_file kept name x : find_backup kept name = Some x -> exists text, x = File text.
Proof.
  induction kept as [ | [t text] rest IH ]; simpl; [ discriminate | ].
  destruct (String.eqb (backupPath t) name); [ intros [= <-]; eauto | exact IH ].
Qed.

Lemma find_backup_app kept1 kept2 name :
  find_backup (kept1 ++ kept2) name
  = match find_backup kept1 name with
    | Some x => Some x
    | None => find_backup kept2 name
    end.
Proof.
  induction kept1 as [ | [t text] rest IH ]; simpl; [ reflexivity | ].
  destruct (String.eqb (backupPath t) name); [ reflexivity | exact IH ].
Qed.

Lemma descending_NoDup kept : descending kept -> NoDup (stamp_names kept).
Proof.
  induction 1 as [ | [t text] rest _ IH Hall ]; simpl; constructor; [ | exact IH ].
  intros Hin. apply list_elem_of_fmap in Hin as ([t' text'] & Heq & Hin').
  apply backupPath_inj in Heq. simpl in Heq. subst t'.
  rewrite Forall_forall in Hall. specialize (Hall _ Hin'). simpl in Hall. lia.
Qed.

Lemma descending_names_sorted w kept :
  descending kept -> of_width w kept -> StronglySorted String.le (rev (stamp_names kept)).
Proof.
  intros Hd. induction Hd as [ | [t text] rest _ IH Hall ]; intros Hw; simpl; [ constructor | ].
  apply Forall_cons in Hw as [Ht Hrest]. simpl in Ht.
  apply StronglySorted_app_2; [ | exact (IH Hrest) | repeat constructor ].
  intros x1 x2 H1 H2. apply list_elem_of_singleton in H2. subst x2.
  apply list_elem_of_In in H1. rewrite <- in_rev in H1. apply list_elem_of_In in H1.
  apply list_elem_of_fmap in H1 as ([t' text'] & -> & Hin').
  rewrite Forall_forall in Hall, Hrest.
  pose proof (Hall _ Hin') as Hlt. pose proof (Hrest _ Hin') as Hlen. simpl in Hlt, Hlen |- *.
  unfold String.le, String.leb. rewrite backupPath_compare by congruence.
  apply N.compare_lt_iff in Hlt. rewrite Hlt. exact I.
Qed.

Lemma elem_of_names (dir : directory) name :
  name ∈ (map_to_list dir).*1 <-> is_Some (dir !! name).
Proof.
  rewrite list_elem_of_fmap. split.
  - intros ([n x] & -> & Hin). apply elem_of_map_to_list in Hin. eauto.
  - intros [x Hx]. exists (name, x). split; [ reflexivity | apply elem_of_map_to_list; exact Hx ].
Qed.

(** The handler's list of backups, for a directory that holds [kept]. *)
Lemma sorted_backups (dir : directory) w kept :
  holds_backups dir kept -> descending kept -> of_width w kept ->
  Array_sort default_compare (List.filter backupPattern_test (map_to_list dir).*1)
  = Normal (rev (stamp_names kept)).
Proof.
  intros Hholds Hd Hw.
  destruct (sort_names (List.filter backupPattern_test (map_to_list dir).*1))
    as (sorted & -> & Hperm & Hsorted).
  f_equal. apply (StronglySorted_unique String.le); [ exact Hsorted | | ].
  - exact (descending_names_sorted w kept Hd Hw).
  - rewrite Hperm. apply NoDup_Permutation.
    + apply NoDup_ListNoDup, List.NoDup_filter, NoDup_ListNoDup, NoDup_fst_map_to_list.
    + apply NoDup_ListNoDup, List.NoDup_rev, NoDup_ListNoDup, descending_NoDup, Hd.
    + intros name. split.
      * intros H. apply list_elem_of_In, filter_In in H as [Hin Htest].
        apply list_elem_of_In, elem_of_names in Hin.
        apply list_elem_of_In. rewrite <- in_rev. apply list_elem_of_In, find_backup_Some.
        rewrite <- (Hholds name Htest). exact Hin.
      * intros H. apply list_elem_of_In in H. rewrite <- in_rev in H. apply list_elem_of_In in H.
        pose proof H as Hfound. apply find_backup_Some in Hfound.
        apply list_elem_of_fmap in H as ([t text] & -> & _).
        pose proof (backupPattern_test_backupPath t) as Htest. cbn [fst] in *.
        apply list_elem_of_In, filter_In. split; [ | exact Htest ].
        apply list_elem_of_In, elem_of_names. rewrite (Hholds _ Htest). exact Hfound.
Qed.

Lemma forEach_unlinkSync_files names : forall (dir : directory),
  NoDup names ->
  (forall n, n ∈ names -> exists text, dir !! n = Some (File text)) ->
  exists dir' : directory,
    forEach unlinkSync names dir = (Normal tt, dir')
    /\ forall name, dir' !! name = if bool_decide (name ∈ names) then None else dir !! name.
Proof.
  induction names as [ | n rest IH ]; intros dir Hnd Hfiles.
  - exists dir. split; [ reflexivity | ]. intros name. rewrite bool_decide_eq_false_2; [ reflexivity | ].
    apply not_elem_of_nil.
  - apply NoDup_cons in Hnd as [Hn Hrest].
    destruct (Hfiles n) as [text Hn']; [ apply elem_of_cons; left; reflexivity | ].
    destruct (IH (delete n dir) Hrest) as (dir' & Hrun & Hlook).
    { intros m Hm. destruct (Hfiles m) as [text' Hm']; [ apply elem_of_cons; right; exact Hm | ].
      exists text'. rewrite lookup_delete_ne; [ exact Hm' | ]. intros ->. contradiction. }
    exists dir'. split.
    + cbn [forEach]. unfold mbind, io_bind. unfold unlinkSync at 1. rewrite Hn'. exact Hrun.
    + intros name. rewrite Hlook. destruct (decide (name = n)) as [-> | Hne].
      * rewrite (bool_decide_eq_true_2 (n ∈ n :: rest)) by (apply elem_of_cons; left; reflexivity).
        rewrite lookup_delete_eq. destruct (bool_decide (n ∈ rest)); reflexivity.
      * rewrite lookup_delete_ne by congruence.
        destruct (decide (name ∈ rest)) as [Hin | Hnot].
        -- rewrite !bool_decide_eq_true_2; [ reflexivity | apply elem_of_cons; right; exact Hin | exact Hin ].
        -- rewrite !bool_decide_eq_false_2; [ reflexivity | | exact Hnot ].
           intros H. apply elem_of_cons in H as [ | ]; contradiction.
Qed.

Lemma stamp_names_app kept1 kept2 :
  stamp_names (kept1 ++ kept2) = stamp_names kept1 ++ stamp_names kept2.
Proof. apply map_app. Qed.

Lemma backupPattern_test_DATA_FILE : backupPattern_test DATA_FILE = false.
Proof. reflexivity. Qed.

(** One save, on a directory that holds the backups [kept] (newest first,
    all older than [now], their times of one width). *)
Lemma save_step (dir : directory) kept current w now text :
  dir !! DATA_FILE = Some (File current) ->
  holds_backups dir kept ->
  descending kept ->
  of_width w kept ->
  Forall (fun p => (p.1 < now)%N) kept ->
  String.length (decimal now) = w ->
  exists dir' : directory,
    save now text dir = (Normal Saved, dir')
    /\ dir' !! DATA_FILE = Some (File text)
    /\ holds_backups dir' (take 5 ((now, current) :: kept))
    /\ forall name, backupPattern_test name = false -> name <> DATA_FILE ->
                    dir' !! name = dir !! name.
Proof.
  intros Hdata Hholds Hdesc Hwidth Hnewer Hnow.
  set (kept1 := (now, current) :: kept).
  assert (Hdesc1 : descending kept1) by (constructor; [ exact Hdesc | exact Hnewer ]).
  assert (Hwidth1 : of_width w kept1) by (constructor; [ exact Hnow | exact Hwidth ]).
  pose proof (backupPattern_test_backupPath now) as Htest_now.
  assert (Hne_now : backupPath now <> DATA_FILE)
    by (intros E; rewrite E in Htest_now; discriminate Htest_now).
  (* the copy *)
  assert (Hfree : dir !! backupPath now = None).
  { rewrite (Hholds _ Htest_now). destruct (find_backup kept (backupPath now)) eqn:E; [ | reflexivity ].
    assert (Hin : backupPath now ∈ stamp_names kept) by (apply find_backup_Some; eauto).
    apply list_elem_of_fmap in Hin as ([t' text'] & Heq & Hin'). apply backupPath_inj in Heq.
    rewrite Forall_forall in Hnewer. specialize (Hnewer _ Hin'). simpl in Heq, Hnewer. lia. }
  set (dir1 := <[backupPath now := File current]> dir).
  assert (Hholds1 : holds_backups dir1 kept1).
  { intros name Htest. unfold dir1, kept1. cbn [find_backup].
    destruct (String.eqb (backupPath now) name) eqn:E.
    - apply String.eqb_eq in E. subst name. apply lookup_insert_eq.
    - apply String.eqb_neq in E. rewrite lookup_insert_ne by exact E. exact (Hholds name Htest). }
  (* the pruning *)
  pose proof (sorted_backups dir1 w kept1 Hholds1 Hdesc1 Hwidth1) as Hsorted.
  assert (Hsplit : kept1 = take 5 kept1 ++ drop 5 kept1) by (symmetry; apply take_drop).
  pose proof (descending_NoDup kept1 Hdesc1) as Hnodup.
  rewrite Hsplit, stamp_names_app in Hnodup. apply NoDup_app in Hnodup as (_ & Hdisjoint & Hnodup_drop).
  destruct (forEach_unlinkSync_files (stamp_names (drop 5 kept1)) dir1 Hnodup_drop)
    as (dir2 & Hunlink & Hlook2).
  { intros n Hn. assert (Hin : n ∈ stamp_names kept1).
    { rewrite Hsplit, stamp_names_app. apply elem_of_app. right. exact Hn. }
    apply find_backup_Some in Hin as [x Hx].
    destruct (find_backup_file _ _ _ Hx) as [text' ->]. exists text'.
    apply list_elem_of_fmap in Hn as ([t' ?] & -> & _). rewrite <- Hx.
    apply Hholds1, backupPattern_test_backupPath. }
  assert (Hprune : prune dir1 = (Normal tt, dir2)).
  { unfold prune, mbind, io_bind, readdirSync, pure. rewrite Hsorted, rev_involutive.
    unfold stamp_names at 1. rewrite <- fmap_drop. exact Hunlink. }
  assert (Hkeep : forall name, name ∉ stamp_names (drop 5 kept1) -> dir2 !! name = dir1 !! name).
  { intros name Hnot. rewrite Hlook2, bool_decide_eq_false_2 by exact Hnot. reflexivity. }
  assert (Hunmatched : forall name, backupPattern_test name = false ->
                                    name ∉ stamp_names (drop 5 kept1)).
  { intros name Htest Hin. apply list_elem_of_fmap in Hin as ([t' ?] & -> & _).
    rewrite backupPattern_test_backupPath in Htest. discriminate Htest. }
  assert (Hdata2 : dir2 !! DATA_FILE = Some (File current)).
  { rewrite Hkeep by (apply Hunmatched; reflexivity).
    unfold dir1. rewrite lookup_insert_ne by exact Hne_now. exact Hdata. }
  (* the write *)
  exists (<[DATA_FILE := File text]> dir2). split; [ | split; [ | split ] ].
  - unfold save, try_catch, mbind, io_bind, existsSync.
    rewrite bool_decide_eq_true_2 by (rewrite Hdata; eauto).
    unfold copyFileSync at 1. rewrite Hdata, Hfree. fold dir1. rewrite Hprune.
    unfold writeFileSync. rewrite Hdata2. reflexivity.
  - apply lookup_insert_eq.
  - intros name Htest. rewrite lookup_insert_ne by (intros <-; discriminate Htest).
    rewrite Hlook2. pose proof (Hholds1 name Htest) as H1.
    rewrite Hsplit, find_backup_app in H1.
    destruct (decide (name ∈ stamp_names (drop 5 kept1))) as [Hin | Hnot].
    + rewrite bool_decide_eq_true_2 by exact Hin.
      destruct (find_backup (take 5 kept1) name) eqn:E; [ | reflexivity ].
      exfalso. apply (Hdisjoint name); [ apply find_backup_Some; eauto | exact Hin ].
    + rewrite bool_decide_eq_false_2 by exact Hnot. rewrite H1.
      destruct (find_backup (take 5 kept1) name); [ reflexivity | ].
      destruct (find_backup (drop 5 kept1) name) eqn:E; [ | reflexivity ].
      exfalso. apply Hnot, find_backup_Some. eauto.
  - intros name Htest Hne. rewrite lookup_insert_ne by congruence.
    rewrite Hkeep by exact (Hunmatched name Htest).
    unfold dir1. apply lookup_insert_ne. intros E. rewrite <- E in Htest. congruence.
Qed.

Lemma take_app_take {A} n (l k : list A) : take n (l ++ take n k) = take n (l ++ k).
Proof. rewrite !take_app, take_take. f_equal. f_equal. lia. Qed.

Lemma default_last_cons {A} (a x : A) l : default a (last (x :: l)) = default x (last l).
Proof. rewrite last_cons. destruct (last l); reflexivity. Qed.

Lemma history_eq saves : forall current kept,
  (length kept <= 5)%nat ->
  history current saves kept
  = (take 5 (rev (zip saves.*1 (current :: saves.*2)) ++ kept),
     default current (last saves.*2)).
Proof.
  induction saves as [ | [now text] rest IH ]; intros current kept Hlen.
  - simpl. rewrite take_ge by exact Hlen. reflexivity.
  - cbn [history]. rewrite IH by (rewrite length_take; lia). f_equal.
    + cbn [fmap list_fmap fst snd zip zip_with rev]. rewrite take_app_take, <- app_assoc. reflexivity.
    + cbn [fmap list_fmap snd]. symmetry. apply default_last_cons.
Qed.

Lemma descending_take n kept : descending kept -> descending (take n kept).
Proof.
  intros H. unfold descending in *. rewrite <- (take_drop n kept) in H.
  exact (StronglySorted_app_1_l _ _ _ H).
Qed.

Lemma save_all_history saves : forall (dir : directory) kept current w,
  dir !! DATA_FILE = Some (File current) ->
  holds_backups dir kept ->
  descending kept ->
  of_width w kept ->
  StronglySorted N.lt saves.*1 ->
  Forall (fun now => Forall (fun p => (p.1 < now)%N) kept) saves.*1 ->
  Forall (fun now => String.length (decimal now) = w) saves.*1 ->
  exists dir' : directory,
    save_all saves dir = (replicate (length saves) Saved, dir')
    /\ dir' !! DATA_FILE = Some (File (history current saves kept).2)
    /\ holds_backups dir' (history current saves kept).1
    /\ descending (history current saves kept).1
    /\ of_width w (history current saves kept).1
    /\ forall name, backupPattern_test name = false -> name <> DATA_FILE ->
                    dir' !! name = dir !! name.
Proof.
  induction saves as [ | [now text] rest IH ];
    intros dir kept current w Hdata Hholds Hdesc Hwidth Hinc Hnewer Hw.
  - exists dir. repeat split; auto.
  - cbn [fmap list_fmap fst] in Hinc, Hnewer, Hw.
    apply StronglySorted_cons in Hinc as [Hlater Hinc].
    apply Forall_cons in Hnewer as [Hnow Hnewer]. apply Forall_cons in Hw as [Hwnow Hw].
    destruct (save_step dir kept current w now text Hdata Hholds Hdesc Hwidth Hnow Hwnow)
      as (dir1 & Hsave & Hdata1 & Hholds1 & Hframe1).
    destruct (IH dir1 (take 5 ((now, current) :: kept)) text w) as (dir' & Hall & Hd & Hh & Hde & Hwi & Hfr).
    + exact Hdata1.
    + exact Hholds1.
    + apply descending_take. constructor; [ exact Hdesc | exact Hnow ].
    + apply Forall_take. constructor; [ exact Hwnow | exact Hwidth ].
    + exact Hinc.
    + rewrite Forall_forall in Hlater, Hnewer |- *. intros later Hin.
      apply Forall_take. constructor; [ exact (Hlater later Hin) | exact (Hnewer later Hin) ].
    + exact Hw.
    + exists dir'. cbn [save_all history length replicate]. rewrite Hsave, Hall.
      split; [ reflexivity | split; [ exact Hd | split; [ exact Hh | split; [ exact Hde | split; [ exact Hwi | ] ] ] ] ].
      intros name Htest Hne. rewrite (Hfr name Htest Hne). exact (Hframe1 name Htest Hne).
Qed.

Lemma find_backup_elem kept now text :
  descending kept -> (now, text) ∈ kept -> find_backup kept (backupPath now) = Some (File text).
Proof.
  induction 1 as [ | [t x] rest _ IH Hall ]; intros Hin; [ apply elem_of_nil in Hin; contradiction | ].
  cbn [find_backup]. apply elem_of_cons in Hin as [ [= -> ->] | Hin ].
  - rewrite String.eqb_refl. reflexivity.
  - destruct (String.eqb (backupPath t) (backupPath now)) eqn:E; [ | exact (IH Hin) ].
    apply String.eqb_eq, backupPath_inj in E. subst t.
    rewrite Forall_forall in Hall. specialize (Hall _ Hin). simpl in Hall. lia.
Qed.

(** C6 (as amended). Start from a directory with the data file and no
    backup, and save any number of times, at times that increase and whose
    numerals have the same number of digits (as millisecond time stamps
    do). Every save succeeds; the data file holds the text saved last; the
    backups are those of the last five saves, newest first, each with the
    text the data file had before that save; so two saves leave two backups
    and nine leave the five made last. Every other entry of the directory
    is as it was. *)
Theorem saves_keep_latest_five (dir : directory) (original : string)
    (saves : list (N * string)) (w : nat) :
  dir !! DATA_FILE = Some (File original) ->
  (forall name, backupPattern_test name = true -> dir !! name = None) ->
  StronglySorted N.lt saves.*1 ->
  Forall (fun now => String.length (decimal now) = w) saves.*1 ->
  exists dir' : directory,
    save_all saves dir = (replicate (length saves) Saved, dir')
    /\ dir' !! DATA_FILE = Some (File (default original (last saves.*2)))
    /\ backups dir' = stamp_names (take 5 (rev (zip saves.*1 (original :: saves.*2))))
    /\ length (backups dir') = Nat.min 5 (length saves)
    /\ (forall now text,
          (now, text) ∈ take 5 (rev (zip saves.*1 (original :: saves.*2))) ->
          dir' !! backupPath now = Some (File text))
    /\ (forall name, backupPattern_test name = false -> name <> DATA_FILE ->
                     dir' !! name = dir !! name).
Proof.
  intros Hdata Hnone Hinc Hw.
  assert (Hholds0 : holds_backups dir [])
    by (intros name Htest; rewrite (Hnone name Htest); reflexivity).
  assert (Hdesc0 : descending []) by constructor.
  assert (Hwidth0 : of_width w []) by constructor.
  assert (Hnewer0 : Forall (fun now : N => Forall (fun p : N * string => (p.1 < now)%N) []) saves.*1)
    by (apply Forall_forall; intros; constructor).
  destruct (save_all_history saves dir [] original w Hdata Hholds0 Hdesc0 Hwidth0 Hinc Hnewer0 Hw)
    as (dir' & Hall & Hd & Hh & Hde & Hwi & Hfr).
  - rewrite history_eq, app_nil_r in Hd, Hh, Hde, Hwi by (simpl; lia). cbn [fst snd] in *.
    set (kept := take 5 (rev (zip saves.*1 (original :: saves.*2)))) in *.
    assert (Hbackups : backups dir' = stamp_names kept).
    { unfold backups. rewrite (sorted_backups dir' w kept Hh Hde Hwi). apply rev_involutive. }
    exists dir'. split; [ exact Hall | split; [ exact Hd | split; [ exact Hbackups | split; [ | split ] ] ] ].
    + rewrite Hbackups. unfold stamp_names, kept.
      rewrite length_map, length_take, length_rev, length_zip, length_cons, !length_fmap. lia.
    + intros now text Hin. rewrite (Hh _ (backupPattern_test_backupPath now)).
      exact (find_backup_elem kept now text Hde Hin).
    + exact Hfr.
Qed.

Lemma fresh_directory_no_backups name :
  backupPattern_test name = true -> fresh_directory !! name = None.
Proof.
  intros Htest. unfold fresh_directory.
  rewrite !lookup_insert_ne by (intros <-; discriminate Htest). apply lookup_empty.
Qed.

Lemma saves_keep_latest_five_witness :
  exists dir' : directory,
    save_all nine_saves fresh_directory = (replicate (length nine_saves) Saved, dir')
    /\ dir' !! DATA_FILE = Some (File (default "v0" (last nine_saves.*2)))
    /\ backups dir' = stamp_names (take 5 (rev (zip nine_saves.*1 ("v0" :: nine_saves.*2))))
    /\ length (backups dir') = Nat.min 5 (length nine_saves)
    /\ (forall now text,
          (now, text) ∈ take 5 (rev (zip nine_saves.*1 ("v0" :: nine_saves.*2))) ->
          dir' !! backupPath now = Some (File text))
    /\ (forall name, backupPattern_test name = false -> name <> DATA_FILE ->
                     dir' !! name = fresh_directory !! name).
Proof.
  apply (saves_keep_latest_five fresh_directory "v0" nine_saves 13).
  - reflexivity.
  - exact fresh_directory_no_backups.
  - unfold nine_saves. cbn [fmap list_fmap fst]. repeat (constructor; [ | repeat constructor; lia ]). constructor.
  - unfold nine_saves. cbn [fmap list_fmap fst]. repeat constructor; vm_compute; reflexivity.
Defined.

Example two_saves :
  let dir := (save_all [(1730000001000, "v1"); (1730000002000, "v2")]%N fresh_directory).2 in
  backups dir = ["cv_data_backup_1730000002000.json"; "cv_data_backup_1730000001000.json"]
  /\ dir !! "cv_data_backup_1730000001000.json" = Some (File "v0")
  /\ dir !! "cv_data_backup_1730000002000.json" = Some (File "v1")
  /\ dir !! DATA_FILE = Some (File "v2")
  /\ size dir = 4%nat.
Proof. vm_compute. repeat split. Qed.

Example nine_saves_backups :
  backups (save_all nine_saves fresh_directory).2
  = ["cv_data_backup_1730000009000.json"; "cv_data_backup_1730000008000.json";
     "cv_data_backup_1730000007000.json"; "cv_data_backup_1730000006000.json";
     "cv_data_backup_1730000005000.json"]
  /\ size (save_all nine_saves fresh_directory).2 = 7%nat.
Proof. vm_compute. repeat split. Qed.

(** C6 (as stated) fails. The name of a backup is made of the time in
    milliseconds: two saves within the same millisecond write the same
    backup, and one backup is left, holding the text before the second
    save. And the backups are ordered by name: when the time gains a digit
    between saves, the sixth save removes the backup of the third and keeps
    those of the first two. *)
Lemma two_saves_same_millisecond :
  let dir := (save_all [(1730000001000, "v1"); (1730000001000, "v2")]%N fresh_directory).2 in
  let rolled :=
    (save_all [(999999999998, "v1"); (999999999999, "v2"); (1000000000000, "v3");
               (1000000000001, "v4"); (1000000000002, "v5"); (1000000000003, "v6")]%N
       fresh_directory).2 in
  (save_all [(1730000001000, "v1"); (1730000001000, "v2")]%N fresh_directory).1 = [Saved; Saved]
  /\ backups dir = ["cv_data_backup_1730000001000.json"]
  /\ length (backups dir) <> 2%nat
  /\ dir !! "cv_data_backup_1730000001000.json" = Some (File "v1")
  /\ dir !! DATA_FILE = Some (File "v2")
  /\ backups rolled
     = ["cv_data_backup_999999999999.json"; "cv_data_backup_999999999998.json";
        "cv_data_backup_1000000000003.json"; "cv_data_backup_1000000000002.json";
        "cv_data_backup_1000000000001.json"]
  /\ rolled !! "cv_data_backup_1000000000000.json" = None.
Proof. vm_compute. repeat split. discriminate. Qed.

(** * Part III: further properties of the code *)

(** ** Editor: what any save does *)

Import Service.

Lemma forEach_unlinkSync_done names : forall (dir dir' : directory),
  forEach unlinkSync names dir = (Normal tt, dir') ->
  forall name, dir' !! name = if bool_decide (name ∈ names) then None else dir !! name.
Proof.
  induction names as [ | n rest IH ]; intros dir dir' Hrun name.
  - injection Hrun as <-. rewrite bool_decide_eq_false_2; [ reflexivity | apply not_elem_of_nil ].
  - cbn [forEach] in Hrun. unfold mbind, io_bind in Hrun. unfold unlinkSync at 1 in Hrun.
    destruct (dir !! n) as [ [text | ] | ] eqn:Hn; try discriminate Hrun.
    rewrite (IH _ _ Hrun name). destruct (decide (name = n)) as [-> | Hne].
    + rewrite (bool_decide_eq_true_2 (n ∈ n :: rest)) by (apply elem_of_cons; left; reflexivity).
      rewrite lookup_delete_eq. destruct (bool_decide (n ∈ rest)); reflexivity.
    + rewrite lookup_delete_ne by congruence.
      destruct (decide (name ∈ rest)) as [Hin | Hnot].
      * rewrite !bool_decide_eq_true_2; [ reflexivity | apply elem_of_cons; right; exact Hin | exact Hin ].
      * rewrite !bool_decide_eq_false_2; [ reflexivity | | exact Hnot ].
        intros H. apply elem_of_cons in H as [ | ]; contradiction.
Qed.

Lemma unlinkSync_shrinks n (dir : directory) name x :
  (unlinkSync n dir).2 !! name = Some x -> dir !! name = Some x.
Proof.
  unfold unlinkSync. destruct (dir !! n) as [ [text | ] | ]; simpl; try (intros H; exact H).
  intros H. apply lookup_delete_Some in H as [_ H]. exact H.
Qed.

Lemma forEach_unlinkSync_shrinks names : forall (dir : directory) name x,
  (forEach unlinkSync names dir).2 !! name = Some x -> dir !! name = Some x.
Proof.
  induction names as [ | n rest IH ]; intros dir name x; [ intros H; exact H | ].
  cbn [forEach]. unfold mbind, io_bind.
  pose proof (unlinkSync_shrinks n dir name x) as Hn.
  destruct (unlinkSync n dir) as [[ [] | e ] dir1]; simpl in *.
  - intros H. apply Hn, (IH _ _ _ H).
  - exact Hn.
Qed.

Lemma prune_shrinks (dir : directory) name x :
  (prune dir).2 !! name = Some x -> dir !! name = Some x.
Proof.
  unfold prune, mbind, io_bind, readdirSync, pure.
  destruct (sort_names (List.filter backupPattern_test (map_to_list dir).*1))
    as (sorted & -> & _ & _).
  apply forEach_unlinkSync_shrinks.
Qed.

Lemma backupPath_not_DATA_FILE now : backupPath now <> DATA_FILE.
Proof.
  intros E. pose proof (backupPattern_test_backupPath now) as H. rewrite E in H. discriminate H.
Qed.

(** How a save runs, case by case. *)
Lemma save_cases now text (dir : directory) :
  match dir !! DATA_FILE with
  | None => save now text dir = (Normal Saved, <[DATA_FILE := File text]> dir)
  | Some Directory => save now text dir = (Normal Failed, dir)
  | Some (File old) =>
      match dir !! backupPath now with
      | Some Directory => save now text dir = (Normal Failed, dir)
      | _ =>
          let dir1 := <[backupPath now := File old]> dir in
          match (prune dir1).1 with
          | Normal _ => save now text dir = (Normal Saved, <[DATA_FILE := File text]> (prune dir1).2)
          | Throw _ => save now text dir = (Normal Failed, (prune dir1).2)
          end
      end
  end.
Proof.
  destruct (dir !! DATA_FILE) as [ [old | ] | ] eqn:Hdata.
  - assert (Hrest : forall dir1 : directory,
               dir1 !! DATA_FILE = Some (File old) ->
               copyFileSync DATA_FILE (backupPath now) dir = (Normal tt, dir1) ->
               match (prune dir1).1 with
               | Normal _ => save now text dir = (Normal Saved, <[DATA_FILE := File text]> (prune dir1).2)
               | Throw _ => save now text dir = (Normal Failed, (prune dir1).2)
               end).
    { intros dir1 H1 Hcopy.
      pose proof (prune_other dir1 DATA_FILE backupPattern_test_DATA_FILE) as Hp. rewrite H1 in Hp.
      unfold save, Editor.try_catch, mbind, io_bind, existsSync.
      rewrite bool_decide_eq_true_2 by eauto. rewrite Hcopy.
      destruct (prune dir1) as [[ [] | e ] dir2]; cbn [fst snd] in *; [ | reflexivity ].
      unfold Editor.writeFileSync. rewrite Hp. reflexivity. }
    assert (Hcopy : copyFileSync DATA_FILE (backupPath now) dir
                    = match dir !! backupPath now with
                      | Some Directory => (Throw (Error "EISDIR"), dir)
                      | _ => (Normal tt, <[backupPath now := File old]> dir)
                      end).
    { unfold copyFileSync. rewrite Hdata. destruct (dir !! backupPath now) as [ [t | ] | ]; reflexivity. }
    destruct (dir !! backupPath now) as [ [t | ] | ] eqn:Hb; cbn zeta.
    + apply Hrest; [ | exact Hcopy ].
      rewrite lookup_insert_ne by apply backupPath_not_DATA_FILE. exact Hdata.
    + unfold save, Editor.try_catch, mbind, io_bind, existsSync.
      rewrite bool_decide_eq_true_2 by eauto. rewrite Hcopy. reflexivity.
    + apply Hrest; [ | exact Hcopy ].
      rewrite lookup_insert_ne by apply backupPath_not_DATA_FILE. exact Hdata.
  - unfold save, Editor.try_catch, mbind, io_bind, existsSync.
    rewrite bool_decide_eq_true_2 by eauto.
    unfold copyFileSync at 1. rewrite Hdata. reflexivity.
  - unfold save, Editor.try_catch, mbind, io_bind, existsSync.
    rewrite bool_decide_eq_false_2 by (rewrite Hdata; intros [x Hx]; discriminate Hx).
    unfold mret, io_ret, Editor.writeFileSync. cbv beta iota. rewrite Hdata. reflexivity.
Qed.

(** After a save that answered that the data was saved, the data file
    holds the new text. *)
Lemma save_saved now text (dir dir' : directory) :
  save now text dir = (Normal Saved, dir') -> dir' !! DATA_FILE = Some (File text).
Proof.
  intros Hsave. pose proof (save_cases now text dir) as Hcases.
  destruct (dir !! DATA_FILE) as [ [old | ] | ].
  - destruct (dir !! backupPath now) as [ [t | ] | ]; cbn zeta in Hcases.
    2: { rewrite Hcases in Hsave. discriminate Hsave. }
    all: destruct (prune (<[backupPath now := File old]> dir)).1; rewrite Hcases in Hsave.
    all: try discriminate Hsave.
    all: injection Hsave as <-; apply lookup_insert_eq.
  - rewrite Hcases in Hsave. discriminate Hsave.
  - rewrite Hcases in Hsave. injection Hsave as <-. apply lookup_insert_eq.
Qed.

(** X1. The save handler always answers. When it answers that the data
    was saved, the data file holds the new text; when it answers with the
    failure, the data file is as it was before the request. *)
Theorem save_answers (now : N) (text : string) (dir : directory) :
  exists (r : response) (dir' : directory),
    save now text dir = (Normal r, dir')
    /\ (r = Saved -> dir' !! DATA_FILE = Some (File text))
    /\ (r = Failed -> dir' !! DATA_FILE = dir !! DATA_FILE).
Proof.
  pose proof (save_cases now text dir) as Hcases.
  destruct (dir !! DATA_FILE) as [ [old | ] | ] eqn:Hdata.
  - assert (Hkept : (prune (<[backupPath now := File old]> dir)).2 !! DATA_FILE = Some (File old)).
    { rewrite prune_other by apply backupPattern_test_DATA_FILE.
      rewrite lookup_insert_ne by apply backupPath_not_DATA_FILE. exact Hdata. }
    destruct (dir !! backupPath now) as [ [t | ] | ]; cbn zeta in Hcases.
    2: { exists Failed, dir. split; [ exact Hcases | split; [ discriminate | intros _; exact Hdata ] ]. }
    all: destruct (prune (<[backupPath now := File old]> dir)).1.
    all: eexists _, _; (split; [ exact Hcases | ]).
    all: split; [ intros E; try discriminate E; apply lookup_insert_eq
                | intros E; try discriminate E; exact Hkept ].
  - exists Failed, dir. split; [ exact Hcases | split; [ discriminate | intros _; exact Hdata ] ].
  - eexists _, _. split; [ exact Hcases | ]. split; [ intros _; apply lookup_insert_eq | discriminate ].
Qed.

(** X2. Whether it succeeds or fails, a save changes nothing in the base
    directory but the data file and names that match the backup pattern:
    the photo directory and every other file stay as they were. *)
Theorem save_leaves_other_files (now : N) (text : string) (dir : directory) (name : string) :
  backupPattern_test name = false ->
  name <> DATA_FILE ->
  (save now text dir).2 !! name = dir !! name.
Proof.
  intros Htest Hne. pose proof (save_cases now text dir) as Hcases.
  assert (Hnow : backupPath now <> name).
  { intros E. rewrite <- E, backupPattern_test_backupPath in Htest. discriminate Htest. }
  destruct (dir !! DATA_FILE) as [ [old | ] | ].
  - assert (Hkept : (prune (<[backupPath now := File old]> dir)).2 !! name = dir !! name).
    { rewrite prune_other by exact Htest. apply lookup_insert_ne. exact Hnow. }
    destruct (dir !! backupPath now) as [ [t | ] | ]; cbn zeta in Hcases.
    2: { rewrite Hcases. reflexivity. }
    all: destruct (prune (<[backupPath now := File old]> dir)).1; rewrite Hcases; cbn [snd].
    all: try exact Hkept.
    all: rewrite lookup_insert_ne by congruence; exact Hkept.
  - rewrite Hcases. reflexivity.
  - rewrite Hcases. cbn [snd]. apply lookup_insert_ne. congruence.
Qed.

Lemma save_leaves_other_files_witness :
  (save 1730000000007 "{}" sample_directory).2 !! "fotos" = sample_directory !! "fotos".
Proof.
  apply (save_leaves_other_files 1730000000007 "{}" sample_directory "fotos");
    [ reflexivity | discriminate ].
Defined.

(** X3. A save never changes what a backup holds: after a save, whether it
    succeeded or failed, every file under a backup name holds what it held
    before, but for the backup this save made, which holds the text the data
    file had before the save. *)
Theorem save_keeps_backup_texts (now : N) (text : string) (dir : directory)
    (name : string) (x : node) :
  backupPattern_test name = true ->
  (save now text dir).2 !! name = Some x ->
  dir !! name = Some x
  \/ (name = backupPath now /\ exists old, dir !! DATA_FILE = Some (File old) /\ x = File old).
Proof.
  intros Htest Hx. pose proof (save_cases now text dir) as Hcases.
  assert (Hne : DATA_FILE <> name) by (intros <-; discriminate Htest).
  destruct (dir !! DATA_FILE) as [ [old | ] | ] eqn:Hdata.
  - assert (Hkept : (prune (<[backupPath now := File old]> dir)).2 !! name = Some x ->
                    dir !! name = Some x \/ (name = backupPath now /\ x = File old)).
    { intros H. apply prune_shrinks in H. apply lookup_insert_Some in H as [ [<- <-] | [_ H] ]; auto. }
    assert (Hgoal : (prune (<[backupPath now := File old]> dir)).2 !! name = Some x ->
                    dir !! name = Some x
                    \/ (name = backupPath now /\ exists old0, Some (File old) = Some (File old0) /\ x = File old0)).
    { intros H. destruct (Hkept H) as [ | [-> ->] ]; [ left; assumption | right; eauto ]. }
    destruct (dir !! backupPath now) as [ [t | ] | ]; cbn zeta in Hcases.
    2: { rewrite Hcases in Hx. left. exact Hx. }
    all: destruct (prune (<[backupPath now := File old]> dir)).1; rewrite Hcases in Hx; cbn [snd] in Hx.
    all: try (apply Hgoal; exact Hx).
    all: rewrite lookup_insert_ne in Hx by exact Hne; apply Hgoal; exact Hx.
  - rewrite Hcases in Hx. left. exact Hx.
  - rewrite Hcases in Hx. cbn [snd] in Hx. rewrite lookup_insert_ne in Hx by exact Hne. left. exact Hx.
Qed.

Lemma save_keeps_backup_texts_witness :
  sample_directory !! "cv_data_backup_1730000000007.json" = Some (File "{}")
  \/ ("cv_data_backup_1730000000007.json" = backupPath 1730000000007
      /\ exists old, sample_directory !! DATA_FILE = Some (File old) /\ File "{}" = File old).
Proof.
  apply (save_keeps_backup_texts 1730000000007 "[]" sample_directory
           "cv_data_backup_1730000000007.json" (File "{}")); reflexivity.
Defined.

(** X4. When there is no data file yet, a save writes it and does nothing
    else: no backup is made and nothing is pruned, however many backups the
    directory holds. *)
Theorem save_without_document (now : N) (text : string) (dir : directory) :
  dir !! DATA_FILE = None ->
  save now text dir = (Normal Saved, <[DATA_FILE := File text]> dir).
Proof. intros Hdata. pose proof (save_cases now text dir) as Hcases. rewrite Hdata in Hcases. exact Hcases. Qed.

Lemma save_without_document_witness :
  save 1730000000007 "{}" (delete DATA_FILE sample_directory)
  = (Normal Saved, <[DATA_FILE := File "{}"]> (delete DATA_FILE sample_directory)).
Proof. apply (save_without_document 1730000000007 "{}" (delete DATA_FILE sample_directory)). reflexivity. Defined.

Lemma StronglySorted_drop {A} (R : relation A) (n : nat) (l : list A) :
  StronglySorted R l -> StronglySorted R (drop n l).
Proof.
  revert l. induction n as [ | n IH ]; intros [ | x l ] Hl; simpl; try exact Hl.
  apply IH. inversion Hl; assumption.
Qed.

Lemma StronglySorted_rev {A} (R : relation A) (l : list A) :
  StronglySorted R l -> StronglySorted (fun x y => R y x) (rev l).
Proof.
  induction 1 as [ | x l Hl IH Hx ]; simpl; [ constructor | ].
  apply StronglySorted_app_2; [ | exact IH | repeat constructor ].
  intros x1 x2 H1 H2. apply list_elem_of_singleton in H2. subst x2.
  apply list_elem_of_In in H1. rewrite <- in_rev in H1.
  rewrite Forall_forall in Hx. apply Hx, list_elem_of_In, H1.
Qed.

(** The handler's list of backups has the greatest name first. *)
Lemma backups_descending (dir : directory) :
  StronglySorted (fun x y => String.le y x) (backups dir).
Proof.
  unfold backups.
  destruct (sort_names (List.filter backupPattern_test (map_to_list dir).*1))
    as (sorted & -> & _ & Hsorted).
  apply StronglySorted_rev, Hsorted.
Qed.

(** X5. After a save that found a data file and answered that the data was
    saved, the names in the base directory that match the backup pattern are
    the first five of the handler's list of backups as it was after the copy
    step, whatever the directory held before: the five greatest names in
    the order of the sort (all of them when there were five or fewer), and
    so at most five. *)
Theorem save_keeps_greatest (now : N) (text old : string) (dir dir' : directory) :
  dir !! DATA_FILE = Some (File old) ->
  save now text dir = (Normal Saved, dir') ->
  backups dir' = take 5 (backups (<[backupPath now := File old]> dir))
  /\ StronglySorted (fun x y => String.le y x) (backups (<[backupPath now := File old]> dir))
  /\ (length (backups dir') <= 5)%nat.
Proof.
  intros Hdata Hsave. pose proof (save_cases now text dir) as Hcases.
  rewrite Hdata in Hcases.
  set (dir1 := <[backupPath now := File old]> dir) in *.
  assert (Hpruned : exists dir2 : directory, prune dir1 = (Normal tt, dir2) /\ dir' = <[DATA_FILE := File text]> dir2).
  { destruct (dir !! backupPath now) as [ [t | ] | ]; cbn zeta in Hcases.
    2: { rewrite Hcases in Hsave. discriminate Hsave. }
    all: destruct (prune dir1) as [[ [] | e ] dir2]; cbn [fst snd] in Hcases; rewrite Hcases in Hsave.
    all: try discriminate Hsave.
    all: injection Hsave as <-; eauto. }
  destruct Hpruned as (dir2 & Hprune & ->).
  unfold prune, mbind, io_bind, readdirSync, pure in Hprune. cbv beta iota in Hprune.
  destruct (sort_names (List.filter backupPattern_test (map_to_list dir1).*1))
    as (sorted & Hsorted & Hperm & Hordered).
  rewrite Hsorted in Hprune.
  pose proof (forEach_unlinkSync_done _ _ _ Hprune) as Hlook.
  assert (Hlist1 : backups dir1 = rev sorted) by (unfold backups; rewrite Hsorted; reflexivity).
  assert (Hnodup : NoDup (rev sorted)).
  { apply NoDup_ListNoDup, List.NoDup_rev, NoDup_ListNoDup. rewrite Hperm.
    apply NoDup_ListNoDup, List.NoDup_filter, NoDup_ListNoDup, NoDup_fst_map_to_list. }
  assert (Hlist : backups (<[DATA_FILE := File text]> dir2) = take 5 (rev sorted)).
  { unfold backups.
    destruct (sort_names (List.filter backupPattern_test (map_to_list (<[DATA_FILE := File text]> dir2)).*1))
      as (sorted' & -> & Hperm' & Hordered').
    rewrite <- (rev_involutive (take 5 (rev sorted))). f_equal.
    apply (StronglySorted_unique String.le); [ exact Hordered' | | ].
    - rewrite firstn_rev, rev_involutive. apply StronglySorted_drop, Hordered.
    - rewrite Hperm'. apply NoDup_Permutation.
      + apply NoDup_ListNoDup, List.NoDup_filter, NoDup_ListNoDup, NoDup_fst_map_to_list.
      + apply NoDup_ListNoDup, List.NoDup_rev, NoDup_ListNoDup.
        rewrite <- (take_drop 5 (rev sorted)) in Hnodup. apply NoDup_app in Hnodup as [Htake _]. exact Htake.
      + intros name. split.
        * intros Hin. apply list_elem_of_In, filter_In in Hin as [Hin Htest].
          apply list_elem_of_In, elem_of_names in Hin.
          rewrite lookup_insert_ne in Hin by (intros <-; discriminate Htest).
          rewrite Hlook in Hin. apply list_elem_of_In. rewrite <- in_rev. apply list_elem_of_In.
          destruct (decide (name ∈ drop 5 (rev sorted))) as [Hdrop | Hkeep].
          -- rewrite bool_decide_eq_true_2 in Hin by exact Hdrop. destruct Hin as [? Hin]. discriminate Hin.
          -- rewrite bool_decide_eq_false_2 in Hin by exact Hkeep.
             assert (Hall : name ∈ rev sorted).
             { apply list_elem_of_In. rewrite <- in_rev. apply list_elem_of_In. rewrite Hperm.
               apply list_elem_of_In, filter_In. split; [ | exact Htest ].
               apply list_elem_of_In, elem_of_names. exact Hin. }
             rewrite <- (take_drop 5 (rev sorted)) in Hall.
             apply elem_of_app in Hall as [ | ]; [ assumption | contradiction ].
        * intros Hin. apply list_elem_of_In in Hin. rewrite <- in_rev in Hin. apply list_elem_of_In in Hin.
          assert (Hall : name ∈ sorted).
          { apply list_elem_of_In. rewrite (in_rev sorted). apply list_elem_of_In.
            rewrite <- (take_drop 5 (rev sorted)). apply elem_of_app. left. exact Hin. }
          rewrite Hperm in Hall. apply list_elem_of_In, filter_In in Hall as [Hall Htest].
          apply list_elem_of_In, elem_of_names in Hall.
          apply list_elem_of_In, filter_In. split; [ | exact Htest ].
          apply list_elem_of_In, elem_of_names.
          rewrite lookup_insert_ne by (intros <-; discriminate Htest).
          rewrite Hlook, bool_decide_eq_false_2; [ exact Hall | ].
          intros Hdrop. rewrite <- (take_drop 5 (rev sorted)) in Hnodup.
          apply NoDup_app in Hnodup as (_ & Hdisjoint & _). exact (Hdisjoint name Hin Hdrop). }
  rewrite Hlist, Hlist1. split; [ reflexivity | ]. split.
  - rewrite <- Hlist1. apply backups_descending.
  - rewrite length_take. lia.
Qed.

Lemma save_keeps_greatest_witness :
  backups (save 1730000000007 "[]" sample_directory).2
  = take 5 (backups (<[backupPath 1730000000007 := File "{}"]> sample_directory))
  /\ StronglySorted (fun x y => String.le y x)
       (backups (<[backupPath 1730000000007 := File "{}"]> sample_directory))
  /\ (length (backups (save 1730000000007 "[]" sample_directory).2) <= 5)%nat.
Proof.
  apply (save_keeps_greatest 1730000000007 "[]" "{}" sample_directory
           (save 1730000000007 "[]" sample_directory).2).
  - vm_compute. reflexivity.
  - vm_compute. reflexivity.
Defined.

(** X7. Reading after saving: after a save that answered that the data
    was saved, the read handler serves what [JSON.parse] makes of the text
    that was saved, and changes nothing. Without a data file it answers
    404. *)
Theorem load_after_save {A} (JSON_parse : string -> completion A)
    (now : N) (text : string) (dir dir' : directory) :
  save now text dir = (Normal Saved, dir') ->
  load JSON_parse dir'
  = (Normal match JSON_parse text with
            | Normal data => Json data
            | Throw _ => ReadFailed
            end, dir')
  /\ load JSON_parse (delete DATA_FILE dir') = (Normal NotFound, delete DATA_FILE dir').
Proof.
  intros Hsave. pose proof (save_saved now text dir dir' Hsave) as Hsaved.
  split.
  - unfold load, Editor.try_catch, mbind, io_bind, mret, io_ret, existsSync, readFileSync, pure.
    cbv beta iota. rewrite bool_decide_eq_true_2 by eauto.
    cbv beta iota. rewrite Hsaved. destruct (JSON_parse text); reflexivity.
  - unfold load, Editor.try_catch, mbind, io_bind, mret, io_ret, existsSync. cbv beta iota.
    rewrite lookup_delete_eq. rewrite bool_decide_eq_false_2 by (intros [x Hx]; discriminate Hx).
    reflexivity.
Qed.

Lemma load_after_save_witness :
  load parse_number (save 1730000000007 "2024" sample_directory).2
  = (Normal match parse_number "2024" with
            | Normal data => Json data
            | Throw _ => ReadFailed
            end, (save 1730000000007 "2024" sample_directory).2)
  /\ load parse_number (delete DATA_FILE (save 1730000000007 "2024" sample_directory).2)
     = (Normal NotFound, delete DATA_FILE (save 1730000000007 "2024" sample_directory).2).
Proof.
  apply (load_after_save parse_number 1730000000007 "2024" sample_directory). vm_compute. reflexivity.
Defined.

(** ** Names of the PDF files *)

Import Names.

Lemma lower_char_plain c : is_white_space c = false -> plain_char (lower_char c) = true.
Proof.
  intros Hws. unfold plain_char, lower_char.
  destruct (is_upper c) eqn:Hup; [ | rewrite Hws, Hup; reflexivity ].
  revert Hws Hup. destruct c as [[] [] [] [] [] [] [] []]; vm_compute; congruence.
Qed.

Lemma lower_char_white_space c : is_white_space (lower_char c) = is_white_space c.
Proof. destruct c as [[] [] [] [] [] [] [] []]; vm_compute; reflexivity. Qed.

Lemma replace_runs_plain s : forall in_run,
  all_chars (fun c => is_white_space c || plain_char c) s = true ->
  all_chars plain_char (replace_runs in_run s) = true.
Proof.
  induction s as [ | c rest IH ]; intros in_run Hall; [ reflexivity | ].
  cbn [all_chars] in Hall. apply andb_true_iff in Hall as [Hc Hrest]. cbn [replace_runs].
  destruct (is_white_space c) eqn:Hws.
  - destruct in_run; [ auto | ]. cbn [all_chars]. rewrite (IH true Hrest). reflexivity.
  - cbn [orb] in Hc. cbn [all_chars]. rewrite Hc. exact (IH false Hrest).
Qed.

Lemma replace_runs_fixed s : forall in_run,
  all_chars no_white_space s = true -> replace_runs in_run s = s.
Proof.
  induction s as [ | c rest IH ]; intros in_run Hall; [ reflexivity | ].
  simpl in Hall. apply andb_true_iff in Hall as [Hc Hrest]. simpl.
  unfold no_white_space in Hc. apply negb_true_iff in Hc. rewrite Hc. f_equal. auto.
Qed.

Lemma toLowerCase_fixed s : all_chars plain_char s = true -> toLowerCase s = s.
Proof.
  induction s as [ | c rest IH ]; intros Hall; [ reflexivity | ].
  simpl in Hall. apply andb_true_iff in Hall as [Hc Hrest]. unfold toLowerCase. simpl.
  f_equal; [ | exact (IH Hrest) ].
  unfold plain_char in Hc. apply andb_true_iff in Hc as [_ Hup]. apply negb_true_iff in Hup.
  unfold lower_char. rewrite Hup. reflexivity.
Qed.

Lemma all_chars_impl (P Q : ascii -> bool) s :
  (forall c, P c = true -> Q c = true) -> all_chars P s = true -> all_chars Q s = true.
Proof.
  intros HPQ. induction s as [ | c rest IH ]; [ reflexivity | ]. simpl.
  intros H. apply andb_true_iff in H as [Hc Hrest]. rewrite (HPQ c Hc). auto.
Qed.

Lemma all_chars_app P s t : all_chars P (s ++ t)%string = all_chars P s && all_chars P t.
Proof.
  induction s as [ | c rest IH ]; [ reflexivity | ].
  rewrite append_cons. simpl. rewrite IH. apply andb_assoc.
Qed.

Lemma slug_plain s : all_chars plain_char (slug s) = true.
Proof.
  unfold slug. apply replace_runs_plain. unfold toLowerCase.
  induction s as [ | c rest IH ]; [ reflexivity | ]. simpl. rewrite IH, andb_true_r.
  destruct (is_white_space (lower_char c)) eqn:Hws; [ reflexivity | ].
  rewrite lower_char_white_space in Hws. simpl. exact (lower_char_plain c Hws).
Qed.

Lemma plain_no_white_space c : plain_char c = true -> no_white_space c = true.
Proof. unfold plain_char, no_white_space. intros H. apply andb_true_iff in H as [H _]. exact H. Qed.

(** X8. The name a PDF is served under has no white space in it, as long
    as the language code has none, and its part made from the person's name
    has no capital letter; making the name part again from itself changes
    nothing. *)
Theorem filename_no_white_space (data lang : value) (f : string) :
  all_chars no_white_space (ToString lang) = true ->
  filename data lang = Normal f ->
  all_chars no_white_space f = true
  /\ exists name, f = ("cv_" ++ name ++ "_" ++ ToString lang ++ ".pdf")%string
                  /\ all_chars plain_char name = true
                  /\ slug name = name.
Proof.
  intros Hlang Hf. unfold filename in Hf.
  destruct (personal_name data) as [v | e]; [ | discriminate Hf ].
  cbn [mbind completion_bind] in Hf.
  destruct (name_or_cv v) as [n | e] eqn:Hn; [ | discriminate Hf ].
  assert (Hname : exists s, n = slug s).
  { unfold name_or_cv in Hn. destruct (truthy v).
    - destruct v; try discriminate Hn. injection Hn as <-. eauto.
    - injection Hn as <-. eauto. }
  destruct Hname as [s ->].
  injection Hf as <-. pose proof (slug_plain s) as Hplain.
  assert (Hfixed : slug (slug s) = slug s).
  { unfold slug at 1. rewrite toLowerCase_fixed by exact Hplain.
    apply replace_runs_fixed, (all_chars_impl plain_char); [ exact plain_no_white_space | exact Hplain ]. }
  split; [ | eauto ].
  rewrite !all_chars_app, Hlang.
  rewrite (all_chars_impl plain_char no_white_space (slug s) plain_no_white_space Hplain).
  reflexivity.
Qed.

Lemma filename_no_white_space_witness :
  all_chars no_white_space "cv_ada_lovelace_nl.pdf" = true
  /\ exists name, "cv_ada_lovelace_nl.pdf" = ("cv_" ++ name ++ "_" ++ ToString (VStr "nl") ++ ".pdf")%string
                  /\ all_chars plain_char name = true
                  /\ slug name = name.
Proof. apply (filename_no_white_space ada (VStr "nl") "cv_ada_lovelace_nl.pdf"); reflexivity. Defined.

(** X9. For a document whose [personal.name] is a string that is not
    empty, the server (and the command line, which builds the name by the
    same expression) and the editor name the PDF alike. For the empty name
    they differ: the server falls back to [cv], the editor does not. *)
Theorem filename_download_agree (props personal : list (string * value)) (name : string)
    (lang : value) :
  get props "personal" = Some (VObj personal) ->
  get personal "name" = Some (VStr name) ->
  (name <> ""%string ->
   filename (VObj props) lang = Normal ("cv_" ++ slug name ++ "_" ++ ToString lang ++ ".pdf")%string
   /\ download (VObj props) lang = filename (VObj props) lang)
  /\ (name = ""%string ->
      filename (VObj props) lang = Normal ("cv_cv_" ++ ToString lang ++ ".pdf")%string
      /\ download (VObj props) lang = Normal ("cv__" ++ ToString lang ++ ".pdf")%string).
Proof.
  intros Hpersonal Hname.
  assert (Hdown : download (VObj props) lang
                  = Normal ("cv_" ++ slug name ++ "_" ++ ToString lang ++ ".pdf")%string).
  { unfold download, get_prop. rewrite Hpersonal. simpl. rewrite Hname. reflexivity. }
  assert (Hfile : filename (VObj props) lang
                  = name ← name_or_cv (VStr name);
                    mret ("cv_" ++ name ++ "_" ++ ToString lang ++ ".pdf")%string).
  { unfold filename, personal_name, get_prop. rewrite Hpersonal. simpl. rewrite Hname. reflexivity. }
  split.
  - intros Hne. rewrite Hdown, Hfile. unfold name_or_cv. simpl.
    destruct (String.eqb name "") eqn:E; [ apply String.eqb_eq in E; contradiction | ].
    split; reflexivity.
  - intros ->. rewrite Hdown, Hfile. split; reflexivity.
Qed.

Lemma filename_download_agree_witness :
  ("Ada  Lovelace" <> ""%string ->
   filename ada (VStr "en")
   = Normal ("cv_" ++ slug "Ada  Lovelace" ++ "_" ++ ToString (VStr "en") ++ ".pdf")%string
   /\ download ada (VStr "en") = filename ada (VStr "en"))
  /\ ("Ada  Lovelace" = ""%string ->
      filename ada (VStr "en") = Normal ("cv_cv_" ++ ToString (VStr "en") ++ ".pdf")%string
      /\ download ada (VStr "en") = Normal ("cv__" ++ ToString (VStr "en") ++ ".pdf")%string).
Proof.
  apply (filename_download_agree [("personal", VObj [("name", VStr "Ada  Lovelace")])]
           [("name", VStr "Ada  Lovelace")] "Ada  Lovelace" (VStr "en")); reflexivity.
Defined.

(** ** Renderer: the context of a template *)

Import Context.

Lemma groupPresentations_frame props result :
  groupPresentations (VObj props) = Normal result ->
  exists props', result = VObj props'
    /\ forall k, k <> "presentationsByYear" -> get props' k = get props k.
Proof.
  unfold groupPresentations. cbn [get_prop mbind completion_bind].
  destruct (truthy (default VUndefined (get props "presentations"))).
  - destruct (iterate _) as [items | e]; [ | discriminate ]. cbn [mbind completion_bind].
    destruct (group_loop items []) as [grouped | e]; [ | discriminate ]. cbn [mbind completion_bind].
    destruct (Array_sort by_year_desc (Object_keys grouped)) as [years | e]; [ | discriminate ].
    cbn [mbind completion_bind mret completion_ret set_member]. intros [= <-].
    eexists. split; [ reflexivity | ]. intros k Hk. apply get_set_prop_ne. congruence.
  - intros [= <-]. eauto.
Qed.

Lemma sortPublications_frame props result :
  sortPublications (VObj props) = Normal result ->
  exists props', result = VObj props'
    /\ forall k, k <> "publications" -> get props' k = get props k.
Proof.
  unfold sortPublications. cbn [get_prop mbind completion_bind].
  destruct (truthy (default VUndefined (get props "publications"))).
  - destruct (sort_category "books" _) as [p1 | e]; [ | discriminate ]. cbn [mbind completion_bind].
    destruct (sort_category "book_chapters" p1) as [p2 | e]; [ | discriminate ]. cbn [mbind completion_bind].
    destruct (sort_category "articles" p2) as [p3 | e]; [ | discriminate ].
    cbn [mbind completion_bind mret completion_ret set_member]. intros [= <-].
    eexists. split; [ reflexivity | ]. intros k Hk. apply get_set_prop_ne. congruence.
  - intros [= <-]. eauto.
Qed.

Lemma shape_frame props result :
  shape (VObj props) = Normal result ->
  exists props', result = VObj props'
    /\ forall k, k <> "presentationsByYear" -> k <> "publications" -> get props' k = get props k.
Proof.
  unfold shape. destruct (groupPresentations (VObj props)) as [grouped | e] eqn:Hg; [ | discriminate ].
  cbn [mbind completion_bind]. intros Hs.
  destruct (groupPresentations_frame _ _ Hg) as (props1 & -> & H1).
  destruct (sortPublications_frame _ _ Hs) as (props2 & -> & H2).
  exists props2. split; [ reflexivity | ]. intros k Hk1 Hk2. rewrite H2 by exact Hk2. apply H1, Hk1.
Qed.

Lemma translations_for_object props lang t :
  translations_for (VObj props) lang = Normal t ->
  (exists table, get props "translations" = Some (VObj table)
                 /\ t = match get table lang with
                        | Some t => if truthy t then t else default VUndefined (get table "en")
                        | None => default VUndefined (get table "en")
                        end)
  \/ ((forall table, get props "translations" <> Some (VObj table)) /\ t = VUndefined).
Proof.
  unfold translations_for, get_prop.
  destruct (get props "translations") as [ [ | | b | n | s | items | table] | ];
    simpl; try discriminate.
  1-4: intros [= <-]; right; split; [ intros table; discriminate | reflexivity ].
  intros Ht. left. exists table. split; [ reflexivity | ].
  destruct (get table lang) as [x | ]; simpl in Ht.
  - destruct (truthy x); injection Ht as <-; reflexivity.
  - injection Ht as <-. reflexivity.
Qed.

(** The context before the two shaping steps, for a document that is an
    object and not a language object itself. *)
Lemma renderContext_object props lang :
  Localizer.resolves props lang = None ->
  renderContext (VObj props) lang
  = t ← translations_for (VObj props) lang;
    visibility ← visibility_of (VObj props);
    shape (VObj (set_prop (set_prop (set_prop (set_prop (set_prop (set_prop
             (rebuild (fun v => Localizer.localizeData v lang) props [])
             "t" t) "lang" (VStr lang)) "visibility" visibility)
             "basePath" (VStr (basePath lang))) "altLang" (VStr (altLang lang)))
             "altLangLabel" (VStr (altLangLabel lang)))).
Proof.
  intros Hres. unfold renderContext. rewrite (localizeData_obj props lang Hres).
  destruct (translations_for (VObj props) lang); [ | reflexivity ].
  cbn [mbind completion_bind].
  destruct (visibility_of (VObj props)); reflexivity.
Qed.

(** X10. For [en] and [nl], and a document that is an object holding no
    string and no array under the language code (so that the localized
    document is an object too), the context [renderTemplate] hands to a
    template has the members [lang], [basePath], [altLang], [altLangLabel],
    [t] and [visibility] as the renderer computes them, whatever the
    document holds under these names: the language code; the empty path for [en] and [..] for [nl];
    the other language and its label; the translation table of the language,
    the English one where that is missing; the document's section settings,
    or an empty object. *)
Theorem renderContext_written (props : list (string * value)) (lang : string) (ctx : value) :
  lang ∈ LANGUAGES ->
  Localizer.resolves props lang = None ->
  renderContext (VObj props) lang = Normal ctx ->
  get_prop ctx "lang" = Normal (VStr lang)
  /\ get_prop ctx "basePath" = Normal (VStr (if String.eqb lang "en" then "" else ".."))
  /\ get_prop ctx "altLang" = Normal (VStr (if String.eqb lang "en" then "nl" else "en"))
  /\ get_prop ctx "altLangLabel"
     = Normal (VStr (if String.eqb lang "en" then "Nederlands" else "English"))
  /\ ((exists table, get props "translations" = Some (VObj table)
                     /\ get_prop ctx "t"
                        = Normal (match get table lang with
                                  | Some t => if truthy t then t else default VUndefined (get table "en")
                                  | None => default VUndefined (get table "en")
                                  end))
      \/ ((forall table, get props "translations" <> Some (VObj table))
          /\ get_prop ctx "t" = Normal VUndefined))
  /\ get_prop ctx "visibility"
     = Normal (match get props "sectionVisibility" with
               | Some v => if truthy v then v else VObj []
               | None => VObj []
               end).
Proof.
  intros _ Hres Hctx. rewrite (renderContext_object props lang Hres) in Hctx.
  destruct (translations_for (VObj props) lang) as [t | e] eqn:Ht; [ | discriminate Hctx ].
  cbn [mbind completion_bind] in Hctx.
  destruct (visibility_of (VObj props)) as [visibility | e] eqn:Hv; [ | discriminate Hctx ].
  cbn [mbind completion_bind] in Hctx.
  destruct (shape_frame _ _ Hctx) as (props' & -> & Hframe).
  assert (Hget : forall k, k <> "presentationsByYear" -> k <> "publications" ->
                 get_prop (VObj props') k
                 = Normal (default VUndefined
                     (get (set_prop (set_prop (set_prop (set_prop (set_prop (set_prop
                        (rebuild (fun v => Localizer.localizeData v lang) props [])
                        "t" t) "lang" (VStr lang)) "visibility" visibility)
                        "basePath" (VStr (basePath lang))) "altLang" (VStr (altLang lang)))
                        "altLangLabel" (VStr (altLangLabel lang))) k))).
  { intros k H1 H2. cbn [get_prop]. rewrite Hframe by assumption. reflexivity. }
  repeat split.
  - rewrite Hget by discriminate.
    rewrite !get_set_prop_ne by discriminate. rewrite get_set_prop_eq by discriminate. reflexivity.
  - rewrite Hget by discriminate.
    rewrite !get_set_prop_ne by discriminate. rewrite get_set_prop_eq by discriminate. reflexivity.
  - rewrite Hget by discriminate.
    rewrite !get_set_prop_ne by discriminate. rewrite get_set_prop_eq by discriminate. reflexivity.
  - rewrite Hget by discriminate. rewrite get_set_prop_eq by discriminate. reflexivity.
  - rewrite Hget by discriminate.
    rewrite !get_set_prop_ne by discriminate. rewrite get_set_prop_eq by discriminate. cbn [default from_option]. unfold id.
    destruct (translations_for_object _ _ _ Ht) as [ (table & Htable & ->) | (Hnone & ->) ].
    + left. exists table. split; [ exact Htable | reflexivity ].
    + right. split; [ exact Hnone | reflexivity ].
  - rewrite Hget by discriminate.
    rewrite !get_set_prop_ne by discriminate. rewrite get_set_prop_eq by discriminate. cbn [default from_option]. unfold id.
    unfold visibility_of in Hv. cbn [get_prop mbind completion_bind mret completion_ret] in Hv.
    injection Hv as <-. destruct (get props "sectionVisibility"); reflexivity.
Qed.

Lemma renderContext_written_witness :
  get_prop sample_context "lang" = Normal (VStr "nl")
  /\ get_prop sample_context "basePath" = Normal (VStr (if String.eqb "nl" "en" then "" else ".."))
  /\ get_prop sample_context "altLang" = Normal (VStr (if String.eqb "nl" "en" then "nl" else "en"))
  /\ get_prop sample_context "altLangLabel"
     = Normal (VStr (if String.eqb "nl" "en" then "Nederlands" else "English"))
  /\ ((exists table,
         get [("lang", VStr "fr");
              ("title", VObj [("en", VStr "Engineer"); ("nl", VStr "Ingenieur")]);
              ("translations", VObj [("en", VObj [("cv", VStr "Resume")])]);
              ("presentations", VArr [talk "Seminar" "2024"; talk "Keynote" "September 2025"])]
           "translations" = Some (VObj table)
         /\ get_prop sample_context "t"
            = Normal (match get table "nl" with
                      | Some t => if truthy t then t else default VUndefined (get table "en")
                      | None => default VUndefined (get table "en")
                      end))
      \/ ((forall table,
             get [("lang", VStr "fr");
                  ("title", VObj [("en", VStr "Engineer"); ("nl", VStr "Ingenieur")]);
                  ("translations", VObj [("en", VObj [("cv", VStr "Resume")])]);
                  ("presentations", VArr [talk "Seminar" "2024"; talk "Keynote" "September 2025"])]
               "translations" <> Some (VObj table))
          /\ get_prop sample_context "t" = Normal VUndefined))
  /\ get_prop sample_context "visibility"
     = Normal (match get [("lang", VStr "fr");
                          ("title", VObj [("en", VStr "Engineer"); ("nl", VStr "Ingenieur")]);
                          ("translations", VObj [("en", VObj [("cv", VStr "Resume")])]);
                          ("presentations", VArr [talk "Seminar" "2024"; talk "Keynote" "September 2025"])]
                         "sectionVisibility" with
               | Some v => if truthy v then v else VObj []
               | None => VObj []
               end).
Proof.
  apply (renderContext_written
           [("lang", VStr "fr");
            ("title", VObj [("en", VStr "Engineer"); ("nl", VStr "Ingenieur")]);
            ("translations", VObj [("en", VObj [("cv", VStr "Resume")])]);
            ("presentations", VArr [talk "Seminar" "2024"; talk "Keynote" "September 2025"])]
           "nl" sample_context).
  - unfold LANGUAGES. apply elem_of_cons. right. apply elem_of_cons. left. reflexivity.
  - reflexivity.
  - reflexivity.
Defined.

Example sample_context_members :
  sample_context
  = VObj [("lang", VStr "nl");
          ("title", VStr "Ingenieur");
          ("translations", VObj [("en", VObj [("cv", VStr "Resume")])]);
          ("presentations", VArr [talk "Seminar" "2024"; talk "Keynote" "September 2025"]);
          ("t", VObj [("cv", VStr "Resume")]);
          ("visibility", VObj []);
          ("basePath", VStr "..");
          ("altLang", VStr "en");
          ("altLangLabel", VStr "English");
          ("presentationsByYear",
           VArr [VObj [("year", VStr "2025"); ("items", VArr [talk "Keynote" "September 2025"])];
                 VObj [("year", VStr "2024"); ("items", VArr [talk "Seminar" "2024"])]])].
Proof. reflexivity. Qed.

(** X11. For [en] and [nl], and a document that is an object holding no
    string and no array under the language code, every member of the
    context but the eight of [written] is the member of the localized
    document: [renderTemplate] writes these eight names and nothing else. *)
Theorem renderContext_other_members (props : list (string * value)) (lang : string)
    (ctx : value) (k : string) :
  lang ∈ LANGUAGES ->
  Localizer.resolves props lang = None ->
  renderContext (VObj props) lang = Normal ctx ->
  k ∉ written ->
  get_prop ctx k = get_prop (Localizer.localizeData (VObj props) lang) k.
Proof.
  intros _ Hres Hctx Hk. rewrite (localizeData_obj props lang Hres).
  rewrite (renderContext_object props lang Hres) in Hctx.
  destruct (translations_for (VObj props) lang) as [t | e]; [ | discriminate Hctx ].
  cbn [mbind completion_bind] in Hctx.
  destruct (visibility_of (VObj props)) as [visibility | e]; [ | discriminate Hctx ].
  cbn [mbind completion_bind] in Hctx.
  destruct (shape_frame _ _ Hctx) as (props' & -> & Hframe).
  unfold written in Hk.
  assert (Hne : forall w, w ∈ written -> w <> k) by (intros w Hw ->; exact (Hk Hw)).
  cbn [get_prop]. rewrite Hframe.
  - rewrite !get_set_prop_ne; [ reflexivity | | | | | | ]; apply Hne; unfold written; set_solver.
  - intros ->. apply (Hne "presentationsByYear"); [ unfold written; set_solver | reflexivity ].
  - intros ->. apply (Hne "publications"); [ unfold written; set_solver | reflexivity ].
Qed.

Lemma renderContext_other_members_witness :
  get_prop sample_context "title"
  = get_prop (Localizer.localizeData
                (VObj [("lang", VStr "fr");
                       ("title", VObj [("en", VStr "Engineer"); ("nl", VStr "Ingenieur")]);
                       ("translations", VObj [("en", VObj [("cv", VStr "Resume")])]);
                       ("presentations", VArr [talk "Seminar" "2024"; talk "Keynote" "September 2025"])])
                "nl") "title".
Proof.
  apply (renderContext_other_members
           [("lang", VStr "fr");
            ("title", VObj [("en", VStr "Engineer"); ("nl", VStr "Ingenieur")]);
            ("translations", VObj [("en", VObj [("cv", VStr "Resume")])]);
            ("presentations", VArr [talk "Seminar" "2024"; talk "Keynote" "September 2025"])]
           "nl" sample_context "title").
  - unfold LANGUAGES. apply elem_of_cons. right. apply elem_of_cons. left. reflexivity.
  - reflexivity.
  - reflexivity.
  - unfold written. intros H.
    repeat (apply elem_of_cons in H as [H | H]; [ discriminate H | ]).
    apply elem_of_nil in H. exact H.
Defined.

(** X12. A document without a translation table cannot be rendered:
    [renderTemplate] throws a [TypeError] before it reaches the template
    engine, for every language. *)
Theorem renderContext_needs_translations (data : value) (lang : string) :
  no_translations data -> renderContext data lang = Throw TypeError.
Proof.
  intros Hno. unfold renderContext.
  assert (Ht : translations_for data lang = Throw TypeError).
  { unfold translations_for, get_prop. destruct data; try reflexivity.
    destruct (Hno props eq_refl) as [ -> | [ -> | -> ] ]; reflexivity. }
  rewrite Ht. reflexivity.
Qed.

Lemma renderContext_needs_translations_witness :
  renderContext (VObj [("personal", VObj [("name", VStr "Ada")])]) "en" = Throw TypeError.
Proof.
  apply (renderContext_needs_translations (VObj [("personal", VObj [("name", VStr "Ada")])]) "en").
  intros props [= <-]. left. reflexivity.
Defined.

(** ** Renderer: the groups in general *)

Lemma keys_set_prop {A} (p : list (string * A)) key v :
  key <> "__proto__" ->
  keys (set_prop p key v) = if existsb (String.eqb key) (keys p) then keys p else keys p ++ [key].
Proof.
  intros Hproto. unfold set_prop. apply String.eqb_neq in Hproto. rewrite Hproto.
  destruct (get p key) eqn:Hget.
  - assert (Hin : existsb (String.eqb key) (keys p) = true).
    { destruct (existsb (String.eqb key) (keys p)) eqn:E; [ reflexivity | ].
      apply get_None_keys in E. congruence. }
    rewrite Hin. apply keys_replace_prop.
  - apply get_None_keys in Hget. rewrite Hget. unfold keys. rewrite map_app. reflexivity.
Qed.

Lemma keys_add_to_group grouped year pres :
  year <> "__proto__" ->
  keys (add_to_group grouped year pres)
  = if existsb (String.eqb year) (keys grouped) then keys grouped else keys grouped ++ [year].
Proof.
  intros Hproto. unfold add_to_group. destruct (get grouped year) eqn:Hget.
  - apply keys_set_prop. exact Hproto.
  - rewrite !keys_set_prop by exact Hproto.
    pose proof Hget as Hnone. apply get_None_keys in Hnone. rewrite Hnone.
    rewrite existsb_app. simpl. rewrite String.eqb_refl, orb_true_r. reflexivity.
Qed.

Lemma existsb_eqb_elem_of key (names : list string) :
  existsb (String.eqb key) names = true <-> key ∈ names.
Proof.
  rewrite existsb_exists. split.
  - intros (x & Hin & E). apply String.eqb_eq in E. subst x. apply list_elem_of_In. exact Hin.
  - intros Hin. exists key. split; [ apply list_elem_of_In; exact Hin | apply String.eqb_refl ].
Qed.

(** What the loop does with one entry, by the key it files it under. *)
Lemma group_loop_step pres rest grouped :
  match group_of pres with
  | Some year =>
      year <> "__proto__"
      /\ group_loop (pres :: rest) grouped = group_loop rest (add_to_group grouped year pres)
  | None =>
      group_loop (pres :: rest) grouped = group_loop rest grouped
      \/ exists e, group_loop (pres :: rest) grouped = Throw e
  end.
Proof.
  rewrite group_loop_cons. unfold group_of.
  destruct (get_prop pres "visible") as [visible | e]; [ | right; eauto ].
  cbn [mbind completion_bind]. destruct (is_false visible); [ left; reflexivity | ].
  destruct (get_prop pres "date") as [date | e]; [ | right; eauto ].
  cbn [mbind completion_bind].
  destruct (yearMatch date) as [found | e] eqn:Hfound; [ | right; eauto ].
  split; [ exact (group_key_not_proto date found Hfound) | reflexivity ].
Qed.

Lemma group_loop_files entries : forall grouped grouped',
  group_loop entries grouped = Normal grouped' ->
  forall year,
    default [] (get grouped' year)
    = default [] (get grouped year) ++ List.filter (filed_under year) entries.
Proof.
  induction entries as [ | pres rest IH ]; intros grouped grouped' Hloop year.
  - injection Hloop as <-. rewrite app_nil_r. reflexivity.
  - pose proof (group_loop_step pres rest grouped) as Hstep.
    cbn [List.filter]. unfold filed_under at 1.
    destruct (group_of pres) as [y | ].
    + destruct Hstep as [Hproto Hstep]. rewrite Hstep in Hloop.
      rewrite (IH _ _ Hloop year).
      destruct (add_to_group_get grouped y pres Hproto) as [Hsame Hother].
      destruct (String.eqb y year) eqn:E.
      * apply String.eqb_eq in E. subst y. rewrite Hsame. cbn [default from_option]. unfold id.
        rewrite <- app_assoc. reflexivity.
      * apply String.eqb_neq in E. rewrite Hother by congruence. reflexivity.
    + destruct Hstep as [Hstep | [e Hstep] ]; rewrite Hstep in Hloop; [ | discriminate Hloop ].
      exact (IH _ _ Hloop year).
Qed.

Lemma group_loop_keys entries : forall grouped grouped',
  group_loop entries grouped = Normal grouped' ->
  (NoDup (keys grouped) -> NoDup (keys grouped'))
  /\ forall year, year ∈ keys grouped' <->
       year ∈ keys grouped \/ exists p, p ∈ entries /\ group_of p = Some year.
Proof.
  induction entries as [ | pres rest IH ]; intros grouped grouped' Hloop.
  - injection Hloop as <-. split; [ auto | ]. intros year. split; [ auto | ].
    intros [ H | (p & Hp & _) ]; [ exact H | apply elem_of_nil in Hp; contradiction ].
  - pose proof (group_loop_step pres rest grouped) as Hstep.
    destruct (group_of pres) as [y | ] eqn:Hy.
    + destruct Hstep as [Hproto Hstep]. rewrite Hstep in Hloop.
      destruct (IH _ _ Hloop) as [Hnd Hkeys].
      pose proof (keys_add_to_group grouped y pres Hproto) as Hadd.
      split.
      * intros H0. apply Hnd. rewrite Hadd.
        destruct (existsb (String.eqb y) (keys grouped)) eqn:E; [ exact H0 | ].
        apply NoDup_app. split; [ exact H0 | ]. split; [ | apply NoDup_singleton ].
        intros x Hx Hx'. apply list_elem_of_singleton in Hx'. subst x.
        apply existsb_eqb_elem_of in Hx. congruence.
      * intros year. rewrite Hkeys, Hadd. split.
        -- intros [ H | (p & Hp & Hg) ].
           ++ destruct (existsb (String.eqb y) (keys grouped)) eqn:E; [ left; exact H | ].
              apply elem_of_app in H as [ H | H ]; [ left; exact H | ].
              apply list_elem_of_singleton in H. subst year.
              right. exists pres. split; [ apply elem_of_cons; left; reflexivity | exact Hy ].
           ++ right. exists p. split; [ apply elem_of_cons; right; exact Hp | exact Hg ].
        -- intros [ H | (p & Hp & Hg) ].
           ++ left. destruct (existsb (String.eqb y) (keys grouped)); [ exact H | ].
              apply elem_of_app. left. exact H.
           ++ apply elem_of_cons in Hp as [ -> | Hp ]; [ | right; eauto ].
              left. rewrite Hy in Hg. injection Hg as ->.
              destruct (existsb (String.eqb year) (keys grouped)) eqn:E.
              ** apply existsb_eqb_elem_of. exact E.
              ** apply elem_of_app. right. apply list_elem_of_singleton. reflexivity.
    + destruct Hstep as [Hstep | [e Hstep] ]; rewrite Hstep in Hloop; [ | discriminate Hloop ].
      destruct (IH _ _ Hloop) as [Hnd Hkeys]. split; [ exact Hnd | ].
      intros year. rewrite Hkeys. split.
      * intros [ H | (p & Hp & Hg) ]; [ left; exact H | ].
        right. exists p. split; [ apply elem_of_cons; right; exact Hp | exact Hg ].
      * intros [ H | (p & Hp & Hg) ]; [ left; exact H | ].
        apply elem_of_cons in Hp as [ -> | Hp ]; [ congruence | right; eauto ].
Qed.

Lemma year_group_items grouped year :
  year_group grouped year
  = VObj [("year", VStr year); ("items", VArr (default [] (get grouped year)))].
Proof. reflexivity. Qed.

(** X13. The groups of [presentationsByYear] split the shown entries
    without loss or repetition and keep their order: there is one group for
    each key that some entry is filed under (its year, or [Other]), and the
    items of a group are the entries filed under its key, in the order of
    the document. *)
Theorem groups_keep_order (props : list (string * value)) (entries : list value)
    (result : value) :
  get props "presentations" = Some (VArr entries) ->
  groupPresentations (VObj props) = Normal result ->
  exists years,
    get_prop result "presentationsByYear"
    = Normal (VArr (map (fun year => VObj [("year", VStr year);
                                           ("items", VArr (List.filter (filed_under year) entries))])
                      years))
    /\ NoDup years
    /\ forall year, year ∈ years <-> exists p, p ∈ entries /\ group_of p = Some year.
Proof.
  intros Hget Hresult. rewrite (groupPresentations_array props entries Hget) in Hresult.
  destruct (group_loop entries []) as [grouped | e] eqn:Hloop; [ | discriminate Hresult ].
  cbn [mbind completion_bind] in Hresult.
  destruct (sort_years_perm (Object_keys grouped)) as (years & Hsort & Hperm).
  rewrite Hsort in Hresult. cbn [mbind completion_bind mret completion_ret] in Hresult.
  injection Hresult as <-.
  destruct (group_loop_keys _ _ _ Hloop) as [Hnd Hkeys].
  assert (Hyears : years ≡ₚ keys grouped) by (rewrite Hperm; apply Object_keys_perm).
  exists years. split; [ | split ].
  - cbn [get_prop]. rewrite get_set_prop_eq by discriminate. cbn [default from_option]. unfold id.
    do 2 f_equal. apply map_ext. intros year. rewrite year_group_items.
    rewrite (group_loop_files _ _ _ Hloop year). reflexivity.
  - rewrite Hyears. apply Hnd. constructor.
  - intros year. rewrite Hyears, Hkeys. split; [ | auto ].
    intros [ H | H ]; [ apply elem_of_nil in H; contradiction | exact H ].
Qed.

Lemma groups_keep_order_witness :
  exists years,
    get_prop (VObj [("presentations", sample_talks);
                    ("presentationsByYear",
                     VArr [VObj [("year", VStr "2025"); ("items", VArr [talk "Keynote" "September 2025"])];
                           VObj [("year", VStr "2024"); ("items", VArr [talk "Seminar" "2024"])]])])
      "presentationsByYear"
    = Normal (VArr (map (fun year =>
                           VObj [("year", VStr year);
                                 ("items",
                                  VArr (List.filter (filed_under year)
                                          [talk "Keynote" "September 2025";
                                           VObj [("title", VStr "Dry run"); ("date", VStr "June 2025");
                                                 ("visible", VBool false)];
                                           talk "Seminar" "2024"]))])
                      years))
    /\ NoDup years
    /\ forall year, year ∈ years <->
         exists p, p ∈ [talk "Keynote" "September 2025";
                        VObj [("title", VStr "Dry run"); ("date", VStr "June 2025");
                              ("visible", VBool false)];
                        talk "Seminar" "2024"]
                   /\ group_of p = Some year.
Proof.
  apply (groups_keep_order [("presentations", sample_talks)]); reflexivity.
Defined.

Lemma hidden_group_of p : hidden p -> group_of p = None.
Proof. unfold hidden, group_of. intros ->. reflexivity. Qed.

Lemma group_loop_returns entries : forall grouped,
  Forall (fun p => hidden p \/ dated p) entries ->
  exists grouped', group_loop entries grouped = Normal grouped'.
Proof.
  induction entries as [ | pres rest IH ]; intros grouped Hall; [ eexists; reflexivity | ].
  apply Forall_cons in Hall as [Hp Hrest].
  destruct Hp as [ Hhidden | (year & Hyear & _) ].
  - rewrite group_loop_cons. unfold hidden in Hhidden. rewrite Hhidden. exact (IH grouped Hrest).
  - pose proof (group_loop_step pres rest grouped) as Hstep. rewrite Hyear in Hstep.
    destruct Hstep as [_ ->]. exact (IH _ Hrest).
Qed.

Lemma year_key_value_inj a b :
  is_year_key a = true -> is_year_key b = true -> decimal_value a = decimal_value b -> a = b.
Proof.
  unfold is_year_key. intros Ha Hb Hv.
  apply andb_true_iff in Ha as [La Da]. apply andb_true_iff in Hb as [Lb Db].
  apply Nat.eqb_eq in La, Lb.
  apply String.compare_eq_iff. rewrite (digits_compare a b Da Db) by congruence.
  apply N.compare_eq_iff. exact Hv.
Qed.

Lemma by_year_desc_year_keys x y :
  is_year_key x = true -> is_year_key y = true ->
  exists b : bool, not_after by_year_desc x y = Normal b
                   /\ if b then (decimal_value y <= decimal_value x)%N
                      else (decimal_value x <= decimal_value y)%N.
Proof.
  intros Hx Hy. unfold not_after, by_year_desc.
  rewrite (ToNumber_year_key x Hx), (ToNumber_year_key y Hy).
  cbn [mbind completion_bind mret completion_ret sub order_of].
  destruct (Z.compare_spec (Z.of_N (decimal_value y) - Z.of_N (decimal_value x)) 0);
    eexists; (split; [ reflexivity | cbn beta iota; lia ]).
Qed.

Lemma sorted_strictly (years : list string) :
  Forall (fun y => is_year_key y = true) years ->
  NoDup years ->
  StronglySorted (fun a b => (decimal_value b <= decimal_value a)%N) years ->
  StronglySorted (fun a b => (decimal_value b < decimal_value a)%N) years.
Proof.
  intros Hkeys Hnd Hs. induction Hs as [ | a rest Hs IH Hall ]; [ constructor | ].
  apply Forall_cons in Hkeys as [Ha Hrest]. apply NoDup_cons in Hnd as [Hnotin Hnd].
  constructor; [ exact (IH Hrest Hnd) | ].
  rewrite Forall_forall in Hall, Hrest |- *. intros b Hb.
  specialize (Hall b Hb). specialize (Hrest b Hb).
  destruct (N.eq_dec (decimal_value b) (decimal_value a)) as [E | E]; [ | lia ].
  apply year_key_value_inj in E; [ | assumption | assumption ]. subst b. contradiction.
Qed.

(** X14. When every entry that is shown has a date with a year in it, the
    groups of [presentationsByYear] come in strictly descending order of
    the year, each year once. *)
Theorem groups_descending (props : list (string * value)) (entries : list value) :
  get props "presentations" = Some (VArr entries) ->
  Forall (fun p => hidden p \/ dated p) entries ->
  exists result years,
    groupPresentations (VObj props) = Normal result
    /\ get_prop result "presentationsByYear"
       = Normal (VArr (map (fun year => VObj [("year", VStr year);
                                              ("items", VArr (List.filter (filed_under year) entries))])
                         years))
    /\ Forall (fun year => is_year_key year = true) years
    /\ StronglySorted (fun a b => (decimal_value b < decimal_value a)%N) years.
Proof.
  intros Hget Hall.
  destruct (group_loop_returns entries [] Hall) as [grouped Hloop].
  destruct (group_loop_keys _ _ _ Hloop) as [Hnd Hkeys].
  assert (Hyearkeys : Forall (fun year => is_year_key year = true) (keys grouped)).
  { apply Forall_forall. intros year Hin. apply Hkeys in Hin as [ Hin | (p & Hp & Hg) ].
    - apply elem_of_nil in Hin. contradiction.
    - rewrite Forall_forall in Hall. destruct (Hall p Hp) as [ Hh | (y & Hy & Hkey) ].
      + rewrite (hidden_group_of p Hh) in Hg. discriminate Hg.
      + congruence. }
  assert (Hdom : Forall (fun year => is_year_key year = true) (Object_keys grouped))
    by (rewrite Object_keys_perm; exact Hyearkeys).
  destruct (Array_sort_spec by_year_desc (fun year => is_year_key year = true)
              (fun a b => (decimal_value b <= decimal_value a)%N)) with (Object_keys grouped)
    as (years & Hsort & Hperm & Hsorted).
  { intros x y z. lia. }
  { exact by_year_desc_year_keys. }
  { exact Hdom. }
  assert (Hyears : years ≡ₚ keys grouped) by (rewrite Hperm; apply Object_keys_perm).
  exists (VObj (set_prop props "presentationsByYear" (VArr (map (year_group grouped) years)))), years.
  split; [ | split; [ | split ] ].
  - rewrite (groupPresentations_array props entries Hget), Hloop.
    cbn [mbind completion_bind]. rewrite Hsort. reflexivity.
  - cbn [get_prop]. rewrite get_set_prop_eq by discriminate. cbn [default from_option]. unfold id.
    do 2 f_equal. apply map_ext. intros year. rewrite year_group_items.
    rewrite (group_loop_files _ _ _ Hloop year). reflexivity.
  - rewrite Hyears. exact Hyearkeys.
  - apply sorted_strictly; [ rewrite Hyears; exact Hyearkeys | | exact Hsorted ].
    rewrite Hyears. apply Hnd. constructor.
Qed.

Lemma groups_descending_witness :
  exists result years,
    groupPresentations (VObj [("presentations", sample_talks)]) = Normal result
    /\ get_prop result "presentationsByYear"
       = Normal (VArr (map (fun year =>
                              VObj [("year", VStr year);
                                    ("items",
                                     VArr (List.filter (filed_under year)
                                             [talk "Keynote" "September 2025";
                                              VObj [("title", VStr "Dry run"); ("date", VStr "June 2025");
                                                    ("visible", VBool false)];
                                              talk "Seminar" "2024"]))])
                         years))
    /\ Forall (fun year => is_year_key year = true) years
    /\ StronglySorted (fun a b => (decimal_value b < decimal_value a)%N) years.
Proof.
  apply (groups_descending [("presentations", sample_talks)]); [ reflexivity | ].
  apply Forall_cons. split; [ right; exists "2025"; split; reflexivity | ].
  apply Forall_cons. split; [ left; reflexivity | ].
  apply Forall_cons. split; [ right; exists "2024"; split; reflexivity | ].
  apply Forall_nil. exact I.
Defined.

(** ** Renderer: the order of publications of one year *)

Lemma insert_sorted_filter n x sorted sorted' :
  (exists m, has_year x m) ->
  Forall (fun y => exists m, has_year y m) sorted ->
  insert_sorted sortByYear x sorted = Normal sorted' ->
  List.filter (year_is n) sorted' = List.filter (year_is n) (x :: sorted).
Proof.
  intros Hx Hall. revert sorted'. induction Hall as [ | y rest Hy Hrest IH ]; intros sorted' Hins.
  - injection Hins as <-. reflexivity.
  - cbn [insert_sorted] in Hins.
    destruct Hx as [nx [Hnx Hbx]]. destruct Hy as [ny [Hny Hby]].
    assert (Hcmp : not_after sortByYear x y = Normal (negb (nx <? ny))).
    { unfold not_after, sortByYear. rewrite Hnx, Hny.
      cbn [mbind completion_bind mret completion_ret sub order_of].
      destruct (Z.compare_spec (ny - nx) 0), (Z.ltb_spec nx ny); try lia; reflexivity. }
    rewrite Hcmp in Hins. cbn [mbind completion_bind] in Hins.
    destruct (Z.ltb_spec nx ny) as [Hlt | Hge]; cbn [negb] in Hins.
    + destruct (insert_sorted sortByYear x rest) as [rest' | e] eqn:Hrest'; [ | discriminate Hins ].
      injection Hins as <-. cbn [List.filter].
      rewrite (IH rest' eq_refl). cbn [List.filter].
      assert (Hyx : year_of x = nx) by (unfold year_of; rewrite Hnx; reflexivity).
      assert (Hyy : year_of y = ny) by (unfold year_of; rewrite Hny; reflexivity).
      unfold year_is. rewrite Hyx, Hyy.
      destruct (Z.eqb_spec nx n), (Z.eqb_spec ny n); try reflexivity. lia.
    + injection Hins as <-. reflexivity.
Qed.

Lemma Array_sort_filter n items : forall sorted,
  Forall (fun y => exists m, has_year y m) items ->
  Array_sort sortByYear items = Normal sorted ->
  List.filter (year_is n) sorted = List.filter (year_is n) items.
Proof.
  induction items as [ | x rest IH ]; intros sorted Hall Hsort.
  - injection Hsort as <-. reflexivity.
  - apply Forall_cons in Hall as [Hx Hrest]. cbn [Array_sort] in Hsort.
    destruct (Array_sort sortByYear rest) as [sorted0 | e] eqn:Hs0; [ | discriminate Hsort ].
    cbn [mbind completion_bind] in Hsort.
    assert (Hall0 : Forall (fun y => exists m, has_year y m) sorted0).
    { destruct (Array_sort_spec sortByYear (fun x => exists n, has_year x n) by_year_descending)
        with rest as (s & Hs & Hperm & _).
      - unfold by_year_descending. intros; lia.
      - apply sortByYear_has_year.
      - exact Hrest.
      - rewrite Hs in Hs0. injection Hs0 as <-. rewrite Hperm. exact Hrest. }
    rewrite (insert_sorted_filter n x sorted0 sorted Hx Hall0 Hsort).
    cbn [List.filter]. rewrite (IH sorted0 Hrest eq_refl). reflexivity.
Qed.

Lemma Array_sort_sorted items :
  Forall (fun y => exists m, has_year y m) items ->
  StronglySorted by_year_descending items ->
  Array_sort sortByYear items = Normal items.
Proof.
  intros Hall Hs. induction Hs as [ | x rest Hs IH Hle ]; [ reflexivity | ].
  apply Forall_cons in Hall as [Hx Hrest]. cbn [Array_sort]. rewrite (IH Hrest).
  cbn [mbind completion_bind]. destruct rest as [ | y rest' ]; [ reflexivity | ].
  cbn [insert_sorted].
  apply Forall_cons in Hrest as [Hy _]. apply Forall_cons in Hle as [Hxy _].
  destruct Hx as [nx [Hnx _]]. destruct Hy as [ny [Hny _]].
  unfold by_year_descending, year_of in Hxy. rewrite Hnx, Hny in Hxy.
  unfold not_after, sortByYear. rewrite Hnx, Hny.
  cbn [mbind completion_bind mret completion_ret sub order_of].
  destruct (Z.compare_spec (ny - nx) 0); try reflexivity. lia.
Qed.

(** X15. The sort of a category list is stable: entries of the same year
    come out in the order they had in the document, for every year; and
    sorting the sorted list again changes nothing. *)
Theorem sortByYear_stable (items : list value) :
  Forall (fun x => exists n, has_year x n) items ->
  exists sorted,
    sort_values sortByYear items = Normal sorted
    /\ sorted_copy items sorted
    /\ (forall n, List.filter (year_is n) sorted = List.filter (year_is n) items)
    /\ sort_values sortByYear sorted = Normal sorted.
Proof.
  intros Hall. destruct (sort_values_sortByYear items Hall) as (sorted & Hsort & Hcopy).
  exists sorted. split; [ exact Hsort | split; [ exact Hcopy | ] ].
  pose proof Hsort as Hsort'. unfold sort_values in Hsort'.
  destruct (filter_defined items Hall) as [Hdef Hundef]. rewrite Hdef, Hundef in Hsort'.
  destruct (Array_sort sortByYear items) as [s | e] eqn:Hs; [ | discriminate Hsort' ].
  cbn [mbind completion_bind mret completion_ret] in Hsort'. rewrite app_nil_r in Hsort'.
  injection Hsort' as ->. destruct Hcopy as [Hperm Hsorted].
  assert (Hall' : Forall (fun x => exists n, has_year x n) sorted) by (rewrite Hperm; exact Hall).
  split.
  - intros n. exact (Array_sort_filter n items sorted Hall Hs).
  - unfold sort_values. destruct (filter_defined sorted Hall') as [-> ->].
    rewrite (Array_sort_sorted sorted Hall' Hsorted).
    cbn [mbind completion_bind mret completion_ret]. rewrite app_nil_r. reflexivity.
Qed.

Lemma sortByYear_stable_witness :
  exists sorted,
    sort_values sortByYear [book_2020; book_undated; book_2023; VObj [("year", VStr "2020")]]
    = Normal sorted
    /\ sorted_copy [book_2020; book_undated; book_2023; VObj [("year", VStr "2020")]] sorted
    /\ (forall n, List.filter (year_is n) sorted
                  = List.filter (year_is n)
                      [book_2020; book_undated; book_2023; VObj [("year", VStr "2020")]])
    /\ sort_values sortByYear sorted = Normal sorted.
Proof.
  apply (sortByYear_stable [book_2020; book_undated; book_2023; VObj [("year", VStr "2020")]]).
  do 4 (constructor; [ eexists; split; [ reflexivity | vm_compute; discriminate ] | ]).
  constructor.
Defined.

(** ** Localizer: the members of an object that is not a language object *)

Lemma distinct_app_fresh (names rest : list string) k :
  distinct (names ++ k :: rest) = true -> existsb (String.eqb k) names = false.
Proof.
  induction names as [ | x xs IH ]; [ reflexivity | ].
  simpl. intros Hd. apply andb_prop in Hd as [Hx Hd]. rewrite (IH Hd), orb_false_r.
  rewrite existsb_app in Hx. simpl in Hx. rewrite String.eqb_sym.
  destruct (String.eqb x k); [ | reflexivity ].
  rewrite orb_true_r in Hx. discriminate.
Qed.

Lemma rebuild_map f entries : forall result,
  distinct (keys result ++ keys entries) = true ->
  existsb (String.eqb "__proto__") (keys entries) = false ->
  rebuild f entries result = result ++ map (fun kv => (kv.1, f kv.2)) entries.
Proof.
  induction entries as [ | [k v] rest IH ]; intros result Hd Hp; simpl.
  - symmetry. apply app_nil_r.
  - simpl in Hp. apply orb_false_elim in Hp as [Hk Hp].
    assert (Hfresh : get result k = None).
    { apply get_None_keys. exact (distinct_app_fresh _ _ _ Hd). }
    unfold set_prop. rewrite String.eqb_sym, Hk, Hfresh.
    rewrite IH.
    + rewrite <- app_assoc. reflexivity.
    + unfold keys in *. rewrite map_app. simpl. rewrite <- app_assoc. exact Hd.
    + exact Hp.
Qed.

Lemma keys_map_members (f : value -> value) (props : list (string * value)) :
  keys (map (fun kv => (kv.1, f kv.2)) props) = keys props.
Proof. unfold keys. rewrite map_map. reflexivity. Qed.

Lemma resolves_well_formed props lang v :
  forallb (fun '(_, x) => well_formed x) props = true ->
  Localizer.resolves props lang = Some v -> well_formed v = true.
Proof.
  intros Hvals Hres. unfold Localizer.resolves in Hres.
  assert (Hget : forall x, get props lang = Some x -> well_formed x = true).
  { clear Hres. induction props as [ | [k x] rest IH ]; intros y; simpl; [ discriminate | ].
    simpl in Hvals. apply andb_prop in Hvals as [Hx Hrest].
    destruct (String.eqb k lang); [ intros [= <-]; exact Hx | exact (IH Hrest y) ]. }
  destruct (get props lang) as [ [ | | | | s | items | ] | ]; try discriminate Hres;
    injection Hres as <-; [ reflexivity | exact (Hget _ eq_refl) ].
Qed.

Lemma localizeData_object_members props lang :
  well_formed (VObj props) = true ->
  Localizer.resolves props lang = None ->
  Localizer.localizeData (VObj props) lang
  = VObj (map (fun kv => (kv.1, Localizer.localizeData kv.2 lang)) props).
Proof.
  intros Hwf Hres. rewrite (localizeData_obj _ _ Hres). f_equal.
  simpl in Hwf. apply andb_prop in Hwf as [Hwf _]. apply andb_prop in Hwf as [Hdist Hproto].
  apply negb_true_iff in Hproto.
  exact (rebuild_map (fun v => Localizer.localizeData v lang) props [] Hdist Hproto).
Qed.

(** X16. On a document whose objects have distinct member names, none of
    them [__proto__], an object that is not a language object comes out
    with the same member names in the same order, each member localized; and
    the localized document is again such a document. *)
Theorem localizeData_members (d : value) (lang : string) :
  well_formed d = true ->
  well_formed (Localizer.localizeData d lang) = true
  /\ forall props, d = VObj props -> Localizer.resolves props lang = None ->
       Localizer.localizeData d lang
       = VObj (map (fun kv => (kv.1, Localizer.localizeData kv.2 lang)) props).
Proof.
  intros Hwf. split; [ | intros props -> Hres; exact (localizeData_object_members props lang Hwf Hres) ].
  induction d as [ | | b | n | s | items IH | props IH ] using value_ind; try reflexivity.
  - simpl in *. induction IH as [ | x xs Hx _ IHxs ]; [ reflexivity | ].
    simpl in *. apply andb_prop in Hwf as [Hw1 Hw2]. rewrite (Hx Hw1), (IHxs Hw2). reflexivity.
  - destruct (Localizer.resolves props lang) as [v | ] eqn:Hres.
    + simpl in Hwf. apply andb_prop in Hwf as [_ Hvals].
      simpl. rewrite Hres. exact (resolves_well_formed props lang v Hvals Hres).
    + rewrite (localizeData_object_members props lang Hwf Hres).
      simpl in Hwf. apply andb_prop in Hwf as [Hwf Hvals]. apply andb_prop in Hwf as [Hdist Hproto].
      set (props' := map (fun kv => (kv.1, Localizer.localizeData kv.2 lang)) props).
      assert (Hkeys : keys props' = keys props)
        by exact (keys_map_members (fun v => Localizer.localizeData v lang) props).
      change (distinct (keys props') && negb (existsb (String.eqb "__proto__") (keys props'))
              && forallb (fun '(_, x) => well_formed x) props' = true).
      rewrite Hkeys, Hdist, Hproto. cbn [andb]. unfold props'.
      clear Hres Hdist Hproto Hkeys props'.
      induction IH as [ | [k x] xs Hx _ IHxs ]; [ reflexivity | ].
      simpl in Hvals. apply andb_prop in Hvals as [Hw1 Hw2].
      cbn [map forallb fst snd]. cbn [snd] in Hx. rewrite (Hx Hw1), (IHxs Hw2). reflexivity.
Qed.

Lemma localizeData_members_witness :
  well_formed (Localizer.localizeData sample_cv "en") = true
  /\ forall props, sample_cv = VObj props -> Localizer.resolves props "en" = None ->
       Localizer.localizeData sample_cv "en"
       = VObj (map (fun kv => (kv.1, Localizer.localizeData kv.2 "en")) props).
Proof. apply (localizeData_members sample_cv "en"). reflexivity. Defined.

(** ** Localizer over a store: a call only allocates *)

(** X17. In a store where the argument reads as a document, a call of
    [localizeData] returns, for every fuel from some fuel on; the arrays and
    objects that were there before the call are all unchanged after it (the
    store has only grown), the argument still reads as the same document,
    and the result reads as the localized document. *)
Theorem localizeData_only_allocates (lang : string) (st : store) (r : ref) (d : value) :
  represents st r d ->
  exists fuel, forall fuel', (fuel <= fuel')%nat ->
  exists r' st',
    Store.localizeData fuel' r lang st = Some (r', st')
    /\ st `prefix_of` st'
    /\ represents st' r d
    /\ represents st' r' (Localizer.localizeData d lang).
Proof.
  intros Hrep. destruct (localizeData_refines_at lang d st r Hrep) as [fuel Hfuel].
  exists fuel. intros fuel' Hle.
  destruct (Hfuel fuel' Hle st (grows_refl st)) as (r' & st' & Hrun & Hreads).
  pose proof (localizeData_grows _ _ _ _ _ _ Hrun) as Hgrows.
  exists r', st'. split; [ exact Hrun | split; [ | split ] ].
  - apply grows_prefix. exact Hgrows.
  - exact (represents_grows _ _ _ _ Hrep Hgrows).
  - apply Hreads. intros l _. reflexivity.
Qed.

Lemma localizeData_only_allocates_witness :
  exists fuel, forall fuel', (fuel <= fuel')%nat ->
  exists r' st',
    Store.localizeData fuel' (RRef 1%nat) "en" sample_store = Some (r', st')
    /\ sample_store `prefix_of` st'
    /\ represents st' (RRef 1%nat)
         (VObj [("en", VArr [VStr "chess"; VStr "rowing"]); ("nl", VStr "schaken en roeien")])
    /\ represents st' r'
         (Localizer.localizeData
            (VObj [("en", VArr [VStr "chess"; VStr "rowing"]); ("nl", VStr "schaken en roeien")]) "en").
Proof.
  apply (localizeData_only_allocates "en" sample_store (RRef 1%nat)
           (VObj [("en", VArr [VStr "chess"; VStr "rowing"]); ("nl", VStr "schaken en roeien")])).
  eapply rep_obj; [ reflexivity | ].
  repeat constructor; simpl.
  eapply rep_arr; [ reflexivity | ]. repeat constructor.
Defined.

(** ** Exporter: a failure after the launch *)

(** X18. When the engine is there and the browser starts, and one of the
    operations between the launch and [browser.close] fails, each of the
    three exports throws and [browser.close] is never asked for: the browser
    it launched is left open. *)
Theorem export_failure_leaves_browser (world : engine) (pdf_of : string -> string)
    (html out base : string) (o : operation) :
  world Require 0%nat = None ->
  world Launch 0%nat = None ->
  o ∈ [NewPage; SetViewport; SetContent; FontsReady; Settle; Pdf] ->
  is_Some (world o 0%nat) ->
  (exists message fx,
      Lib.generatePDF world pdf_of html out base start = (Thrown message, fx)
      /\ Launch ∈ asked fx /\ Close ∉ asked fx)
  /\ (exists message fx,
         Lib.generatePDFBuffer world pdf_of html base start = (Thrown message, fx)
         /\ Launch ∈ asked fx /\ Close ∉ asked fx)
  /\ (exists message fx,
         Cli.generatePDF world pdf_of html out base start = (Thrown message, fx)
         /\ Launch ∈ asked fx /\ Close ∉ asked fx).
Proof.
  intros Hrequire Hlaunch Ho [message Hfails].
  assert (Hsome : exists o', o' ∈ [NewPage; SetViewport; SetContent; FontsReady; Settle; Pdf]
                             /\ world o' 0%nat <> None) by (exists o; split; [ exact Ho | congruence ]).
  clear o message Ho Hfails.
  unfold Lib.generatePDF, Lib.generatePDFBuffer, Cli.generatePDF, print_page,
    Exporter.try_catch, ask, throw, exit, print, start, mbind, run_bind, mret, run_ret.
  repeat split; each_operation world;
    first [ solve [ eexists _, _; split; [ reflexivity | ];
                    split; apply (bool_decide_unpack _); vm_compute; exact I ]
          | solve [ exfalso;
                    match goal with
                    | H : world Require _ = Some ?m |- _ =>
                        change (world Require 0%nat = Some m) in H; congruence
                    | H : world Launch _ = Some ?m |- _ =>
                        change (world Launch 0%nat = Some m) in H; congruence
                    end ]
          | exfalso; destruct Hsome as (o' & Ho' & Hne);
            repeat (apply elem_of_cons in Ho' as [ -> | Ho' ]; [ contradiction | ]);
            apply elem_of_nil in Ho'; exact Ho' ].
Qed.

Lemma export_failure_leaves_browser_witness :
  (exists message fx,
      Lib.generatePDF (fun o _ => match o with Pdf => Some "Protocol error" | _ => None end)
        (fun html => html) "<p>cv</p>" "cv.pdf" "/srv" start = (Thrown message, fx)
      /\ Launch ∈ asked fx /\ Close ∉ asked fx)
  /\ (exists message fx,
         Lib.generatePDFBuffer (fun o _ => match o with Pdf => Some "Protocol error" | _ => None end)
           (fun html => html) "<p>cv</p>" "/srv" start = (Thrown message, fx)
         /\ Launch ∈ asked fx /\ Close ∉ asked fx)
  /\ (exists message fx,
         Cli.generatePDF (fun o _ => match o with Pdf => Some "Protocol error" | _ => None end)
           (fun html => html) "<p>cv</p>" "cv.pdf" "/srv" start = (Thrown message, fx)
         /\ Launch ∈ asked fx /\ Close ∉ asked fx).
Proof.
  apply (export_failure_leaves_browser
           (fun o _ => match o with Pdf => Some "Protocol error" | _ => None end)
           (fun html => html) "<p>cv</p>" "cv.pdf" "/srv" Pdf).
  - reflexivity.
  - reflexivity.
  - apply (bool_decide_unpack _). vm_compute. exact I.
  - eexists. reflexivity.
Defined.

(** ** The command line *)

Import CommandLine.

Lemma parse_outcome args : forall o fx,
  (exists o', parse args o fx = (Returned o', fx)
              /\ (langs o <> [] -> langs o' <> [])
              /\ (Forall (fun arg => is_flag ["--lang"; "-l"] arg = false) args ->
                  langs o' = langs o)
              /\ (None ∈ langs o' ->
                  None ∈ langs o
                  \/ exists flag, last args = Some flag /\ is_flag ["--lang"; "-l"] flag = true))
  \/ parse args o fx
     = (Exited 0, {| asked := asked fx; printed := printed fx ++ [help] |}).
Proof.
  induction args as [args IH] using (induction_ltof1 _ (@length string)). unfold ltof in IH.
  intros o fx. destruct args as [ | arg rest ]; [ left; exists o; auto | ].
  cbn [parse]. destruct (takes_value arg) eqn:Htakes.
  - assert (Hset : forall value, (langs o <> [] -> langs (set_option arg value o) <> [])
                                 /\ (is_flag ["--lang"; "-l"] arg = false ->
                                     langs (set_option arg value o) = langs o)
                                 /\ (None ∈ langs (set_option arg value o) ->
                                     None ∈ langs o
                                     \/ (value = None /\ is_flag ["--lang"; "-l"] arg = true))).
    { intros value. unfold set_option.
      destruct (is_flag ["--data"; "-d"] arg) eqn:E1; [ cbn; auto | ].
      destruct (is_flag ["--template"; "-t"] arg) eqn:E2; [ cbn; auto | ].
      destruct (is_flag ["--output"; "-o"] arg) eqn:E3; [ cbn; auto | ].
      assert (Hlang : is_flag ["--lang"; "-l"] arg = true).
      { unfold takes_value, is_flag in *. cbn [existsb] in *.
        destruct (String.eqb arg "--data"), (String.eqb arg "-d"), (String.eqb arg "--template"),
          (String.eqb arg "-t"), (String.eqb arg "--output"), (String.eqb arg "-o"),
          (String.eqb arg "--lang"), (String.eqb arg "-l"); cbn in *; congruence. }
      cbn [langs]. split; [ | split ].
      - intros _ H. apply (f_equal length) in H. rewrite length_app in H. cbn in H. lia.
      - intros Hl. congruence.
      - intros Hin. apply elem_of_app in Hin as [Hin | Hin]; [ left; exact Hin | right ].
        apply list_elem_of_singleton in Hin. split; [ congruence | exact Hlang ]. }
    destruct rest as [ | value after ].
    + left. exists (set_option arg None o). split; [ reflexivity | ].
      destruct (Hset None) as (H1 & H2 & H3). split; [ exact H1 | split ].
      * intros Hall. apply Forall_cons in Hall as [Harg _]. exact (H2 Harg).
      * intros Hin. destruct (H3 Hin) as [Hold | [_ Hflag]]; [ left; exact Hold | right ].
        exists arg. split; [ reflexivity | exact Hflag ].
    + destruct (IH after ltac:(cbn; lia) (set_option arg (Some value) o) fx)
        as [ (o' & Hrun & Hne & Hsame & Hnone) | Hexit ]; [ left | right; exact Hexit ].
      destruct (Hset (Some value)) as (H1 & H2 & H3).
      exists o'. split; [ exact Hrun | split; [ | split ] ].
      * intros H. apply Hne, H1, H.
      * intros Hall. apply Forall_cons in Hall as [Harg Hall]. apply Forall_cons in Hall as [_ Hall].
        rewrite (Hsame Hall). exact (H2 Harg).
      * intros Hin. destruct (Hnone Hin) as [Hold | (flag & Hlast & Hflag)].
        -- destruct (H3 Hold) as [Hold' | [Hvalue _]]; [ left; exact Hold' | discriminate Hvalue ].
        -- right. exists flag. split; [ | exact Hflag ].
           destruct after; [ discriminate Hlast | exact Hlast ].
  - assert (Hlast : forall flag, last rest = Some flag -> last (arg :: rest) = Some flag).
    { intros flag H. destruct rest; [ discriminate H | exact H ]. }
    destruct (is_flag ["--html"] arg).
    + destruct (IH rest ltac:(cbn; lia)
                  {| data := data o; template := template o; output := output o;
                     html := true; langs := langs o |} fx)
        as [ (o' & Hrun & Hne & Hsame & Hnone) | Hexit ]; [ left | right; exact Hexit ].
      exists o'. split; [ exact Hrun | split; [ exact Hne | split ] ].
      * intros Hall. apply Forall_cons in Hall as [_ Hall]. exact (Hsame Hall).
      * intros Hin. destruct (Hnone Hin) as [Hold | (flag & Hl & Hflag)]; [ left; exact Hold | right ].
        exists flag. split; [ exact (Hlast flag Hl) | exact Hflag ].
    + destruct (is_flag ["--help"; "-h"] arg); [ right; reflexivity | ].
      destruct (IH rest ltac:(cbn; lia) o fx)
        as [ (o' & Hrun & Hne & Hsame & Hnone) | Hexit ]; [ left | right; exact Hexit ].
      exists o'. split; [ exact Hrun | split; [ exact Hne | split ] ].
      * intros Hall. apply Forall_cons in Hall as [_ Hall]. exact (Hsame Hall).
      * intros Hin. destruct (Hnone Hin) as [Hold | (flag & Hl & Hflag)]; [ left; exact Hold | right ].
        exists flag. split; [ exact (Hlast flag Hl) | exact Hflag ].
Qed.

(** X19. Whatever the arguments, [parseArgs] either prints the help and
    ends the process with status 0, or returns options and prints nothing.
    The list of languages it returns is never empty; an entry of it is
    [undefined] only when the last argument is [--lang] or [-l], which then
    has no value after it; without a [--lang] or [-l] among the arguments
    the list is [en] alone. *)
Theorem parseArgs_languages (args : list string) (fx : effects) :
  (exists o, parseArgs args fx = (Returned o, fx)
             /\ langs o <> []
             /\ (None ∈ langs o ->
                 exists flag, last args = Some flag /\ is_flag ["--lang"; "-l"] flag = true)
             /\ (Forall (fun arg => is_flag ["--lang"; "-l"] arg = false) args ->
                 langs o = [Some "en"]))
  \/ parseArgs args fx = (Exited 0, {| asked := asked fx; printed := printed fx ++ [help] |}).
Proof.
  unfold parseArgs, mbind, run_bind.
  destruct (parse_outcome args initial fx) as [ (o & -> & _ & Hsame & Hnone) | -> ];
    [ left | right; reflexivity ].
  cbn [mret run_ret]. eexists. split; [ reflexivity | split; [ | split ] ].
  - destruct (langs o) eqn:E; cbn; [ discriminate | rewrite E; discriminate ].
  - intros Hin.
    assert (Hin' : None ∈ langs o).
    { destruct (langs o) eqn:E; cbn [langs] in Hin; [ | rewrite E in Hin; exact Hin ].
      apply list_elem_of_singleton in Hin. discriminate Hin. }
    destruct (Hnone Hin') as [Hold | Hflag]; [ | exact Hflag ].
    cbn in Hold. apply elem_of_nil in Hold. contradiction.
  - intros Hall. rewrite (Hsame Hall). reflexivity.
Qed.

Lemma parse_lang_flags codes : forall o fx,
  parse (lang_flags codes) o fx
  = (Returned {| data := data o; template := template o; output := output o; html := html o;
                 langs := langs o ++ map Some codes |}, fx).
Proof.
  induction codes as [ | code rest IH ]; intros o fx.
  - cbn. rewrite app_nil_r. destruct o; reflexivity.
  - cbn [lang_flags flat_map app parse]. change (takes_value "-l") with true. cbn iota.
    fold (lang_flags rest). rewrite IH.
    change (set_option "-l" (Some code) o)
      with {| data := data o; template := template o; output := output o; html := html o;
              langs := langs o ++ [Some code] |}.
    cbn [data template output html langs map]. rewrite <- app_assoc. reflexivity.
Qed.

(** X20. Languages given by repeated [-l] are kept in the order given,
    repetitions included, and nothing else is set. *)
Theorem parseArgs_lang_flags (codes : list string) (fx : effects) :
  codes <> [] ->
  parseArgs (lang_flags codes) fx
  = (Returned {| data := None; template := None; output := None; html := false;
                 langs := map Some codes |}, fx).
Proof.
  intros Hne. unfold parseArgs, mbind, run_bind. rewrite parse_lang_flags. cbn.
  destruct codes; [ contradiction | reflexivity ].
Qed.

Lemma parseArgs_lang_flags_witness :
  parseArgs ["-l"; "en"; "-l"; "nl"] start
  = (Returned {| data := None; template := None; output := None; html := false;
                 langs := [Some "en"; Some "nl"] |}, start).
Proof. apply (parseArgs_lang_flags ["en"; "nl"] start). discriminate. Defined.

Example parseArgs_edges :
  (parseArgs ["--data"; "--html"] start).1
  = Returned {| data := Some "--html"; template := None; output := None; html := false;
                langs := [Some "en"] |}
  /\ (parseArgs ["--html"; "--lang"] start).1
     = Returned {| data := None; template := None; output := None; html := true; langs := [None] |}
  /\ (parseArgs ["-o"; "out.pdf"; "-h"; "-l"; "nl"] start).1 = Exited 0.
Proof. repeat split. Qed.

(** ** The editor in the browser: the lists of authors *)

Import Client.

Lemma split_comma_app a : forall rest,
  all_chars no_comma a = true ->
  split_comma (a ++ rest)%string
  = let '(first, others) := split_comma rest in ((a ++ first)%string, others).
Proof.
  induction a as [ | c a IH ]; intros rest Hall.
  - change (split_comma rest = let '(first, others) := split_comma rest in (first, others)).
    destruct (split_comma rest). reflexivity.
  - cbn [all_chars] in Hall. apply andb_true_iff in Hall as [Hc Ha].
    rewrite append_cons. cbn [split_comma]. rewrite (IH rest Ha).
    destruct (split_comma rest) as [first others].
    unfold no_comma in Hc. apply negb_true_iff in Hc. rewrite Hc. reflexivity.
Qed.

Lemma split_app_comma a rest :
  all_chars no_comma a = true ->
  split (a ++ String "," rest)%string = a :: split rest.
Proof.
  intros Hall. unfold split. rewrite (split_comma_app a _ Hall). cbn [split_comma].
  destruct (split_comma rest) as [first others]. cbn. rewrite append_nil_r. reflexivity.
Qed.

Lemma split_no_comma a : all_chars no_comma a = true -> split a = [a].
Proof.
  intros Hall. unfold split. rewrite <- (append_nil_r a) at 1.
  rewrite (split_comma_app a "" Hall). cbn. rewrite append_nil_r. reflexivity.
Qed.

Lemma trim_space a : trim (String " " a) = trim a.
Proof. reflexivity. Qed.

Lemma join_strings sep names : join sep (map VStr names) = String.concat sep names.
Proof. unfold join. rewrite map_map. cbn. rewrite map_id. reflexivity. Qed.

Lemma split_concat (p : string) names :
  all_chars no_comma p = true ->
  names <> [] ->
  Forall clean_name names ->
  map trim (split (p ++ String.concat ", " names)%string)
  = match names with
    | [] => []
    | first :: others => trim (p ++ first)%string :: others
    end.
Proof.
  intros Hp Hne Hall. revert p Hp. induction Hall as [ | a rest Ha Hrest IH ]; intros p Hp;
    [ contradiction | ].
  destruct Ha as (_ & Hcomma & Htrim).
  assert (Hpa : all_chars no_comma (p ++ a) = true) by (rewrite all_chars_app, Hp, Hcomma; reflexivity).
  destruct rest as [ | b rest ].
  - cbn [String.concat]. rewrite (split_no_comma _ Hpa). reflexivity.
  - change (String.concat ", " (a :: b :: rest))
      with (a ++ String "," (String " " (String.concat ", " (b :: rest))))%string.
    rewrite <- append_assoc. rewrite (split_app_comma _ _ Hpa).
    cbn [map]. f_equal.
    change (String " " (String.concat ", " (b :: rest)))
      with (" " ++ String.concat ", " (b :: rest))%string.
    rewrite (IH ltac:(discriminate) " " eq_refl).
    f_equal. apply Forall_cons in Hrest as [(_ & _ & Hb) _].
    change (" " ++ b)%string with (String " " b). rewrite trim_space. exact Hb.
Qed.

Lemma names_of_concat names :
  Forall clean_name names -> names_of (String.concat ", " names) = names.
Proof.
  intros Hall. unfold names_of. destruct names as [ | a rest ]; [ reflexivity | ].
  change (String.concat ", " (a :: rest)) with ("" ++ String.concat ", " (a :: rest))%string.
  rewrite (split_concat "" (a :: rest) eq_refl ltac:(discriminate) Hall).
  change ("" ++ a)%string with a.
  pose proof Hall as Hall'. apply Forall_cons in Hall' as [(_ & _ & Ha) _]. rewrite Ha.
  clear Ha. induction Hall as [ | b more (Hb & _ & _) _ IH ]; [ reflexivity | ].
  cbn [List.filter]. apply String.eqb_neq in Hb. rewrite Hb. cbn [negb]. f_equal. exact IH.
Qed.

(** X21. The text the editor shows for a list of authors reads back as
    the same list: joining the names with a comma and a space and parsing
    the text gives the names again, when no name is empty, holds a comma, or
    starts or ends with white space. A publication opened in the editor and
    given back its own text is left as it was. *)
Theorem parseAuthors_joined (props : list (string * value)) (names : list string) :
  get props "authors" = Some (VArr (map VStr names)) ->
  Forall clean_name names ->
  names_of (join ", " (map VStr names)) = names
  /\ forall pub, prepare_pub (VObj props) = Normal pub ->
       exists text, get_prop pub "authorsStr" = Normal (VStr text)
                    /\ parseAuthors pub text = pub.
Proof.
  intros Hget Hall. rewrite join_strings.
  pose proof (names_of_concat names Hall) as Hnames. split; [ exact Hnames | ].
  intros pub Hpub. unfold prepare_pub in Hpub. cbn [get_prop mbind completion_bind] in Hpub.
  rewrite Hget in Hpub. cbn [default from_option] in Hpub. unfold id in Hpub.
  rewrite join_strings in Hpub. cbn [set_member get_prop mbind completion_bind] in Hpub.
  set (text := String.concat ", " names) in *.
  set (props1 := set_prop props "authorsStr" (VStr text)) in *.
  assert (H1 : get props1 "authorsStr" = Some (VStr text)) by (apply get_set_prop_eq; discriminate).
  assert (H2 : get props1 "authors" = Some (VArr (map VStr names))).
  { unfold props1. rewrite get_set_prop_ne by discriminate. exact Hget. }
  assert (Hsame : forall props2,
             get props2 "authorsStr" = Some (VStr text) ->
             get props2 "authors" = Some (VArr (map VStr names)) ->
             exists text', get_prop (VObj props2) "authorsStr" = Normal (VStr text')
                           /\ parseAuthors (VObj props2) text' = VObj props2).
  { intros props2 Ha Hb. exists text. cbn [get_prop]. rewrite Ha. split; [ reflexivity | ].
    unfold parseAuthors. cbn [set_member]. f_equal. rewrite Hnames.
    assert (Hfix : forall (p : list (string * value)) key v,
               key <> "__proto__" -> get p key = Some v -> set_prop p key v = p).
    { intros p key v Hproto Hp. unfold set_prop. apply String.eqb_neq in Hproto.
      rewrite Hproto, Hp. clear Hproto. induction p as [ | [k x] rest IHp ]; [ discriminate Hp | ].
      cbn [get replace_prop] in *. destruct (String.eqb k key) eqn:E.
      - injection Hp as ->. reflexivity.
      - f_equal. exact (IHp Hp). }
    rewrite (Hfix props2 "authors") by (discriminate || exact Hb).
    apply Hfix; [ discriminate | exact Ha ]. }
  destruct (default VUndefined (get props1 "editors")) as [ | | | | | items | ] eqn:He;
    cbn [mret completion_ret] in Hpub; injection Hpub as <-; try (apply Hsame; assumption).
  cbn [set_member]. apply Hsame; rewrite get_set_prop_ne by discriminate; assumption.
Qed.

Lemma parseAuthors_joined_witness :
  names_of (join ", " (map VStr ["A. Lovelace"; "C. Babbage"])) = ["A. Lovelace"; "C. Babbage"]
  /\ forall pub, prepare_pub (VObj sample_pub) = Normal pub ->
       exists text, get_prop pub "authorsStr" = Normal (VStr text)
                    /\ parseAuthors pub text = pub.
Proof.
  apply (parseAuthors_joined sample_pub ["A. Lovelace"; "C. Babbage"]); [ reflexivity | ].
  repeat constructor; discriminate.
Defined.

Example names_of_edges :
  names_of "" = []
  /\ names_of " A. Lovelace ,, C. Babbage," = ["A. Lovelace"; "C. Babbage"]
  /\ names_of (join ", " [VStr "Lovelace, A."]) = ["Lovelace"; "A."].
Proof. repeat split. Qed.

(** ** The editor in the browser: what is sent to the server *)

Lemma get_filter_ne {A} (props : list (string * A)) key key' :
  key' <> key ->
  get (List.filter (fun kv => negb (String.eqb kv.1 key)) props) key' = get props key'.
Proof.
  intros Hne. induction props as [ | [k x] rest IH ]; [ reflexivity | ].
  cbn [List.filter fst]. destruct (String.eqb k key) eqn:E; cbn [negb get].
  - apply String.eqb_eq in E. subst k.
    destruct (String.eqb key key') eqn:E'; [ apply String.eqb_eq in E'; congruence | exact IH ].
  - rewrite IH. reflexivity.
Qed.

Lemma get_filter_eq {A} (props : list (string * A)) key :
  get (List.filter (fun kv => negb (String.eqb kv.1 key)) props) key = None.
Proof.
  induction props as [ | [k x] rest IH ]; [ reflexivity | ].
  cbn [List.filter fst]. destruct (String.eqb k key) eqn:E; cbn [negb get]; [ exact IH | ].
  rewrite E. exact IH.
Qed.

Lemma filter_absent {A} (props : list (string * A)) key :
  get props key = None -> List.filter (fun kv => negb (String.eqb kv.1 key)) props = props.
Proof.
  induction props as [ | [k x] rest IH ]; [ reflexivity | ].
  cbn [get List.filter fst]. destruct (String.eqb k key); [ discriminate | ].
  intros H. cbn [negb]. f_equal. exact (IH H).
Qed.

Lemma clean_pub_no_helper pub pub' : clean_pub pub = Normal pub' -> no_helper_strings pub'.
Proof.
  unfold clean_pub, delete_prop.
  destruct pub as [ | | b | n | s | items | members ]; cbn [mbind completion_bind];
    try discriminate; intros [= <-] p [= <-].
  split; [ | apply get_filter_eq ].
  rewrite get_filter_ne by discriminate. apply get_filter_eq.
Qed.

Lemma each_Forall (f : value -> completion value) (P : value -> Prop) items : forall items',
  (forall x x', f x = Normal x' -> P x') ->
  each f items = Normal items' -> Forall P items'.
Proof.
  induction items as [ | x rest IH ]; intros items' Hf Heach.
  - injection Heach as <-. constructor.
  - cbn [each] in Heach. destruct (f x) as [x' | e] eqn:Hx; [ | discriminate Heach ].
    cbn [mbind completion_bind] in Heach.
    destruct (each f rest) as [rest' | e] eqn:Hrest; [ | discriminate Heach ].
    injection Heach as <-. constructor; [ exact (Hf x x' Hx) | exact (IH rest' Hf eq_refl) ].
Qed.

(** What a pass over one list leaves, for a document that has the list. *)
Lemma on_type_cases f data type data' :
  on_type f data type = Normal data' ->
  data' = data
  /\ (forall pubs, get_prop data "publications" = Normal (VObj pubs) ->
                   truthy (default VUndefined (get pubs type)) = false)
  \/ exists props pubs items items',
       data = VObj props
       /\ get props "publications" = Some (VObj pubs)
       /\ get pubs type = Some (VArr items)
       /\ each f items = Normal items'
       /\ data' = VObj (set_prop props "publications" (VObj (set_prop pubs type (VArr items')))).
Proof.
  unfold on_type. destruct (get_prop data "publications") as [publications | e] eqn:Hp;
    [ | discriminate ].
  cbn [mbind completion_bind].
  destruct (get_prop publications type) as [list | e] eqn:Hl; [ | discriminate ].
  cbn [mbind completion_bind]. destruct (truthy list) eqn:Ht.
  - destruct list; try discriminate. cbn [forEach mbind completion_bind].
    destruct (each f items) as [items' | e] eqn:He; [ | discriminate ].
    cbn [mbind completion_bind mret completion_ret]. intros [= <-]. right.
    destruct publications as [ | | | | | | pubs ]; try discriminate Hl.
    destruct data as [ | | | | | | props ]; try discriminate Hp.
    cbn [get_prop] in Hp, Hl. exists props, pubs, items, items'.
    destruct (get props "publications") as [ v | ] eqn:Hgp; [ | discriminate Hp ].
    destruct (get pubs type) as [ w | ] eqn:Hgt; [ | discriminate Hl ].
    cbn [default from_option] in Hp, Hl. unfold id in Hp, Hl.
    injection Hp as ->. injection Hl as ->. repeat split; assumption.
  - intros [= <-]. left. split; [ reflexivity | ].
    intros pubs [= ->]. cbn [get_prop] in Hl. injection Hl as ->. exact Ht.
Qed.

Lemma on_types_clean types : forall data cleaned,
  ~ "__proto__" ∈ types ->
  on_types clean_pub types data = Normal cleaned ->
  forall done,
    (forall pubs type items,
        get_prop data "publications" = Normal (VObj pubs) -> type ∈ done ->
        get pubs type = Some (VArr items) -> Forall no_helper_strings items) ->
    forall pubs type items,
      get_prop cleaned "publications" = Normal (VObj pubs) -> type ∈ done ++ types ->
      get pubs type = Some (VArr items) -> Forall no_helper_strings items.
Proof.
  induction types as [ | t rest IH ]; intros data cleaned Hproto Hrun done Hdone.
  - injection Hrun as <-. rewrite app_nil_r. exact Hdone.
  - cbn [on_types] in Hrun. destruct (on_type clean_pub data t) as [data1 | e] eqn:Hstep;
      [ | discriminate Hrun ].
    cbn [mbind completion_bind] in Hrun.
    assert (Ht : t <> "__proto__") by (intros ->; apply Hproto, elem_of_cons; left; reflexivity).
    assert (Hrest : ~ "__proto__" ∈ rest) by (intros H; apply Hproto, elem_of_cons; right; exact H).
    intros pubs type items Hpubs Hin Hget.
    replace (done ++ t :: rest) with ((done ++ [t]) ++ rest) in Hin by (rewrite <- app_assoc; reflexivity).
    refine (IH data1 cleaned Hrest Hrun (done ++ [t]) _ pubs type items Hpubs Hin Hget).
    clear pubs type items Hpubs Hin Hget. intros pubs type items Hpubs Hin Hget.
    destruct (on_type_cases _ _ _ _ Hstep)
      as [ [-> Hnone] | (props & pubs0 & items0 & items' & -> & Hgp & Hgt & Heach & ->) ].
    + apply elem_of_app in Hin as [ Hin | Hin ]; [ exact (Hdone pubs type items Hpubs Hin Hget) | ].
      apply list_elem_of_singleton in Hin. subst type. exfalso.
      specialize (Hnone pubs Hpubs). rewrite Hget in Hnone. discriminate Hnone.
    + cbn [get_prop] in Hpubs. rewrite get_set_prop_eq in Hpubs by discriminate.
      cbn [default from_option] in Hpubs. unfold id in Hpubs. injection Hpubs as <-.
      destruct (String.eqb_spec t type) as [ <- | Hne ].
      * rewrite get_set_prop_eq in Hget by exact Ht. injection Hget as <-.
        exact (each_Forall clean_pub no_helper_strings items0 items' clean_pub_no_helper Heach).
      * rewrite get_set_prop_ne in Hget by exact Hne.
        apply elem_of_app in Hin as [ Hin | Hin ];
          [ | apply list_elem_of_singleton in Hin; congruence ].
        apply (Hdone pubs0 type items); [ | exact Hin | exact Hget ].
        cbn [get_prop]. rewrite Hgp. reflexivity.
Qed.

(** X22. What the editor sends to the server holds no helper string: in
    the cleaned document, no publication of the lists [books],
    [book_chapters], [articles] and [reports] has a member [authorsStr] or
    [editorsStr]. *)
Theorem cleanData_no_helper_strings (data cleaned : value) (pubs : list (string * value))
    (type : string) (items : list value) :
  cleanData data = Normal cleaned ->
  get_prop cleaned "publications" = Normal (VObj pubs) ->
  type ∈ publication_types ->
  get pubs type = Some (VArr items) ->
  Forall no_helper_strings items.
Proof.
  unfold cleanData. destruct (JSON_clone data) as [copy | e]; [ | discriminate ].
  cbn [mbind completion_bind]. intros Hrun Hpubs Hin Hget.
  refine (on_types_clean publication_types copy cleaned _ Hrun [] _ pubs type items Hpubs Hin Hget).
  - unfold publication_types. intros H.
    repeat (apply elem_of_cons in H as [ H | H ]; [ discriminate H | ]).
    apply elem_of_nil in H. exact H.
  - intros ? ? ? _ H. apply elem_of_nil in H. contradiction.
Qed.

Lemma cleanData_no_helper_strings_witness :
  Forall no_helper_strings [VObj [("title", VStr "Notes"); ("editors", VArr [])]].
Proof.
  apply (cleanData_no_helper_strings sample_edited (VObj sample_loaded) sample_lists "articles").
  - reflexivity.
  - reflexivity.
  - unfold publication_types. apply (bool_decide_unpack _). vm_compute. exact I.
  - reflexivity.
Defined.

(** ** The editor in the browser: opening and saving *)

Lemma set_prop_same {A} (p : list (string * A)) key v :
  get p key = Some v -> set_prop p key v = p.
Proof.
  intros Hp. unfold set_prop. destruct (String.eqb key "__proto__"); [ reflexivity | ].
  rewrite Hp. induction p as [ | [k x] rest IH ]; [ discriminate Hp | ].
  cbn [get replace_prop] in *. destruct (String.eqb k key) eqn:E.
  - injection Hp as ->. reflexivity.
  - f_equal. exact (IH Hp).
Qed.

Lemma replace_prop_twice {A} (p : list (string * A)) key a b :
  replace_prop (replace_prop p key a) key b = replace_prop p key b.
Proof.
  induction p as [ | [k x] rest IH ]; [ reflexivity | ].
  cbn [replace_prop]. destruct (String.eqb k key) eqn:E; cbn [replace_prop]; rewrite E.
  - reflexivity.
  - f_equal. exact IH.
Qed.

Lemma get_replace_prop {A} (p : list (string * A)) key v :
  get p key <> None -> get (replace_prop p key v) key = Some v.
Proof.
  induction p as [ | [k x] rest IH ]; [ intros H; contradiction | ].
  cbn [get replace_prop]. destruct (String.eqb k key) eqn:E; cbn [get]; rewrite E; auto.
Qed.

Lemma set_prop_twice {A} (p : list (string * A)) key a b :
  get p key <> None -> set_prop (set_prop p key a) key b = set_prop p key b.
Proof.
  intros Hp. unfold set_prop. destruct (String.eqb key "__proto__"); [ reflexivity | ].
  destruct (get p key) eqn:Hget; [ | contradiction ].
  rewrite get_replace_prop by (rewrite Hget; discriminate).
  apply replace_prop_twice.
Qed.

Lemma keys_set_prop_present {A} (p : list (string * A)) key v :
  get p key <> None -> keys (set_prop p key v) = keys p.
Proof.
  intros Hp. unfold set_prop. destruct (String.eqb key "__proto__"); [ reflexivity | ].
  destruct (get p key); [ apply keys_replace_prop | contradiction ].
Qed.

(** Two objects with the same distinct names, and the same member under
    each name, are the same. *)
Lemma members_ext {A} (p : list (string * A)) : forall q,
  keys p = keys q -> distinct (keys p) = true ->
  (forall k, get p k = get q k) -> p = q.
Proof.
  induction p as [ | [k x] rest IH ]; intros q Hkeys Hd Hget.
  - destruct q; [ reflexivity | discriminate Hkeys ].
  - destruct q as [ | [k' x'] rest' ]; [ discriminate Hkeys | ].
    cbn [keys map fst] in Hkeys. injection Hkeys as <- Hkeys.
    cbn [keys map fst distinct] in Hd. apply andb_prop in Hd as [Hfresh Hd].
    apply negb_true_iff in Hfresh.
    pose proof (Hget k) as Hk. cbn [get] in Hk. rewrite String.eqb_refl in Hk. injection Hk as <-.
    f_equal. apply IH; [ exact Hkeys | exact Hd | ].
    intros k0. specialize (Hget k0). cbn [get] in Hget.
    destruct (String.eqb k k0) eqn:E; [ | exact Hget ].
    apply String.eqb_eq in E. subst k0.
    assert (H1 : get rest k = None) by (apply get_None_keys; exact Hfresh).
    assert (H2 : get rest' k = None).
    { apply get_None_keys. unfold keys in *. rewrite <- Hkeys. exact Hfresh. }
    congruence.
Qed.

Lemma on_types_spec f types : forall props pubs data',
  get props "publications" = Some (VObj pubs) ->
  ~ "__proto__" ∈ types -> NoDup types ->
  on_types f types (VObj props) = Normal data' ->
  exists pubs',
    data' = VObj (set_prop props "publications" (VObj pubs'))
    /\ keys pubs' = keys pubs
    /\ forall k,
         (k ∉ types -> get pubs' k = get pubs k)
         /\ (k ∈ types ->
             match get pubs k with
             | Some (VArr items) =>
                 exists items', each f items = Normal items' /\ get pubs' k = Some (VArr items')
             | other => get pubs' k = other /\ truthy (default VUndefined other) = false
             end).
Proof.
  induction types as [ | t rest IH ]; intros props pubs data' Hpubs Hproto Hnd Hrun.
  - injection Hrun as <-. exists pubs. split; [ | split; [ reflexivity | ] ].
    + rewrite (set_prop_same props "publications" (VObj pubs) Hpubs). reflexivity.
    + intros k. split; [ reflexivity | ]. intros H. apply elem_of_nil in H. contradiction.
  - cbn [on_types] in Hrun. destruct (on_type f (VObj props) t) as [data1 | e] eqn:Hstep;
      [ | discriminate Hrun ].
    cbn [mbind completion_bind] in Hrun.
    assert (Ht : t <> "__proto__") by (intros ->; apply Hproto, elem_of_cons; left; reflexivity).
    assert (Hrest : ~ "__proto__" ∈ rest) by (intros H; apply Hproto, elem_of_cons; right; exact H).
    apply NoDup_cons in Hnd as [Hnotin Hnd].
    destruct (on_type_cases _ _ _ _ Hstep)
      as [ [-> Hnone] | (props0 & pubs0 & items0 & items' & Heq & Hgp & Hgt & Heach & ->) ].
    + destruct (IH props pubs data' Hpubs Hrest Hnd Hrun) as (pubs' & -> & Hkeys & Hgets).
      exists pubs'. split; [ reflexivity | split; [ exact Hkeys | ] ].
      intros k. destruct (Hgets k) as [Hout Hin]. split.
      * intros Hk. apply Hout. intros H. apply Hk, elem_of_cons. right. exact H.
      * intros Hk. apply elem_of_cons in Hk as [ -> | Hk ]; [ | exact (Hin Hk) ].
        rewrite (Hout Hnotin).
        assert (Hfalse : truthy (default VUndefined (get pubs t)) = false)
          by (apply Hnone; cbn [get_prop]; rewrite Hpubs; reflexivity).
        destruct (get pubs t) as [ [ | | | | | items | ] | ] eqn:E; try (split; [ reflexivity | exact Hfalse ]).
        discriminate Hfalse.
    + injection Heq as <-. rewrite Hpubs in Hgp. injection Hgp as <-.
      set (pubs1 := set_prop pubs t (VArr items')) in *.
      set (props1 := set_prop props "publications" (VObj pubs1)) in *.
      assert (Hpubs1 : get props1 "publications" = Some (VObj pubs1))
        by (apply get_set_prop_eq; discriminate).
      destruct (IH props1 pubs1 data' Hpubs1 Hrest Hnd Hrun) as (pubs' & -> & Hkeys & Hgets).
      exists pubs'. split; [ | split ].
      * unfold props1. rewrite set_prop_twice by (rewrite Hpubs; discriminate). reflexivity.
      * rewrite Hkeys. unfold pubs1. apply keys_set_prop_present. rewrite Hgt. discriminate.
      * intros k. destruct (Hgets k) as [Hout Hin]. split.
        -- intros Hk. rewrite Hout by (intros H; apply Hk, elem_of_cons; right; exact H).
           unfold pubs1. apply get_set_prop_ne. intros ->. apply Hk, elem_of_cons. left. reflexivity.
        -- intros Hk. apply elem_of_cons in Hk as [ -> | Hk ].
           ++ rewrite Hgt. exists items'. split; [ exact Heach | ].
              rewrite (Hout Hnotin). unfold pubs1. apply get_set_prop_eq. exact Ht.
           ++ specialize (Hin Hk). unfold pubs1 in Hin.
              rewrite get_set_prop_ne in Hin by (intros ->; contradiction). exact Hin.
Qed.

Lemma on_types_returns f types : forall props pubs,
  get props "publications" = Some (VObj pubs) ->
  ~ "__proto__" ∈ types -> NoDup types ->
  (forall k, k ∈ types ->
     match get pubs k with
     | Some (VArr items) => exists items', each f items = Normal items'
     | Some v => truthy v = false
     | None => True
     end) ->
  exists data', on_types f types (VObj props) = Normal data'.
Proof.
  induction types as [ | t rest IH ]; intros props pubs Hpubs Hproto Hnd Hok;
    [ eexists; reflexivity | ].
  assert (Ht : t <> "__proto__") by (intros ->; apply Hproto, elem_of_cons; left; reflexivity).
  assert (Hrest : ~ "__proto__" ∈ rest) by (intros H; apply Hproto, elem_of_cons; right; exact H).
  apply NoDup_cons in Hnd as [Hnotin Hnd].
  cbn [on_types]. unfold on_type. cbn [get_prop mbind completion_bind]. rewrite Hpubs.
  cbn [default from_option get_prop mbind completion_bind]. unfold id.
  cbn [get_prop mbind completion_bind].
  pose proof (Hok t ltac:(apply elem_of_cons; left; reflexivity)) as Hthis.
  assert (Hothers : forall pubs1, (forall k, k <> t -> get pubs1 k = get pubs k) ->
             forall k, k ∈ rest ->
               match get pubs1 k with
               | Some (VArr items) => exists items', each f items = Normal items'
               | Some v => truthy v = false
               | None => True
               end).
  { intros pubs1 Hsame k Hk. rewrite Hsame by (intros ->; contradiction).
    apply Hok, elem_of_cons. right. exact Hk. }
  destruct (get pubs t) as [ v | ] eqn:Hgt; cbn [default from_option]; unfold id.
  - destruct (truthy v) eqn:Htruthy.
    + destruct v as [ | | | | | items | ]; cbn beta iota in Hthis; try discriminate Hthis.
      destruct Hthis as [items' Heach]. cbn beta iota. cbn [forEach mbind completion_bind]. rewrite Heach.
      cbn [mbind completion_bind mret completion_ret set_member].
      apply (IH _ (set_prop pubs t (VArr items'))); [ apply get_set_prop_eq; discriminate | exact Hrest | exact Hnd | ].
      apply Hothers. intros k Hk. apply get_set_prop_ne. congruence.
    + cbn beta iota. cbn [mret completion_ret mbind completion_bind].
      apply (IH props pubs Hpubs Hrest Hnd). apply Hothers. reflexivity.
  - cbn [truthy]. cbn beta iota. cbn [mret completion_ret mbind completion_bind].
    apply (IH props pubs Hpubs Hrest Hnd). apply Hothers. reflexivity.
Qed.

Lemma plain_json v : json_value v = true -> plain v = v.
Proof.
  induction v as [ | | b | n | s | items IH | props IH ] using value_ind; intros Hj; try reflexivity.
  - cbn [plain]. f_equal. cbn [json_value] in Hj.
    induction IH as [ | x xs Hx _ IHxs ]; [ reflexivity | ].
    cbn [forallb] in Hj. apply andb_prop in Hj as [H1 H2]. cbn [map].
    rewrite (IHxs H2). rewrite (Hx H1). destruct x; try reflexivity. discriminate H1.
  - cbn [plain]. f_equal. cbn [json_value] in Hj.
    induction IH as [ | [k x] xs Hx _ IHxs ]; [ reflexivity | ].
    cbn [forallb snd] in Hj. apply andb_prop in Hj as [H1 H2].
    rewrite (IHxs H2). cbn [snd] in Hx. rewrite (Hx H1). destruct x; try reflexivity. discriminate H1.
Qed.

(** One publication: the helper strings go on last and come off again. *)
Lemma clean_prepare_pub pub pub1 :
  no_helper_strings pub ->
  prepare_pub pub = Normal pub1 ->
  clean_pub pub1 = Normal pub /\ (json_value pub = true -> json_value pub1 = true).
Proof.
  intros Hno Hprep. unfold prepare_pub in Hprep.
  destruct pub as [ | | b | n | s | items | props ]; try discriminate Hprep;
    try (injection Hprep as <-; split; [ reflexivity | auto ]).
  destruct (Hno props eq_refl) as [Ha He].
  cbn [get_prop mbind completion_bind] in Hprep.
  assert (Hadd : forall (p : list (string * value)) key v,
             key <> "__proto__" -> get p key = None -> set_prop p key v = p ++ [(key, v)]).
  { intros p key v Hproto Hp. unfold set_prop. apply String.eqb_neq in Hproto.
    rewrite Hproto, Hp. reflexivity. }
  assert (Hclean : forall extra,
             List.filter (fun kv => negb (String.eqb kv.1 "authorsStr"
                                          || String.eqb kv.1 "editorsStr")) extra = [] ->
             clean_pub (VObj (props ++ extra)) = Normal (VObj props)).
  { intros extra Hextra. unfold clean_pub, delete_prop. cbn [mbind completion_bind]. f_equal. f_equal.
    rewrite !List.filter_app. rewrite (filter_absent props "authorsStr" Ha).
    rewrite (filter_absent props "editorsStr" He).
    rewrite <- (app_nil_r props) at 2. f_equal.
    rewrite <- Hextra. clear. induction extra as [ | [k x] rest IH ]; [ reflexivity | ].
    cbn [List.filter fst]. destruct (String.eqb k "authorsStr"); cbn [negb orb List.filter fst];
      [ exact IH | ].
    destruct (String.eqb k "editorsStr"); cbn [negb]; [ exact IH | ]. f_equal. exact IH. }
  assert (Hjson : forall extra, Forall (fun kv => exists s, kv.2 = VStr s) extra ->
             json_value (VObj props) = true -> json_value (VObj (props ++ extra)) = true).
  { intros extra Hstr Hj. cbn [json_value] in *. rewrite forallb_app, Hj. cbn [andb].
    induction Hstr as [ | [k x] rest [s Hs] _ IH ]; [ reflexivity | ].
    cbn [forallb snd] in *. subst x. exact IH. }
  destruct (default VUndefined (get props "authors")) as [ | | | | | authors | ] eqn:Hauthors;
    cbn [set_member] in Hprep.
  6: { rewrite (Hadd props "authorsStr" _ ltac:(discriminate) Ha) in Hprep.
       cbn [get_prop mbind completion_bind] in Hprep.
       destruct (default VUndefined (get (props ++ [("authorsStr", VStr (join ", " authors))]) "editors"))
         as [ | | | | | editors | ] eqn:Heditors; cbn [mret completion_ret set_member] in Hprep.
       6: { rewrite Hadd in Hprep by (discriminate || (rewrite get_app, He; reflexivity)).
            rewrite <- app_assoc in Hprep. injection Hprep as <-.
            split; [ apply Hclean; reflexivity | apply Hjson; repeat constructor; eexists; reflexivity ]. }
       all: injection Hprep as <-.
       all: split; [ apply Hclean; reflexivity | apply Hjson; repeat constructor; eexists; reflexivity ]. }
  all: cbn [get_prop mbind completion_bind] in Hprep.
  all: destruct (default VUndefined (get props "editors")) as [ | | | | | editors | ] eqn:Heditors;
         cbn [mret completion_ret set_member] in Hprep.
  all: try (rewrite (Hadd props "editorsStr" _ ltac:(discriminate) He) in Hprep).
  all: injection Hprep as <-.
  all: try (split; [ apply Hclean; reflexivity | apply Hjson; repeat constructor; eexists; reflexivity ]).
  all: specialize (Hclean [] eq_refl); rewrite app_nil_r in Hclean; split; [ exact Hclean | auto ].
Qed.

Lemma each_clean_prepare items : forall items1,
  Forall no_helper_strings items ->
  each prepare_pub items = Normal items1 ->
  each clean_pub items1 = Normal items
  /\ (forallb json_value items = true -> forallb json_value items1 = true).
Proof.
  induction items as [ | x rest IH ]; intros items1 Hno Hprep.
  - injection Hprep as <-. split; [ reflexivity | auto ].
  - apply Forall_cons in Hno as [Hx Hrest]. cbn [each] in Hprep.
    destruct (prepare_pub x) as [x1 | e] eqn:Hx1; [ | discriminate Hprep ].
    cbn [mbind completion_bind] in Hprep.
    destruct (each prepare_pub rest) as [rest1 | e] eqn:Hrest1; [ | discriminate Hprep ].
    injection Hprep as <-.
    destruct (clean_prepare_pub x x1 Hx Hx1) as [Hclean Hjson].
    destruct (IH rest1 Hrest eq_refl) as [Hcleans Hjsons].
    split.
    + cbn [each]. rewrite Hclean. cbn [mbind completion_bind]. rewrite Hcleans. reflexivity.
    + cbn [forallb]. intros H. apply andb_prop in H as [H1 H2].
      rewrite (Hjson H1), (Hjsons H2). reflexivity.
Qed.

Lemma get_member (P : value -> bool) (props : list (string * value)) key v :
  forallb (fun kv => P kv.2) props = true -> get props key = Some v -> P v = true.
Proof.
  induction props as [ | [k x] rest IH ]; [ discriminate | ].
  cbn [forallb get snd]. intros H. apply andb_prop in H as [Hx Hrest].
  destruct (String.eqb k key); [ intros [= <-]; exact Hx | exact (IH Hrest) ].
Qed.

Lemma members_all (P : value -> bool) (props : list (string * value)) :
  distinct (keys props) = true ->
  (forall k v, get props k = Some v -> P v = true) ->
  forallb (fun kv => P kv.2) props = true.
Proof.
  induction props as [ | [k x] rest IH ]; intros Hd Hget; [ reflexivity | ].
  cbn [keys map fst distinct] in Hd. apply andb_prop in Hd as [Hfresh Hd].
  apply negb_true_iff in Hfresh.
  cbn [forallb snd]. rewrite (Hget k x) by (cbn [get]; rewrite String.eqb_refl; reflexivity).
  cbn [andb]. apply IH; [ exact Hd | ]. intros k0 v Hk0. apply (Hget k0). cbn [get].
  destruct (String.eqb k k0) eqn:E; [ | exact Hk0 ].
  apply String.eqb_eq in E. subst k0.
  assert (H1 : get rest k = None) by (apply get_None_keys; exact Hfresh). congruence.
Qed.

Lemma json_replace_prop (props : list (string * value)) key v :
  forallb (fun kv => json_value kv.2) props = true -> json_value v = true ->
  forallb (fun kv => json_value kv.2) (replace_prop props key v) = true.
Proof.
  intros Hall Hv. induction props as [ | [k x] rest IH ]; [ reflexivity | ].
  cbn [forallb snd] in Hall. apply andb_prop in Hall as [Hx Hrest].
  cbn [replace_prop]. destruct (String.eqb k key); cbn [forallb snd].
  - rewrite Hv, Hrest. reflexivity.
  - rewrite Hx, (IH Hrest). reflexivity.
Qed.

(** X23. Opening and saving without an edit: for a document as
    [JSON.parse] gives it, whose publications hold no helper string, what
    [cleanData] makes of the document that [prepareAuthorsStrings] left is
    the document itself. *)
Theorem cleanData_after_prepare (props pubs : list (string * value)) (edited : value) :
  json_value (VObj props) = true ->
  well_formed (VObj props) = true ->
  get props "publications" = Some (VObj pubs) ->
  (forall type items, type ∈ publication_types -> get pubs type = Some (VArr items) ->
                      Forall no_helper_strings items) ->
  prepareAuthorsStrings (VObj props) = Normal edited ->
  cleanData edited = Normal (VObj props).
Proof.
  intros Hjson Hwf Hpubs Hno Hprep.
  assert (Hproto : ~ "__proto__" ∈ publication_types).
  { unfold publication_types. intros H.
    repeat (apply elem_of_cons in H as [ H | H ]; [ discriminate H | ]).
    apply elem_of_nil in H. exact H. }
  assert (Hnd : NoDup publication_types).
  { unfold publication_types. apply (bool_decide_unpack _). vm_compute. exact I. }
  assert (Hdist : distinct (keys pubs) = true).
  { cbn [well_formed] in Hwf. apply andb_prop in Hwf as [_ Hvals].
    pose proof (get_member well_formed props "publications" (VObj pubs)) as Hm.
    assert (Hvals' : forallb (fun kv => well_formed kv.2) props = true).
    { rewrite <- Hvals. clear. induction props as [ | [k x] rest IH ]; [ reflexivity | ].
      cbn [forallb snd]. rewrite IH. reflexivity. }
    specialize (Hm Hvals' Hpubs). cbn [well_formed] in Hm.
    apply andb_prop in Hm as [Hm _]. apply andb_prop in Hm as [Hm _]. exact Hm. }
  assert (Hjpubs : forallb (fun kv => json_value kv.2) pubs = true).
  { cbn [json_value] in Hjson. exact (get_member json_value props "publications" (VObj pubs) Hjson Hpubs). }
  destruct (on_types_spec prepare_pub publication_types props pubs edited Hpubs Hproto Hnd Hprep)
    as (pubs1 & -> & Hkeys1 & Hgets1).
  set (props1 := set_prop props "publications" (VObj pubs1)).
  assert (Hpubs1 : get props1 "publications" = Some (VObj pubs1))
    by (apply get_set_prop_eq; discriminate).
  (* each list of the edited document cleans back to the list of the document *)
  assert (Hlists : forall k, k ∈ publication_types ->
             match get pubs1 k with
             | Some (VArr items1) =>
                 exists items, get pubs k = Some (VArr items)
                               /\ each clean_pub items1 = Normal items
                               /\ (forallb json_value items = true -> forallb json_value items1 = true)
             | other => get pubs k = other /\ truthy (default VUndefined other) = false
             end).
  { intros k Hk. destruct (Hgets1 k) as [_ Hin]. specialize (Hin Hk).
    destruct (get pubs k) as [ v | ] eqn:Hgk.
    - destruct v as [ | | | | | items | ];
        try (destruct Hin as [-> Hfalse]; split; [ reflexivity | exact Hfalse ]).
      destruct Hin as (items1 & Heach & ->).
      exists items. split; [ reflexivity | ].
      exact (each_clean_prepare items items1 (Hno k items Hk Hgk) Heach).
    - destruct Hin as [-> Hfalse]. split; [ reflexivity | exact Hfalse ]. }
  (* the edited document has no [undefined] in it *)
  assert (Hjson1 : json_value (VObj props1) = true).
  { cbn [json_value]. unfold props1, set_prop. cbn [String.eqb]. rewrite Hpubs.
    change (String.eqb "publications" "__proto__") with false. cbn iota.
    apply json_replace_prop; [ exact Hjson | ].
    cbn [json_value]. apply members_all; [ rewrite Hkeys1; exact Hdist | ].
    intros k v Hkv. destruct (decide (k ∈ publication_types)) as [Hk | Hk].
    - specialize (Hlists k Hk). rewrite Hkv in Hlists.
      destruct v as [ | | | | | items1 | ];
        try (destruct Hlists as [Hsame _]; exact (get_member json_value pubs k _ Hjpubs Hsame)).
      destruct Hlists as (items & Hgk & _ & Hj). cbn [json_value]. apply Hj.
      exact (get_member json_value pubs k _ Hjpubs Hgk).
    - destruct (Hgets1 k) as [Hout _]. rewrite (Hout Hk) in Hkv.
      exact (get_member json_value pubs k v Hjpubs Hkv). }
  unfold cleanData, JSON_clone. fold props1. rewrite (plain_json _ Hjson1).
  cbn [mbind completion_bind].
  destruct (on_types_returns clean_pub publication_types props1 pubs1 Hpubs1 Hproto Hnd)
    as [cleaned Hrun].
  { intros k Hk. specialize (Hlists k Hk).
    destruct (get pubs1 k) as [ [ | | | | | items1 | ] | ]; try exact I; try (destruct Hlists as [_ H]; exact H).
    destruct Hlists as (items & _ & Heach & _). eauto. }
  rewrite Hrun. f_equal.
  destruct (on_types_spec clean_pub publication_types props1 pubs1 cleaned Hpubs1 Hproto Hnd Hrun)
    as (pubs2 & -> & Hkeys2 & Hgets2).
  f_equal. unfold props1. rewrite set_prop_twice by (rewrite Hpubs; discriminate).
  assert (Hsame : pubs2 = pubs).
  { apply members_ext; [ congruence | rewrite Hkeys2, Hkeys1; exact Hdist | ].
    intros k. destruct (decide (k ∈ publication_types)) as [Hk | Hk].
    - destruct (Hgets2 k) as [_ Hin]. specialize (Hin Hk). specialize (Hlists k Hk).
      destruct (get pubs1 k) as [ v | ].
      + destruct v as [ | | | | | items1 | ];
          try (destruct Hin as [-> _]; destruct Hlists as [-> _]; reflexivity).
        destruct Hin as (items2 & Heach2 & ->). destruct Hlists as (items & -> & Heach & _).
        congruence.
      + destruct Hin as [-> _]. destruct Hlists as [-> _]. reflexivity.
    - destruct (Hgets2 k) as [Hout2 _]. destruct (Hgets1 k) as [Hout1 _].
      rewrite (Hout2 Hk), (Hout1 Hk). reflexivity. }
  rewrite Hsame. apply set_prop_same. exact Hpubs.
Qed.

Lemma cleanData_after_prepare_witness : cleanData sample_edited = Normal (VObj sample_loaded).
Proof.
  apply (cleanData_after_prepare sample_loaded sample_lists sample_edited).
  - reflexivity.
  - reflexivity.
  - reflexivity.
  - intros type items _ Hget.
    assert (Hall : forall v, v ∈ sample_lists.*2 ->
                   forall items', v = VArr items' -> Forall no_helper_strings items').
    { intros v Hv items' ->. unfold sample_lists in Hv. cbn [fmap list_fmap snd] in Hv.
      repeat (apply elem_of_cons in Hv as [ Hv | Hv ];
              [ injection Hv as ->; repeat (apply Forall_cons; split; [ intros p [= <-]; split; reflexivity | ]);
                apply Forall_nil; exact I | ]).
      apply elem_of_nil in Hv. contradiction. }
    apply (Hall (VArr items)); [ | reflexivity ].
    unfold sample_lists in *. cbn [get fmap list_fmap snd] in *.
    repeat match type of Hget with
           | (if ?b then _ else _) = _ => destruct b
           end; try discriminate Hget; injection Hget as <-;
      repeat first [ apply elem_of_cons; left; reflexivity | apply elem_of_cons; right ].
  - reflexivity.
Defined.

(** ** The editor in the browser: bilingual fields *)

Lemma ensure_member_spec (obj : list (string * value)) key isArray :
  key <> "__proto__" ->
  (exists v, get (ensure_member obj key isArray) key = Some v /\ v <> VUndefined)
  /\ (forall k, k <> key -> get (ensure_member obj key isArray) k = get obj k)
  /\ (forall v, get obj key = Some v -> v <> VUndefined -> ensure_member obj key isArray = obj)
  /\ ((get obj key = None \/ get obj key = Some VUndefined) ->
      get (ensure_member obj key isArray) key = Some (empty_text isArray)).
Proof.
  intros Hproto. unfold ensure_member.
  assert (Hempty : empty_text isArray <> VUndefined) by (destruct isArray; discriminate).
  assert (Hset : (exists v, get (set_prop obj key (empty_text isArray)) key = Some v /\ v <> VUndefined)
                 /\ (forall k, k <> key -> get (set_prop obj key (empty_text isArray)) k = get obj k)
                 /\ get (set_prop obj key (empty_text isArray)) key = Some (empty_text isArray)).
  { split; [ | split ].
    - exists (empty_text isArray). split; [ apply get_set_prop_eq; exact Hproto | exact Hempty ].
    - intros k Hk. apply get_set_prop_ne. congruence.
    - apply get_set_prop_eq. exact Hproto. }
  destruct Hset as (Hset1 & Hset2 & Hset3).
  destruct (get obj key) as [ v | ] eqn:Hget.
  - destruct v.
    1: { split; [ exact Hset1 | split; [ exact Hset2 | split; [ | intros _; exact Hset3 ] ] ].
         intros v [= <-] H. contradiction. }
    all: rewrite Hget.
    all: split; [ eexists; split; [ reflexivity | discriminate ] | ].
    all: split; [ reflexivity | ].
    all: split; [ reflexivity | intros [ H | H ]; discriminate H ].
  - split; [ exact Hset1 | split; [ exact Hset2 | split; [ | intros _; exact Hset3 ] ] ].
    intros v H. discriminate H.
Qed.

(** X24. [ensureBilingual] gives back an object that has a member [en]
    and a member [nl], neither of them [undefined]. Of an object it keeps
    every other member, and the two where they were there; an object that
    had both is given back as it is, so that a second call changes nothing.
    Everything that is not an object -- a plain string as well -- is
    replaced by the empty pair. *)
Theorem ensureBilingual_both (obj : value) (isArray : bool) :
  (forall items, obj <> VArr items) ->
  exists props,
    ensureBilingual obj isArray = VObj props
    /\ (exists en, get props "en" = Some en /\ en <> VUndefined)
    /\ (exists nl, get props "nl" = Some nl /\ nl <> VUndefined)
    /\ (forall old k v, obj = VObj old -> get old k = Some v -> v <> VUndefined ->
                        get props k = Some v)
    /\ (forall old k, obj = VObj old -> k <> "en" -> k <> "nl" -> get props k = get old k)
    /\ ensureBilingual (VObj props) isArray = VObj props
    /\ ((forall old, obj <> VObj old) ->
        props = [("en", empty_text isArray); ("nl", empty_text isArray)]).
Proof.
  intros Harr.
  assert (Hpair : forall e, e <> VUndefined ->
             ensureBilingual (VObj [("en", e); ("nl", e)]) isArray = VObj [("en", e); ("nl", e)]).
  { intros e He. unfold ensureBilingual, ensure_member. cbn [get].
    change (String.eqb "en" "en") with true. change (String.eqb "en" "nl") with false.
    change (String.eqb "nl" "nl") with true. cbn iota.
    destruct e; try contradiction; reflexivity. }
  assert (Hempty : empty_text isArray <> VUndefined) by (destruct isArray; discriminate).
  destruct obj as [ | | b | n | s | items | old ].
  6: { exfalso. exact (Harr items eq_refl). }
  1-5: (eexists; split; [ reflexivity | ]; split; [ eexists; split; [ reflexivity | exact Hempty ] | ];
        split; [ eexists; split; [ reflexivity | exact Hempty ] | ];
        split; [ intros ? ? ? H; discriminate H | ];
        split; [ intros ? ? H; discriminate H | ];
        split; [ exact (Hpair _ Hempty) | reflexivity ]).
  destruct (ensure_member_spec old "en" isArray ltac:(discriminate)) as (Hen & Hen_other & Hen_same & _).
  set (old1 := ensure_member old "en" isArray) in *.
  destruct (ensure_member_spec old1 "nl" isArray ltac:(discriminate)) as (Hnl & Hnl_other & Hnl_same & _).
  set (old2 := ensure_member old1 "nl" isArray) in *.
  exists old2. split; [ reflexivity | ].
  assert (Hen2 : exists en, get old2 "en" = Some en /\ en <> VUndefined).
  { destruct Hen as (en & Hget & Hdef). exists en. split; [ | exact Hdef ].
    rewrite Hnl_other by discriminate. exact Hget. }
  split; [ exact Hen2 | ]. split; [ exact Hnl | ].
  split; [ | split; [ | split ] ].
  - intros old0 k v [= <-] Hget Hdef.
    destruct (String.eqb_spec k "nl") as [ -> | Hk_nl ].
    + assert (H1 : get old1 "nl" = Some v) by (rewrite Hen_other by discriminate; exact Hget).
      rewrite (Hnl_same v H1 Hdef). exact H1.
    + rewrite Hnl_other by exact Hk_nl.
      destruct (String.eqb_spec k "en") as [ -> | Hk_en ].
      * rewrite (Hen_same v Hget Hdef). exact Hget.
      * rewrite Hen_other by exact Hk_en. exact Hget.
  - intros old0 k [= <-] Hk_en Hk_nl. rewrite Hnl_other by exact Hk_nl. apply Hen_other. exact Hk_en.
  - destruct Hen2 as (en & Hget_en & Hdef_en). destruct Hnl as (nl & Hget_nl & Hdef_nl).
    unfold ensureBilingual. f_equal.
    destruct (ensure_member_spec old2 "en" isArray ltac:(discriminate)) as (_ & _ & Hsame & _).
    rewrite (Hsame en Hget_en Hdef_en).
    destruct (ensure_member_spec old2 "nl" isArray ltac:(discriminate)) as (_ & _ & Hsame' & _).
    exact (Hsame' nl Hget_nl Hdef_nl).
  - intros H. exfalso. exact (H old eq_refl).
Qed.

Lemma ensureBilingual_both_witness :
  exists props,
    ensureBilingual (VObj [("en", VStr "Lead")]) false = VObj props
    /\ (exists en, get props "en" = Some en /\ en <> VUndefined)
    /\ (exists nl, get props "nl" = Some nl /\ nl <> VUndefined)
    /\ (forall old k v, VObj [("en", VStr "Lead")] = VObj old -> get old k = Some v ->
                        v <> VUndefined -> get props k = Some v)
    /\ (forall old k, VObj [("en", VStr "Lead")] = VObj old -> k <> "en" -> k <> "nl" ->
                      get props k = get old k)
    /\ ensureBilingual (VObj props) false = VObj props
    /\ ((forall old, VObj [("en", VStr "Lead")] <> VObj old) ->
        props = [("en", empty_text false); ("nl", empty_text false)]).
Proof. apply (ensureBilingual_both (VObj [("en", VStr "Lead")]) false). discriminate. Defined.

Example ensureBilingual_edges :
  ensureBilingual (VObj [("en", VStr "Lead")]) false = VObj [("en", VStr "Lead"); ("nl", VStr "")]
  /\ ensureBilingual (VStr "Lead") false = VObj [("en", VStr ""); ("nl", VStr "")]
  /\ ensureBilingual VNull true = VObj [("en", VArr []); ("nl", VArr [])]
  /\ ensureBilingual (VObj [("nl", VUndefined); ("note", VNum 1)]) true
     = VObj [("nl", VArr []); ("note", VNum 1); ("en", VArr [])].
Proof. repeat split. Qed.

(** ** The editor in the browser: the order of the entries *)

Lemma delete_insert_at {A} (l : list A) i x :
  (i <= length l)%nat -> delete i (take i l ++ x :: drop i l) = l.
Proof.
  intros Hi. rewrite delete_take_drop.
  rewrite take_app_length' by (rewrite length_take; lia).
  rewrite drop_app_ge by (rewrite length_take; lia).
  rewrite length_take. replace (S i - i `min` length l)%nat with 1%nat by lia.
  change (drop 1 (x :: drop i l)) with (drop i l). apply take_drop.
Qed.

Lemma lookup_insert_at {A} (l : list A) i x :
  (i <= length l)%nat -> (take i l ++ x :: drop i l) !! i = Some x.
Proof.
  intros Hi. rewrite lookup_app_r by (rewrite length_take; lia).
  rewrite length_take. replace (i - i `min` length l)%nat with 0%nat by lia. reflexivity.
Qed.

Lemma insert_deleted {A} (l : list A) i x :
  l !! i = Some x -> take i (delete i l) ++ x :: drop i (delete i l) = l.
Proof.
  intros Hx. pose proof (lookup_lt_Some _ _ _ Hx) as Hlt.
  rewrite delete_take_drop.
  rewrite take_app_length' by (rewrite length_take; lia).
  rewrite drop_app_length' by (rewrite length_take; lia).
  apply take_drop_middle. exact Hx.
Qed.

(** X25. Dragging an entry from one place of a list to another loses and
    repeats nothing: the list keeps its entries and its length, the entry
    that was dragged is at the place it was dropped, and dragging it back
    gives the list as it was. *)
Theorem move_back (oldIndex newIndex : nat) (items : list value) :
  (oldIndex < length items)%nat ->
  (newIndex < length items)%nat ->
  move oldIndex newIndex items ≡ₚ items
  /\ length (move oldIndex newIndex items) = length items
  /\ move oldIndex newIndex items !! newIndex = items !! oldIndex
  /\ move newIndex oldIndex (move oldIndex newIndex items) = items.
Proof.
  intros Hold Hnew. destruct (lookup_lt_is_Some_2 items oldIndex Hold) as [x Hx].
  set (rest := delete oldIndex items).
  assert (Hmove : move oldIndex newIndex items = take newIndex rest ++ x :: drop newIndex rest).
  { unfold move. rewrite Hx. reflexivity. }
  rewrite Hmove.
  assert (Hlen : length rest = (length items - 1)%nat).
  { unfold rest. rewrite length_delete by eauto. lia. }
  assert (Hperm : take newIndex rest ++ x :: drop newIndex rest ≡ₚ items).
  { rewrite <- Permutation_middle, take_drop. unfold rest.
    symmetry. apply delete_Permutation. exact Hx. }
  split; [ exact Hperm | ]. split; [ apply Permutation_length; exact Hperm | ].
  split; [ rewrite Hx; apply lookup_insert_at; lia | ].
  unfold move. rewrite (lookup_insert_at rest newIndex x) by lia.
  cbn [default from_option]. unfold id.
  rewrite (delete_insert_at rest newIndex x) by lia.
  unfold rest. apply insert_deleted. exact Hx.
Qed.

Lemma move_back_witness :
  move 0 2 [VStr "a"; VStr "b"; VStr "c"] ≡ₚ [VStr "a"; VStr "b"; VStr "c"]
  /\ length (move 0 2 [VStr "a"; VStr "b"; VStr "c"]) = length [VStr "a"; VStr "b"; VStr "c"]
  /\ move 0 2 [VStr "a"; VStr "b"; VStr "c"] !! 2%nat = [VStr "a"; VStr "b"; VStr "c"] !! 0%nat
  /\ move 2 0 (move 0 2 [VStr "a"; VStr "b"; VStr "c"]) = [VStr "a"; VStr "b"; VStr "c"].
Proof. apply (move_back 0 2 [VStr "a"; VStr "b"; VStr "c"]); cbn; lia. Defined.

Example move_edges :
  move 0 2 [VStr "a"; VStr "b"; VStr "c"] = [VStr "b"; VStr "c"; VStr "a"]
  /\ move 5 1 [VStr "a"; VStr "b"] = [VStr "a"; VUndefined; VStr "b"].
Proof. repeat split. Qed.

(** X26. A copy made by [duplicateItem] stands right after the entry it
    was made of and equals it (as [JSON] text gives it back); the entries
    before and after are the old ones, and removing the copy gives the list
    as it was. With no entry at the index the call throws and leaves the
    list alone. *)
Theorem duplicateItem_copy (items : list value) (index : nat) (item : value) :
  items !! index = Some item ->
  json_value item = true ->
  duplicateItem items index = Normal (take (S index) items ++ item :: drop (S index) items)
  /\ (take (S index) items ++ item :: drop (S index) items) !! index = Some item
  /\ (take (S index) items ++ item :: drop (S index) items) !! S index = Some item
  /\ removeItem true (take (S index) items ++ item :: drop (S index) items) (S index) = items
  /\ forall beyond, (length items <= beyond)%nat ->
       duplicateItem items beyond = Throw (Error "SyntaxError").
Proof.
  intros Hitem Hjson. pose proof (lookup_lt_Some _ _ _ Hitem) as Hlt.
  split; [ | split; [ | split; [ | split ] ] ].
  - unfold duplicateItem, JSON_clone. rewrite Hitem. cbn [default from_option]. unfold id.
    rewrite (plain_json item Hjson). destruct item; try reflexivity. discriminate Hjson.
  - rewrite lookup_app_l by (rewrite length_take; lia).
    rewrite lookup_take_lt by lia. exact Hitem.
  - apply lookup_insert_at. lia.
  - unfold removeItem. apply delete_insert_at. lia.
  - intros beyond Hbeyond. unfold duplicateItem.
    rewrite (lookup_ge_None_2 items beyond Hbeyond). reflexivity.
Qed.

Lemma duplicateItem_copy_witness :
  duplicateItem [VStr "a"; VStr "b"] 0
  = Normal (take 1 [VStr "a"; VStr "b"] ++ VStr "a" :: drop 1 [VStr "a"; VStr "b"])
  /\ (take 1 [VStr "a"; VStr "b"] ++ VStr "a" :: drop 1 [VStr "a"; VStr "b"]) !! 0%nat
     = Some (VStr "a")
  /\ (take 1 [VStr "a"; VStr "b"] ++ VStr "a" :: drop 1 [VStr "a"; VStr "b"]) !! 1%nat
     = Some (VStr "a")
  /\ removeItem true (take 1 [VStr "a"; VStr "b"] ++ VStr "a" :: drop 1 [VStr "a"; VStr "b"]) 1
     = [VStr "a"; VStr "b"]
  /\ forall beyond, (length [VStr "a"; VStr "b"] <= beyond)%nat ->
       duplicateItem [VStr "a"; VStr "b"] beyond = Throw (Error "SyntaxError").
Proof. apply (duplicateItem_copy [VStr "a"; VStr "b"] 0 (VStr "a")); reflexivity. Defined.

(** ** The editor in the browser: names of sections *)

Lemma capitalize_length s : forall after_word,
  String.length (capitalize after_word s) = String.length s.
Proof. induction s as [ | c rest IH ]; intros b; [ reflexivity | ]. cbn. rewrite IH. reflexivity. Qed.

Lemma map_chars_length f s : String.length (map_chars f s) = String.length s.
Proof. induction s as [ | c rest IH ]; [ reflexivity | ]. cbn. rewrite IH. reflexivity. Qed.

Lemma upper_char_facts c :
  is_word (upper_char c) = is_word c
  /\ upper_char (upper_char c) = upper_char c
  /\ (not_underscore c = true -> not_underscore (upper_char c) = true)
  /\ not_underscore (space_for_underscore c) = true
  /\ (not_underscore c = true -> space_for_underscore c = c).
Proof. destruct c as [[] [] [] [] [] [] [] []]; vm_compute; repeat split; congruence. Qed.

Lemma capitalize_not_underscore s : forall after_word,
  all_chars not_underscore s = true -> all_chars not_underscore (capitalize after_word s) = true.
Proof.
  induction s as [ | c rest IH ]; intros b Hall; [ reflexivity | ].
  cbn [all_chars] in Hall. apply andb_true_iff in Hall as [Hc Hrest].
  cbn [capitalize all_chars]. rewrite (IH _ Hrest), andb_true_r.
  destruct (is_word c && negb b); [ | exact Hc ].
  destruct (upper_char_facts c) as (_ & _ & H & _). exact (H Hc).
Qed.

Lemma capitalize_twice s : forall after_word,
  capitalize after_word (capitalize after_word s) = capitalize after_word s.
Proof.
  induction s as [ | c rest IH ]; intros b; [ reflexivity | ].
  cbn [capitalize]. destruct (upper_char_facts c) as (Hword & Hup & _).
  assert (Hw : is_word (if is_word c && negb b then upper_char c else c) = is_word c)
    by (destruct (is_word c && negb b); [ exact Hword | reflexivity ]).
  rewrite Hw, IH. f_equal.
  destruct (is_word c && negb b); [ exact Hup | reflexivity ].
Qed.

(** X27. The title made of a section name has the length of the name and
    no underscore in it, and making a title of a title changes nothing. *)
Theorem formatSectionName_title (name : string) :
  String.length (formatSectionName name) = String.length name
  /\ all_chars not_underscore (formatSectionName name) = true
  /\ formatSectionName (formatSectionName name) = formatSectionName name.
Proof.
  unfold formatSectionName.
  assert (Hspaces : all_chars not_underscore (map_chars space_for_underscore name) = true).
  { induction name as [ | c rest IH ]; [ reflexivity | ]. cbn [map_chars all_chars].
    rewrite IH, andb_true_r. destruct (upper_char_facts c) as (_ & _ & _ & H & _). exact H. }
  assert (Hfixed : forall s, all_chars not_underscore s = true -> map_chars space_for_underscore s = s).
  { induction s as [ | c rest IH ]; intros Hall; [ reflexivity | ].
    cbn [all_chars] in Hall. apply andb_true_iff in Hall as [Hc Hrest]. cbn [map_chars].
    rewrite (IH Hrest). destruct (upper_char_facts c) as (_ & _ & _ & _ & H). rewrite (H Hc). reflexivity. }
  split; [ rewrite capitalize_length, map_chars_length; reflexivity | ].
  pose proof (capitalize_not_underscore _ false Hspaces) as Hclean.
  split; [ exact Hclean | ].
  rewrite (Hfixed _ Hclean). apply capitalize_twice.
Qed.

Example formatSectionName_samples :
  formatSectionName "media_summary" = "Media Summary"
  /\ formatSectionName "book_chapters" = "Book Chapters"
  /\ formatSectionName "profile" = "Profile".
Proof. repeat split. Qed.

(** ** The theme of the pages *)

Import Theme.

Lemma handle_stored (p : page) (e : event) :
  present (stored p) = true ->
  present (stored (handle p e)) = true /\ (is_click e = false -> handle p e = p).
Proof.
  intros Hp. destruct e as [ | matches ]; cbn [handle is_click].
  - split; [ | discriminate ]. unfold toggleTheme, setTheme. cbn [stored].
    destruct (String.eqb _ "light"); reflexivity.
  - rewrite Hp. split; [ exact Hp | reflexivity ].
Qed.

Lemma changes_ignored events : forall p,
  present (stored p) = true ->
  fold_left handle events p = fold_left handle (List.filter is_click events) p.
Proof.
  induction events as [ | e rest IH ]; intros p Hp; [ reflexivity | ].
  destruct (handle_stored p e Hp) as [Hstored Hsame]. cbn [fold_left List.filter].
  destruct (is_click e) eqn:E.
  - cbn [fold_left]. apply IH. exact Hstored.
  - rewrite (Hsame eq_refl). apply IH. exact Hp.
Qed.

(** X28. Once a theme is stored, the preference of the system no longer
    counts: on a page that comes with a stored theme, or on a system that
    prefers dark (where [init] itself stores [dark]), the theme at the end
    of a session is what the clicks alone make of it, whatever changes of
    the system preference come in between. *)
Theorem stored_theme_wins (prefers_dark : bool) (events : list event) (p : page) :
  present (stored p) = true \/ prefers_dark = true ->
  session prefers_dark events p = session prefers_dark (List.filter is_click events) p
  /\ present (stored (session prefers_dark events p)) = true.
Proof.
  intros Hcase. unfold session.
  assert (Hinit : present (stored (init prefers_dark p)) = true).
  { unfold init. destruct (present (stored p)) eqn:Hp.
    - cbn [setTheme stored]. destruct (stored p) as [ s | ]; [ exact Hp | discriminate Hp ].
    - destruct Hcase as [ H | -> ]; [ discriminate H | reflexivity ]. }
  split; [ exact (changes_ignored events _ Hinit) | ].
  revert Hinit. generalize (init prefers_dark p). induction events as [ | e rest IH ]; intros q Hq;
    [ exact Hq | ].
  cbn [fold_left]. apply IH. exact (proj1 (handle_stored q e Hq)).
Qed.

Lemma stored_theme_wins_witness :
  session true [Change false; Click; Change true] first_visit
  = session true (List.filter is_click [Change false; Click; Change true]) first_visit
  /\ present (stored (session true [Change false; Click; Change true] first_visit)) = true.
Proof.
  apply (stored_theme_wins true [Change false; Click; Change true] first_visit). right. reflexivity.
Defined.

(** X29. After a click on the button the page shows [light] or [dark]
    and the stored theme is the one shown; a second click gives the other
    of the two, and a third the first again. *)
Theorem toggleTheme_light_dark (p : page) :
  (attribute (toggleTheme p) = Some "light" \/ attribute (toggleTheme p) = Some "dark")
  /\ stored (toggleTheme p) = attribute (toggleTheme p)
  /\ attribute (toggleTheme (toggleTheme p)) <> attribute (toggleTheme p)
  /\ toggleTheme (toggleTheme (toggleTheme p)) = toggleTheme p.
Proof.
  unfold toggleTheme, setTheme. cbn [attribute stored present default from_option].
  destruct (String.eqb (if present (attribute p) then default "" (attribute p) else "light") "light");
    repeat split; auto; discriminate.
Qed.

Example first_visit_sessions :
  session true [] first_visit = {| attribute := Some "dark"; stored := Some "dark" |}
  /\ session true [Change false] first_visit = {| attribute := Some "dark"; stored := Some "dark" |}
  /\ session false [] first_visit = first_visit
  /\ session false [Change true; Change false] first_visit
     = {| attribute := Some "dark"; stored := Some "dark" |}
  /\ toggleTheme {| attribute := Some "sepia"; stored := None |}
     = {| attribute := Some "light"; stored := Some "light" |}.
Proof. repeat split. Qed.

(** ** The site builder: the output directory, and the builds that stop *)

Import SiteBuilder.

Lemma photo_of_throws (data : value) (e : error) : photo_of data = Throw e -> e = TypeError.
Proof.
  unfold photo_of, get_prop. destruct data as [ | | b | n | s | items | props ]; cbn; try congruence.
  destruct (default VUndefined (get props "personal")); cbn; congruence.
Qed.

Lemma held_made_places (docs : list (path * string)) (l : path) :
  held made_directories docs l <> None ->
  l ∈ output_places \/ exists text, (l, text) ∈ docs.
Proof.
  unfold held. destruct (document_at docs l) as [ text | ] eqn:Hdoc.
  - intros _. right. exists text. apply document_at_elem, Hdoc.
  - destruct (existsb _ made_directories) eqn:Hmade; [ | congruence ]. intros _. left.
    apply existsb_exists in Hmade as (m & Hm & Hp). apply bool_decide_eq_true_1 in Hp.
    apply prefixes_spec in Hp. apply list_elem_of_In in Hm. unfold made_directories in Hm.
    unfold output_places.
    repeat (apply elem_of_cons in Hm as [-> | Hm];
            [ vm_compute in Hp;
              repeat (apply elem_of_cons in Hp as [-> | Hp];
                      [ repeat first [ apply list_elem_of_here | apply list_elem_of_further ] | ]);
              apply elem_of_nil in Hp; contradiction | ]).
    apply elem_of_nil in Hm. contradiction.
Qed.

(** X30. A build that succeeds changes nothing outside the output
    directory and makes the output directory anew: what it holds afterwards
    is at one of twenty places (the nine directories, the eight pages, the
    three assets), whatever it held before; and the style sheet, the script
    and the photo are there as they are in their sources, where these are
    files. *)
Theorem generatePortfolio_output (BASE_DIR : path) (JSON_parse : string -> completion value)
    (renderTemplate : string -> value -> string -> completion string)
    (html : string -> string -> string) (t : tree) (text : string) (data : value)
    (photo : string) :
  sound_tree t ->
  t !! DATA_FILE BASE_DIR = Some (Document text) ->
  JSON_parse text = Normal data ->
  photo_of data = Normal (VStr photo) ->
  copyable BASE_DIR t photo ->
  (forall template lang,
      lang ∈ LANGUAGES -> renderTemplate template data lang = Normal (html template lang)) ->
  exists out,
    generatePortfolio BASE_DIR JSON_parse renderTemplate t = (Finished tt, out)
    /\ (forall q, below (OUTPUT_DIR BASE_DIR) q = false -> out !! q = t !! q)
    /\ (forall l, out !! (OUTPUT_DIR BASE_DIR ++ l) <> None -> l ∈ output_places)
    /\ (forall style, t !! cssSource BASE_DIR = Some (Document style) ->
          out !! (OUTPUT_DIR BASE_DIR ++ ["assets"; "css"; "portfolio.css"])
          = Some (Document style))
    /\ (forall script, t !! jsSource BASE_DIR = Some (Document script) ->
          out !! (OUTPUT_DIR BASE_DIR ++ ["assets"; "js"; "portfolio.js"])
          = Some (Document script))
    /\ (forall image, t !! (join BASE_DIR photo).1 = Some (Document image) ->
          (join BASE_DIR photo).2 = false ->
          out !! portrait BASE_DIR = Some (Document image)).
Proof.
  intros Hwf Hdata Hparse Hphoto Hcopy Hrender.
  destruct (generatePortfolio_run BASE_DIR JSON_parse renderTemplate t
              (script_directory_data_file _ _ _ Hwf Hdata) data photo html Hrender text
              Hwf Hdata Hparse Hphoto Hcopy) as (out & Hrun & Hin & Hout).
  exists out. split; [ exact Hrun | ]. split; [ exact Hout | ].
  unfold copied_assets in Hin. split; [ | split; [ | split ] ].
  - intros l Hl. rewrite Hin in Hl.
    destruct (held_made_places _ _ Hl) as [Hplace | [y Hy]]; [ exact Hplace | ].
    assert (Hkey : l ∈ map fst (written_pages html)
                   ∨ l ∈ [["assets"; "js"; "portfolio.js"]; ["assets"; "css"; "portfolio.css"];
                          ["assets"; "images"; "portrait.jpeg"]]).
    { apply elem_of_app in Hy as [Hy | Hy].
      - left. apply list_elem_of_fmap. exists (l, y). split; [ reflexivity | exact Hy ].
      - right. unfold copied in Hy.
        repeat (apply elem_of_app in Hy as [Hy | Hy]).
        all: repeat match type of Hy with
                    | context [match ?x with _ => _ end] => destruct x
                    end.
        all: try (apply elem_of_nil in Hy; contradiction).
        all: apply list_elem_of_singleton in Hy; injection Hy as -> _.
        all: repeat first [ apply list_elem_of_here | apply list_elem_of_further ]. }
    unfold output_places. destruct Hkey as [Hkey | Hkey]; cbn in Hkey.
    all: repeat (apply elem_of_cons in Hkey as [-> | Hkey];
                 [ repeat first [ apply list_elem_of_here | apply list_elem_of_further ] | ]).
    all: apply elem_of_nil in Hkey; contradiction.
  - intros style Hstyle. rewrite Hin, Hstyle. unfold written_pages. cbn [app].
    repeat (rewrite held_cons_ne by discriminate). rewrite held_copied by discriminate.
    reflexivity.
  - intros script Hscript. rewrite Hin, Hscript. unfold written_pages. cbn [app].
    repeat (rewrite held_cons_ne by discriminate). reflexivity.
  - intros image Himage Hslash. unfold portrait. rewrite Hin, Himage, Hslash.
    unfold written_pages. cbn [app].
    repeat (rewrite held_cons_ne by discriminate).
    rewrite !held_copied by discriminate.
    rewrite <- (app_nil_r (copied _ _ _)). reflexivity.
Qed.

Lemma generatePortfolio_output_witness :
  exists out,
    generatePortfolio site sample_parse sample_renderer sample_tree = (Finished tt, out)
    /\ (forall q, below (OUTPUT_DIR site) q = false -> out !! q = sample_tree !! q)
    /\ (forall l, out !! (OUTPUT_DIR site ++ l) <> None -> l ∈ output_places)
    /\ (forall style, sample_tree !! cssSource site = Some (Document style) ->
          out !! (OUTPUT_DIR site ++ ["assets"; "css"; "portfolio.css"])
          = Some (Document style))
    /\ (forall script, sample_tree !! jsSource site = Some (Document script) ->
          out !! (OUTPUT_DIR site ++ ["assets"; "js"; "portfolio.js"])
          = Some (Document script))
    /\ (forall image, sample_tree !! (join site "fotos/ada.jpeg").1 = Some (Document image) ->
          (join site "fotos/ada.jpeg").2 = false ->
          out !! portrait site = Some (Document image)).
Proof.
  apply (generatePortfolio_output site sample_parse sample_renderer
           (fun template lang => page_mark template sample_document lang)
           sample_tree "ADA" sample_document "fotos/ada.jpeg").
  - unfold sound_tree. apply (bool_decide_unpack _). vm_compute. exact I.
  - vm_compute. reflexivity.
  - reflexivity.
  - reflexivity.
  - repeat split; vm_compute; discriminate.
  - intros template lang _. reflexivity.
Defined.

(** X31. A document without a photo stops the build: with no
    [personal.photo] that is a string the builder throws a [TypeError], and
    the process ends with status 1. By then the output directory has been
    made anew: what it held is gone, it holds the nine directories and no
    file, so none of the pages; outside it nothing has changed. A build
    without a data file ends with status 1 and changes nothing. *)
Theorem generatePortfolio_needs_photo (BASE_DIR : path)
    (JSON_parse : string -> completion value)
    (renderTemplate : string -> value -> string -> completion string)
    (t : tree) (text : string) (data : value) :
  sound_tree t ->
  t !! DATA_FILE BASE_DIR = Some (Document text) ->
  JSON_parse text = Normal data ->
  no_photo data ->
  (exists t1,
      generatePortfolio BASE_DIR JSON_parse renderTemplate t = (Raised TypeError, t1)
      /\ main BASE_DIR JSON_parse renderTemplate t = (Stopped 1, t1)
      /\ (forall q, below (OUTPUT_DIR BASE_DIR) q = false -> t1 !! q = t !! q)
      /\ (forall l, t1 !! (OUTPUT_DIR BASE_DIR ++ l)
                    = if bool_decide (l ∈ take 9 output_places) then Some Folder else None)
      /\ (forall lang template file,
            lang ∈ LANGUAGES -> (template, file) ∈ pages BASE_DIR -> t1 !! file lang = None))
  /\ (forall u : tree,
        u !! DATA_FILE BASE_DIR = None ->
        main BASE_DIR JSON_parse renderTemplate u = (Stopped 1, u)).
Proof.
  intros Hwf Hdata Hparse Hphoto. split.
  2: { intros u Hu. unfold main, generatePortfolio, existsSync, mbind, build_bind.
       rewrite Hu. reflexivity. }
  destruct (prepare_run BASE_DIR t (script_directory_data_file _ _ _ Hwf Hdata) Hwf)
    as (t1 & Hprepare & Hin & Hout).
  assert (Hfound : existsSync (DATA_FILE BASE_DIR) false t = (Finished true, t))
    by (unfold existsSync; rewrite Hdata; reflexivity).
  assert (Hread : readFileSync (DATA_FILE BASE_DIR) t = (Finished text, t))
    by (unfold readFileSync; rewrite Hdata; reflexivity).
  assert (Hrun : generatePortfolio BASE_DIR JSON_parse renderTemplate t = (Raised TypeError, t1)).
  { unfold generatePortfolio. rewrite (bind_finished _ _ _ _ _ Hfound).
    rewrite (bind_finished _ _ t t tt eq_refl), (bind_finished _ _ _ _ _ Hread).
    rewrite Hparse, lift_normal, (bind_finished _ _ _ _ _ Hprepare).
    unfold copy_assets, mbind, build_bind, lift.
    destruct (photo_of data) as [ v | e ] eqn:Ev.
    - destruct v; try reflexivity. exfalso. exact (Hphoto _ Ev).
    - rewrite (photo_of_throws _ _ Ev). reflexivity. }
  exists t1. split; [ exact Hrun | ]. split; [ unfold main; rewrite Hrun; reflexivity | ].
  split; [ exact Hout | ].
  assert (Hheld : forall l, held made_directories [] l
                            = if bool_decide (l ∈ take 9 output_places) then Some Folder else None).
  { intros l. destruct (decide (l ∈ take 9 output_places)) as [Hl | Hl].
    - rewrite bool_decide_eq_true_2 by exact Hl. cbn [take output_places] in Hl.
      repeat (apply elem_of_cons in Hl as [-> | Hl]; [ reflexivity | ]).
      apply elem_of_nil in Hl. contradiction.
    - rewrite bool_decide_eq_false_2 by exact Hl.
      destruct (held made_directories [] l) eqn:Hl'; [ exfalso | reflexivity ].
      unfold held in Hl'. cbn [document_at] in Hl'.
      destruct (existsb _ made_directories) eqn:Hmade; [ | discriminate Hl' ].
      apply Hl. clear Hl Hl'.
      apply existsb_exists in Hmade as (m & Hm & Hp). apply bool_decide_eq_true_1 in Hp.
      apply prefixes_spec in Hp. apply list_elem_of_In in Hm. unfold made_directories in Hm.
      cbn [take output_places].
      repeat (apply elem_of_cons in Hm as [-> | Hm];
              [ vm_compute in Hp;
                repeat (apply elem_of_cons in Hp as [-> | Hp];
                        [ repeat first [ apply list_elem_of_here | apply list_elem_of_further ] | ]);
                apply elem_of_nil in Hp; contradiction | ]).
      apply elem_of_nil in Hm. contradiction. }
  split; [ intros l; rewrite Hin; apply Hheld | ].
  intros lang template file Hlang Hpage. unfold LANGUAGES, pages in *.
  repeat (apply elem_of_cons in Hlang as [-> | Hlang]); [ | | apply elem_of_nil in Hlang; contradiction ];
    repeat (apply elem_of_cons in Hpage as [[= -> ->] | Hpage]);
    try (apply elem_of_nil in Hpage; contradiction).
  all: lazymatch goal with
       | |- _ !! ?p = _ =>
           let p' := eval cbv [homePath cvPagePath pubsPath presPath sectionPath
                               String.eqb Ascii.eqb Bool.eqb String.append] in p in
           change p with p'
       end.
  all: rewrite Hin; reflexivity.
Qed.

Lemma generatePortfolio_needs_photo_witness :
  (exists t1,
      generatePortfolio site nameless_parse sample_renderer sample_tree = (Raised TypeError, t1)
      /\ main site nameless_parse sample_renderer sample_tree = (Stopped 1, t1)
      /\ (forall q, below (OUTPUT_DIR site) q = false -> t1 !! q = sample_tree !! q)
      /\ (forall l, t1 !! (OUTPUT_DIR site ++ l)
                    = if bool_decide (l ∈ take 9 output_places) then Some Folder else None)
      /\ (forall lang template file,
            lang ∈ LANGUAGES -> (template, file) ∈ pages site -> t1 !! file lang = None))
  /\ (forall u : tree,
        u !! DATA_FILE site = None ->
        main site nameless_parse sample_renderer u = (Stopped 1, u)).
Proof.
  apply (generatePortfolio_needs_photo site nameless_parse sample_renderer sample_tree "ADA"
           (VObj [("personal", VObj [("name", VStr "Ada")])])).
  - unfold sound_tree. apply (bool_decide_unpack _). vm_compute. exact I.
  - vm_compute. reflexivity.
  - reflexivity.
  - intros photo. vm_compute. discriminate.
Defined.
